(** * A shallow embedding of the multi-language dependency tracer

    Source: [skills/repo-dependency-analyzer/scripts/trace_dependencies.py].

    The Python class [DependencyTracer] is embedded as pure functions over
    an explicit file system.  Three modelling decisions are fixed here:

    - a [pathlib.Path] is always absolute in this program (everything is
      built from the resolved repository root), so it is the anchor
      (one slash, or the POSIX double slash) and the list of components;
    - the file system has directories and regular files and no symbolic
      links, so [Path.resolve] is the lexical normalisation that
      [os.path.realpath] performs when no component is a link;
    - file contents are ASCII text: [\s] and [\w] are the ASCII members of
      the classes Python's [re] uses for [str] patterns.

    Python sets are duplicate-free lists in insertion order; the order in
    which Python iterates a set is unspecified, the lists fix one. *)

From Stdlib Require Import List Bool Arith ZArith Lia String Ascii DecimalString.
Import ListNotations.

Local Open Scope string_scope.
Local Open Scope list_scope.

(* ================================================================== *)
(** ** Strings, as the [str] methods the tracer calls *)

Module Str.

(** [s.split(sep)] for a one-character separator. *)
Fixpoint split (sep : ascii) (s : string) : list string :=
  match s with
  | EmptyString => [EmptyString]
  | String c s' =>
      if Ascii.eqb c sep then EmptyString :: split sep s'
      else match split sep s' with
           | [] => [String c EmptyString]
           | h :: t => String c h :: t
           end
  end.

(** [s.replace(a, b)] for one-character [a] and [b]. *)
Fixpoint replace (a b : ascii) (s : string) : string :=
  match s with
  | EmptyString => EmptyString
  | String c s' => String (if Ascii.eqb c a then b else c) (replace a b s')
  end.

(** [s.startswith(p)]. *)
Definition startswith (p s : string) : bool := String.prefix p s.

(** [s.rfind(c)], [None] standing for -1. *)
Fixpoint rfind (c : ascii) (s : string) : option nat :=
  match s with
  | EmptyString => None
  | String a s' =>
      match rfind c s' with
      | Some i => Some (S i)
      | None => if Ascii.eqb a c then Some 0 else None
      end
  end.

(** [sep.join(l)]. *)
Definition join (sep : string) (l : list string) : string := String.concat sep l.

End Str.

(* ================================================================== *)
(** ** Paths: [pathlib.PurePosixPath] restricted to absolute paths *)

Record Path : Type := mkPath {
  dslash : bool;          (* anchor is "//" rather than "/" *)
  parts : list string     (* the components after the anchor *)
}.

Definition parts_eqb (a b : list string) : bool :=
  if list_eq_dec string_dec a b then true else false.

Definition path_eqb (p q : Path) : bool :=
  Bool.eqb (dslash p) (dslash q) && parts_eqb (parts p) (parts q).

Definition mem (p : Path) (l : list Path) : bool := existsb (path_eqb p) l.

(** The components pathlib keeps when it parses a string: empty ones and
    single dots are dropped, [".."] is kept. *)
Definition segments (s : string) : list string :=
  filter (fun c => negb (String.eqb c "" || String.eqb c "."))
         (Str.split "/" s).

(** Exactly two leading slashes make the POSIX double-slash anchor. *)
Definition two_slashes (s : string) : bool :=
  Str.startswith "//" s && negb (Str.startswith "///" s).

(** [Path(s)] for an absolute string [s]. *)
Definition of_string (s : string) : Path :=
  mkPath (two_slashes s) (segments s).

(** [p / s]: an absolute right operand replaces the left one. *)
Definition joinpath (p : Path) (s : string) : Path :=
  if Str.startswith "/" s then of_string s
  else mkPath (dslash p) (parts p ++ segments s).

Notation "p // s" := (joinpath p s) (at level 40, left associativity).

(** [str(p)]. *)
Definition to_string (p : Path) : string :=
  ((if dslash p then "//" else "/") ++ Str.join "/" (parts p))%string.

(** [p.parent]: lexical, the anchor is its own parent. *)
Definition parent (p : Path) : Path := mkPath (dslash p) (removelast (parts p)).

(** [p.name]: the last component, empty for the anchor. *)
Definition name (p : Path) : string := last (parts p) "".

(** [p.suffix]: from the last dot of the name, unless that dot is the
    first or the last character. *)
Definition suffix (p : Path) : string :=
  let n := name p in
  match Str.rfind "." n with
  | Some i =>
      if Nat.ltb 0 i && Nat.ltb i (String.length n - 1)
      then String.substring i (String.length n - i) n
      else ""
  | None => ""
  end.

(** Lexical normalisation of a component list: [".."] removes the last
    component kept so far and is absorbed at the anchor. *)
Fixpoint normalize_from (cur comps : list string) : list string :=
  match comps with
  | [] => cur
  | c :: rest =>
      normalize_from (if String.eqb c ".." then removelast cur else cur ++ [c]) rest
  end.

(** [p.resolve()] on a file system without symbolic links; [realpath]
    restarts from a single slash. *)
Definition resolve (p : Path) : Path := mkPath false (normalize_from [] (parts p)).

Fixpoint is_prefix (a b : list string) : bool :=
  match a, b with
  | [], _ => true
  | x :: a', y :: b' => String.eqb x y && is_prefix a' b'
  | _ :: _, [] => false
  end.

(** [p.is_relative_to(root)]: a comparison of anchors and components. *)
Definition is_relative_to (p root : Path) : bool :=
  Bool.eqb (dslash p) (dslash root) && is_prefix (parts root) (parts p).

(** [p.relative_to(root)]: the remaining components, or [ValueError]. *)
Definition relative_to (p root : Path) : option (list string) :=
  if is_relative_to p root
  then Some (skipn (List.length (parts root)) (parts p))
  else None.

(* ================================================================== *)
(** ** The file system *)

Inductive Node : Type :=
| File (content : option string)   (* [None]: [open] raises on this file *)
| Dir.

(** A file system maps a normalised component list to what is there. *)
Definition FS : Type := list string -> option Node.

Definition node_at (fs : FS) (cur : list string) : option Node :=
  match cur with
  | [] => Some Dir
  | _ => fs cur
  end.

(** The kernel's path walk: every component is looked up in a directory,
    [".."] goes to that directory's parent. *)
Fixpoint walk (fs : FS) (cur comps : list string) : option (list string) :=
  match comps with
  | [] => Some cur
  | c :: rest =>
      match node_at fs cur with
      | Some Dir =>
          walk fs (if String.eqb c ".." then removelast cur else cur ++ [c]) rest
      | _ => None
      end
  end.

Definition stat (fs : FS) (p : Path) : option Node :=
  match walk fs [] (parts p) with
  | Some cur => node_at fs cur
  | None => None
  end.

(** [p.exists()]. *)
Definition exists_ (fs : FS) (p : Path) : bool :=
  match stat fs p with Some _ => true | None => false end.

(** [p.is_dir()]. *)
Definition is_dir (fs : FS) (p : Path) : bool :=
  match stat fs p with Some Dir => true | _ => false end.

(** [open(p).read()]: [None] when [open] or [read] raises (no such file,
    a directory, an unreadable file). *)
Definition read_file (fs : FS) (p : Path) : option string :=
  match stat fs p with
  | Some (File (Some content)) => Some content
  | _ => None
  end.

(** A file system given by its entries. *)
Fixpoint mkfs (entries : list (list string * Node)) : FS :=
  fun cur =>
    match entries with
    | [] => None
    | (k, n) :: rest => if parts_eqb k cur then Some n else mkfs rest cur
    end.

(* ================================================================== *)
(** ** Regular expressions: the fragment of [re] the tracer's patterns use

    Every pattern of the tracer is a concatenation of single characters,
    character classes, repetitions of a character class (greedy [*] and
    [+], lazy [*?]), the anchor [^] under [re.MULTILINE] and one capturing
    group.  A pattern is therefore a list of items, and matching is the
    backtracking search of [re]: a greedy repetition tries the longest
    run first, a lazy one the shortest. *)

Module Re.

Inductive item : Type :=
| Bol                                              (* ^ with re.MULTILINE *)
| Chr (p : ascii -> bool)                          (* one character of a class *)
| Rep (min : nat) (greedy : bool) (p : ascii -> bool)
| Open                                             (* ( *)
| Close.                                           (* ) *)

Definition pattern : Type := list item.

Definition code (c : ascii) : nat := nat_of_ascii c.
Definition between (lo hi : nat) (c : ascii) : bool :=
  Nat.leb lo (code c) && Nat.leb (code c) hi.

(** [\s] on ASCII: tab, newline, vertical tab, form feed, carriage
    return, the four separators 0x1c-0x1f and the space. *)
Definition space (c : ascii) : bool := between 9 13 c || between 28 32 c.

(** [\w] on ASCII. *)
Definition word (c : ascii) : bool :=
  between 97 122 c || between 65 90 c || between 48 57 c || Ascii.eqb c "_".

(** [[a-zA-Z_]]. *)
Definition alpha_ (c : ascii) : bool :=
  between 97 122 c || between 65 90 c || Ascii.eqb c "_".

(** [[\w.]]. *)
Definition word_dot (c : ascii) : bool := word c || Ascii.eqb c ".".

Definition newline : ascii := "010".

(** [.] without [re.DOTALL]. *)
Definition dot (c : ascii) : bool := negb (Ascii.eqb c newline).

Definition only (a : ascii) (c : ascii) : bool := Ascii.eqb c a.
Definition except (a : ascii) (c : ascii) : bool := negb (Ascii.eqb c a).
Definition dquote : ascii := "034".
Definition quote (c : ascii) : bool := Ascii.eqb c dquote || Ascii.eqb c "'".
Definition not_quote (c : ascii) : bool := negb (quote c).

(** A literal word of the pattern. *)
Fixpoint lit (s : string) : pattern :=
  match s with
  | EmptyString => []
  | String c s' => Chr (only c) :: lit s'
  end.

(** A match in progress ends with the length of the match and the span
    of the group. *)
Definition found : Type := (nat * nat * nat)%type.

(** What remains to be matched, as a function of the character before
    the current position, the text from there on and the number of
    characters consumed so far. *)
Definition continuation : Type := option ascii -> list ascii -> nat -> option found.

(** A repetition of the class [p], at least [min] times, [cnt] characters
    of the run being consumed already; [k] matches what follows it. *)
Fixpoint rep (k : continuation) (min : nat) (greedy : bool) (p : ascii -> bool)
         (s : list ascii) (prev : option ascii) (n cnt : nat) {struct s}
  : option found :=
  let stop := fun _ : unit => if Nat.leb min cnt then k prev s n else None in
  match s with
  | [] => stop tt
  | c :: s' =>
      if p c then
        if greedy then
          match rep k min greedy p s' (Some c) (S n) (S cnt) with
          | Some r => Some r
          | None => stop tt
          end
        else
          match stop tt with
          | Some r => Some r
          | None => rep k min greedy p s' (Some c) (S n) (S cnt)
          end
      else stop tt
  end.

(** [m_items its prev s n gs ge]: match [its] against [s], where [prev] is
    the character before [s], [n] characters of the match are consumed
    already and the group spans the offsets [gs] to [ge] so far. *)
Fixpoint m_items (its : pattern) (prev : option ascii) (s : list ascii)
         (n gs ge : nat) {struct its} : option found :=
  match its with
  | [] => Some (n, gs, ge)
  | Bol :: its' =>
      match prev with
      | None => m_items its' prev s n gs ge
      | Some c => if Ascii.eqb c newline then m_items its' prev s n gs ge else None
      end
  | Chr p :: its' =>
      match s with
      | c :: s' => if p c then m_items its' (Some c) s' (S n) gs ge else None
      | [] => None
      end
  | Open :: its' => m_items its' prev s n n ge
  | Close :: its' => m_items its' prev s n gs n
  | Rep min greedy p :: its' =>
      rep (fun prev' s' n' => m_items its' prev' s' n' gs ge)
          min greedy p s prev n 0
  end.

(** The text of the group of a match that starts at [s]. *)
Definition group (s : list ascii) (gs ge : nat) : string :=
  string_of_list_ascii (firstn (ge - gs) (skipn gs s)).

(** [re.finditer]: the leftmost match at each position, the scan resuming
    where the match ended ([skip] counts the characters still inside the
    previous match).  The result lists [match.group(1)].  Every pattern of
    the tracer starts with a literal word or has one after [^\s*], so no
    match is empty and the special rule of [re] for empty matches does
    not arise. *)
Fixpoint scan (pat : pattern) (prev : option ascii) (s : list ascii)
         (skip : nat) {struct s} : list string :=
  match s with
  | [] =>
      match skip, m_items pat prev [] 0 0 0 with
      | 0, Some (_, gs, ge) => [group [] gs ge]
      | _, _ => []
      end
  | c :: s' =>
      match skip with
      | S k => scan pat (Some c) s' k
      | 0 =>
          match m_items pat prev s 0 0 0 with
          | Some (len, gs, ge) => group s gs ge :: scan pat (Some c) s' (len - 1)
          | None => scan pat (Some c) s' 0
          end
      end
  end.

Definition finditer (pat : pattern) (content : string) : list string :=
  scan pat None (list_ascii_of_string content) 0.

(** The character before the position reached after reading [w]. *)
Fixpoint last_char (prev : option ascii) (w : list ascii) : option ascii :=
  match w with
  | [] => prev
  | c :: w' => last_char (Some c) w'
  end.

(** A repetition stops in front of [s]: no text left, or a character
    outside the class. *)
Definition stops (p : ascii -> bool) (s : list ascii) : Prop :=
  match s with
  | [] => True
  | c :: _ => p c = false
  end.

(** No position that a repetition of [p] can reach in [s] starts with a
    character of [q]. *)
Fixpoint blocked (p q : ascii -> bool) (s : list ascii) : Prop :=
  match s with
  | [] => True
  | c :: s' => q c = false /\ (p c = true -> blocked p q s')
  end.

(** [k] fails at every position that a repetition of [p] reaches in [s]. *)
Fixpoint hopeless (k : continuation) (p : ascii -> bool) (s : list ascii)
  : Prop :=
  (forall prev n, k prev s n = None)
  /\ match s with
     | [] => True
     | c :: s' => p c = true -> hopeless k p s'
     end.

(** [k] needs a first character, and one of the class [q]. *)
Definition starts_with (q : ascii -> bool) (k : continuation) : Prop :=
  (forall prev n, k prev [] n = None)
  /\ (forall prev c t n, q c = false -> k prev (c :: t) n = None).

End Re.

(* ================================================================== *)
(** ** Shapes of source text, used to state what the patterns capture *)

Module Text.

Definition chars (s : string) : list ascii := list_ascii_of_string s.

(** Every character of [s] is in the class [p]. *)
Definition all (p : ascii -> bool) (s : string) : bool := forallb p (chars s).

(** White space inside a line. *)
Definition blank (c : ascii) : bool := Re.space c && Re.dot c.

(** A module name as the pattern of [import] reads it: [[a-zA-Z_][\w.]*]. *)
Definition module_name (s : string) : bool :=
  match s with
  | EmptyString => false
  | String c s' => Re.alpha_ c && all Re.word_dot s'
  end.

Definition nonempty (s : string) : bool := negb (String.eqb s "").

(** The end of a line. *)
Definition nl : string := String Re.newline "".

(** [s] between double quotation marks. *)
Definition quoted (s : string) : string :=
  String Re.dquote (s ++ String Re.dquote "").

(** An import path of Go as written between the marks: not empty, no
    double quotation mark. *)
Definition go_path (s : string) : bool :=
  nonempty s && all (Re.except Re.dquote) s.

(** Text of an import block around a path: no double quotation mark and
    no closing parenthesis. *)
Definition filler (s : string) : bool :=
  all (fun c => Re.except Re.dquote c && Re.except ")" c) s.

(** A line that imports a module: [indent], the keyword, [sep], the
    name [c0 :: name_tail] and whatever follows the name. *)
Definition import_line (indent sep name_tail rest : list ascii) (c0 : ascii)
  : list ascii :=
  indent ++ chars "import" ++ sep ++ (c0 :: name_tail) ++ rest.

End Text.

(* ================================================================== *)
(** ** Sets of paths *)

(** [s.add(p)] on a set kept in insertion order. *)
Definition add (p : Path) (s : list Path) : list Path :=
  if mem p s then s else s ++ [p].

(** The set a parser builds: every reference that resolves is added. *)
Definition collect (resolve_ref : string -> option Path) (refs : list string)
  : list Path :=
  fold_left
    (fun deps r => match resolve_ref r with
                   | Some resolved => add resolved deps
                   | None => deps
                   end)
    refs [].

(** [for pattern in patterns: for match in re.finditer(pattern, content)]:
    the captured groups, pattern by pattern. *)
Definition all_matches (patterns : list Re.pattern) (content : string)
  : list string :=
  flat_map (fun pat => Re.finditer pat content) patterns.

(* ================================================================== *)
(** ** The patterns, as written in the parsers *)

Module Patterns.
Import Re.

(** Line 97:  ^ \s* import \s+ ( [a-zA-Z_] [\w.]* ) . *)
Definition py_import : pattern :=
  [Bol; Rep 0 true space] ++ lit "import" ++
  [Rep 1 true space; Open; Chr alpha_; Rep 0 true word_dot; Close].

(** Line 98:  ^ \s* from \s+ ( [a-zA-Z_] [\w.]* ) \s+ import . *)
Definition py_from : pattern :=
  [Bol; Rep 0 true space] ++ lit "from" ++
  [Rep 1 true space; Open; Chr alpha_; Rep 0 true word_dot; Close;
   Rep 1 true space] ++ lit "import".

(** Line 99:  ^ \s* from \s+ ( \.+ [\w.]* ) \s+ import . *)
Definition py_from_relative : pattern :=
  [Bol; Rep 0 true space] ++ lit "from" ++
  [Rep 1 true space; Open; Rep 1 true (only "."); Rep 0 true word_dot; Close;
   Rep 1 true space] ++ lit "import".

Definition python : list pattern := [py_import; py_from; py_from_relative].

(** Line 155:  import \s+ .*? \s+ from \s+ Q ( [^Q]+ ) Q , where Q is
    either quotation mark. *)
Definition js_import_from : pattern :=
  lit "import" ++ [Rep 1 true space; Rep 0 false dot; Rep 1 true space] ++
  lit "from" ++
  [Rep 1 true space; Chr quote; Open; Rep 1 true not_quote; Close; Chr quote].

(** Line 156:  require \s* \( Q ( [^Q]+ ) Q \) . *)
Definition js_require : pattern :=
  lit "require" ++
  [Rep 0 true space; Chr (only "("); Chr quote; Open; Rep 1 true not_quote;
   Close; Chr quote; Chr (only ")")].

(** Line 157:  import \s* \( Q ( [^Q]+ ) Q \) . *)
Definition js_dynamic_import : pattern :=
  lit "import" ++
  [Rep 0 true space; Chr (only "("); Chr quote; Open; Rep 1 true not_quote;
   Close; Chr quote; Chr (only ")")].

Definition js : list pattern := [js_import_from; js_require; js_dynamic_import].

(** Line 191:  import \s+ D ( [^D]+ ) D , where D is the double quotation
    mark. *)
Definition go_single : pattern :=
  lit "import" ++
  [Rep 1 true space; Chr (only dquote); Open; Rep 1 true (except dquote); Close;
   Chr (only dquote)].

(** Line 192:  import \s+ \( [^)]* D ( [^D]+ ) D [^)]* \) . *)
Definition go_block : pattern :=
  lit "import" ++
  [Rep 1 true space; Chr (only "("); Rep 0 true (except ")");
   Chr (only dquote); Open; Rep 1 true (except dquote); Close; Chr (only dquote);
   Rep 0 true (except ")"); Chr (only ")")].

Definition go : list pattern := [go_single; go_block].

(** Line 223:  import \s+ ( [\w.]+ ) ; *)
Definition java_import : pattern :=
  lit "import" ++
  [Rep 1 true space; Open; Rep 1 true word_dot; Close; Chr (only ";")].

(** Line 250:  #include \s+ D ( [^D]+ ) D . *)
Definition c_include_quoted : pattern :=
  lit "#include" ++
  [Rep 1 true space; Chr (only dquote); Open; Rep 1 true (except dquote); Close;
   Chr (only dquote)].

(** Line 251:  #include \s+ < ( [^>]+ ) > . *)
Definition c_include_angle : pattern :=
  lit "#include" ++
  [Rep 1 true space; Chr (only "<"); Open; Rep 1 true (except ">"); Close;
   Chr (only ">")].

Definition c : list pattern := [c_include_quoted; c_include_angle].

End Patterns.

(* ================================================================== *)
(** ** Exceptions *)

Inductive exn : Type :=
| FileNotFoundError (msg : string)
| ValueError (msg : string).

(** What a call that may raise produces. *)
Inductive result (A : Type) : Type :=
| Raise (e : exn)
| Return (a : A).
Arguments Raise {A} e.
Arguments Return {A} a.

(* ================================================================== *)
(** ** The class [DependencyTracer]

    The constructor also fills [file_map] by walking the tree; no method
    reads that map afterwards, so an instance is its [repo_root] and the
    file system it looks at. *)

Section DependencyTracer.

Variable fs : FS.
Variable repo_root : Path.     (* [Path(repo_root).resolve()] *)

(** *** Python *)

Definition _resolve_python_module (module : string) (current_file : Path)
  : option Path :=
  let relative :=
    if Str.startswith "." module then
      let parts := Str.split "." module in
      let level := List.length (filter (fun p => String.eqb p "") parts) in
      let module_parts := filter (fun p => negb (String.eqb p "")) parts in
      let parent_ := Nat.iter (level - 1) parent (parent current_file) in
      let target :=
        match module_parts with
        | [] => parent_
        | _ => parent_ // Str.join "/" module_parts
        end in
      if exists_ fs (target // "__init__.py")
      then Some (target // "__init__.py")
      else if exists_ fs (parent target // (name target ++ ".py")%string)
      then Some (parent target // (name target ++ ".py")%string)
      else None
    else None in
  match relative with
  | Some found => Some found
  | None =>
      let module_path := Str.replace "." "/" module in
      let package_init := repo_root // module_path // "__init__.py" in
      if exists_ fs package_init then Some package_init
      else
        let module_file := repo_root // (module_path ++ ".py")%string in
        if exists_ fs module_file then Some module_file else None
  end.

Definition _parse_python_imports (content : string) (file_path : Path)
  : list Path :=
  collect (fun module => _resolve_python_module module file_path)
          (all_matches Patterns.python content).

(** *** JavaScript and TypeScript *)

Definition js_suffixes : list string :=
  [""; ".js"; ".jsx"; ".ts"; ".tsx";
   "/index.js"; "/index.jsx"; "/index.ts"; "/index.tsx"].

Definition _resolve_js_import (import_path : string) (current_file : Path)
  : option Path :=
  if Str.startswith "." import_path then
    let base := parent current_file in
    let target_path := resolve (base // import_path) in
    find (fun check_path =>
            exists_ fs check_path && is_relative_to check_path repo_root)
         (map (fun ext => of_string (to_string target_path ++ ext)%string)
              js_suffixes)
  else None.

Definition _parse_js_imports (content : string) (file_path : Path)
  : list Path :=
  collect (fun import_path => _resolve_js_import import_path file_path)
          (all_matches Patterns.js content).

(** *** Go *)

Definition _resolve_go_import (import_path : string) (current_file : Path)
  : option Path :=
  if Str.startswith "." import_path then
    let base := parent current_file in
    let target_dir := resolve (base // import_path) in
    if is_dir fs target_dir && is_relative_to target_dir repo_root
    then Some target_dir
    else None
  else None.

Definition _parse_go_imports (content : string) (file_path : Path)
  : list Path :=
  collect (fun import_path =>
             if Str.startswith "." import_path
             then _resolve_go_import import_path file_path
             else None)
          (all_matches Patterns.go content).

(** *** Java *)

Definition _resolve_java_import (import_path : string) : option Path :=
  let file_path := (Str.replace "." "/" import_path ++ ".java")%string in
  let full_path := repo_root // file_path in
  if exists_ fs full_path then Some full_path else None.

Definition _parse_java_imports (content : string) (file_path : Path)
  : list Path :=
  collect _resolve_java_import (all_matches [Patterns.java_import] content).

(** *** C and C++ *)

Definition _resolve_c_include (include_path : string) (current_file : Path)
  : option Path :=
  let rel_path := resolve (parent current_file // include_path) in
  if exists_ fs rel_path && is_relative_to rel_path repo_root
  then Some rel_path
  else
    let root_path := repo_root // include_path in
    if exists_ fs root_path then Some root_path else None.

Definition _parse_c_includes (content : string) (file_path : Path)
  : list Path :=
  collect (fun include_path => _resolve_c_include include_path file_path)
          (all_matches Patterns.c content).

(** *** Dispatch on the extension *)

Definition one_of (s : string) (l : list string) : bool :=
  existsb (String.eqb s) l.

Definition _get_direct_dependencies (file_path : Path) : list Path :=
  match read_file fs file_path with
  | None => []
  | Some content =>
      let ext := suffix file_path in
      if String.eqb ext ".py" then _parse_python_imports content file_path
      else if one_of ext [".js"; ".jsx"; ".ts"; ".tsx"]
      then _parse_js_imports content file_path
      else if String.eqb ext ".go" then _parse_go_imports content file_path
      else if one_of ext [".java"] then _parse_java_imports content file_path
      else if one_of ext [".c"; ".cpp"; ".h"; ".hpp"]
      then _parse_c_includes content file_path
      else []
  end.

(** *** The traversal *)

(** The locals of [trace_dependencies].  [to_process] is a Python list
    used as a stack; it is kept with its last element first, so [pop] and
    [append] act on the head.  [expanded] is not a variable of the source:
    it logs, in order, the files [_get_direct_dependencies] was called on. *)
Record state : Type := mkState {
  dependencies : list Path;
  visited : list Path;
  to_process : list Path;
  expanded : list Path
}.

(** The body of [for dep in deps]. *)
Definition visit_dep (focus_path : Path) (st : state) (dep : Path) : state :=
  if negb (mem dep (dependencies st)) && negb (path_eqb dep focus_path) then
    mkState (add dep (dependencies st))
            (visited st)
            (if negb (mem dep (visited st)) then dep :: to_process st
             else to_process st)
            (expanded st)
  else st.

(** One iteration of [while to_process], [current_file] just popped. *)
Definition iteration (focus_path : Path) (st : state)
           (current_file : Path) (rest : list Path) : state :=
  if mem current_file (visited st)
  then mkState (dependencies st) (visited st) rest (expanded st)
  else
    fold_left (visit_dep focus_path)
              (_get_direct_dependencies current_file)
              (mkState (dependencies st)
                       (add current_file (visited st))
                       rest
                       (expanded st ++ [current_file])).

(** The [while] loop; [None] when [fuel] iterations were not enough. *)
Fixpoint while_to_process (fuel : nat) (focus_path : Path) (st : state)
  : option state :=
  match to_process st with
  | [] => Some st
  | current_file :: rest =>
      match fuel with
      | 0 => None
      | S fuel' =>
          while_to_process fuel' focus_path
                           (iteration focus_path st current_file rest)
      end
  end.

Definition focus_path_of (focus_file : string) : Path :=
  resolve (repo_root // focus_file).

Definition initial_state (focus_path : Path) : state :=
  mkState [] [] [focus_path] [].

(** [trace_dependencies], with the final state of the loop. *)
Definition trace (fuel : nat) (focus_file : string)
  : option (result state) :=
  let focus_path := focus_path_of focus_file in
  if negb (exists_ fs focus_path)
  then Some (Raise (FileNotFoundError
                      ("Focus file not found: " ++ focus_file)%string))
  else
    match while_to_process fuel focus_path (initial_state focus_path) with
    | Some st => Some (Return st)
    | None => None
    end.

Definition trace_dependencies (fuel : nat) (focus_file : string)
  : option (result (list Path)) :=
  match trace fuel focus_file with
  | Some (Return st) => Some (Return (dependencies st))
  | Some (Raise e) => Some (Raise e)
  | None => None
  end.

End DependencyTracer.

(* ================================================================== *)
(** ** The command line: [main] *)

(** What a run leaves behind: the lines printed to each stream and the
    exit status. *)
Record output : Type := mkOutput {
  stdout : list string;
  stderr : list string;
  exit_status : nat
}.

(** The order of [Path]: the lists (anchor, components...) compared
    element by element, a proper prefix being smaller. *)
Fixpoint parts_ltb (a b : list string) : bool :=
  match a, b with
  | [], [] => false
  | [], _ :: _ => true
  | _ :: _, [] => false
  | x :: a', y :: b' =>
      match String.compare x y with
      | Lt => true
      | Gt => false
      | Eq => parts_ltb a' b'
      end
  end.

Definition anchor (p : Path) : string := if dslash p then "//" else "/".

Definition path_ltb (p q : Path) : bool :=
  parts_ltb (anchor p :: parts p) (anchor q :: parts q).

Fixpoint insert_sorted (p : Path) (l : list Path) : list Path :=
  match l with
  | [] => [p]
  | q :: l' => if path_ltb q p then q :: insert_sorted p l' else p :: l
  end.

(** [sorted(s)] for a set of paths. *)
Definition sorted (s : list Path) : list Path := fold_right insert_sorted [] s.

(** [str] of a relative path. *)
Definition relative_string (comps : list string) : string :=
  match comps with
  | [] => "."
  | _ => Str.join "/" comps
  end.

Definition str_of_nat (n : nat) : string := NilZero.string_of_uint (Nat.to_uint n).

Definition rule : string := String.concat "" (repeat "-" 60).

(** [for dep in sorted(dependencies)]: the lines printed, and the
    [ValueError] of [relative_to] if a path is not below the root.  The
    text of the message is the one of Python 3.12; earlier versions go
    on with a second clause.  The statements about [main] take the
    message as it comes and do not spell it out. *)
Fixpoint print_dependencies (root : Path) (deps : list Path)
  : list string * option exn :=
  match deps with
  | [] => ([], None)
  | dep :: rest =>
      match relative_to dep root with
      | None =>
          ([], Some (ValueError
                       ("'" ++ to_string dep ++ "' is not in the subpath of '"
                            ++ to_string root ++ "'")%string))
      | Some rel_path =>
          let (lines, e) := print_dependencies root rest in
          (("  " ++ relative_string rel_path)%string :: lines, e)
      end
  end.

Definition message (e : exn) : string :=
  match e with
  | FileNotFoundError msg => msg
  | ValueError msg => msg
  end.

(** [main], run in the directory [cwd] with [argv] as [sys.argv]. *)
Definition main (fs : FS) (cwd : Path) (fuel : nat) (argv : list string)
  : option output :=
  match argv with
  | _ :: repo_root :: focus_file :: _ =>
      let root := resolve (cwd // repo_root) in
      match trace_dependencies fs root fuel focus_file with
      | None => None
      | Some (Raise (FileNotFoundError msg)) =>
          Some (mkOutput [] [("Error: " ++ msg)%string] 1)
      | Some (Raise e) =>
          Some (mkOutput [] [("Unexpected error: " ++ message e)%string] 1)
      | Some (Return deps) =>
          let header :=
            [("Dependencies for " ++ focus_file ++ ":")%string; rule] in
          match deps with
          | [] =>
              Some (mkOutput
                      (header ++ ["  No dependencies found"; rule;
                                  ("Total: " ++ str_of_nat 0 ++ " files")%string])
                      [] 0)
          | _ =>
              match print_dependencies root (sorted deps) with
              | (lines, Some e) =>
                  Some (mkOutput (header ++ lines)
                                 [("Unexpected error: " ++ message e)%string] 1)
              | (lines, None) =>
                  Some (mkOutput
                          (header ++ lines ++
                           [rule;
                            ("Total: " ++ str_of_nat (List.length deps)
                                       ++ " files")%string])
                          [] 0)
              end
          end
      end
  | _ =>
      Some (mkOutput
              ["Usage: python trace_dependencies.py <repo_root> <focus_file>";
               "Example: python trace_dependencies.py /path/to/repo train.py"]
              [] 1)
  end.

(* ================================================================== *)
(** ** Notions used to state the properties of the traversal *)

Section WalkerNotions.

Variable fs : FS.
Variable repo_root : Path.
Variable focus_path : Path.

(** What the loop keeps true of its locals. *)
Record invariant (st : state) : Prop := mkInvariant {
  inv_focus : ~ In focus_path (dependencies st);
  inv_nodup : NoDup (dependencies st);
  inv_once : NoDup (expanded st);
  inv_expanded : incl (expanded st) (visited st)
}.

(** *** Termination inside a finite universe *)

Variable universe : list Path.

(** Every file of the universe, and the focus file, has its direct
    dependencies in the universe. *)
Definition closed : bool :=
  forallb (fun f => forallb (fun dep => mem dep universe)
                            (_get_direct_dependencies fs repo_root f))
          (focus_path :: universe).

(** The files of the universe that are not dependencies yet. *)
Definition remaining (deps : list Path) : nat :=
  List.length (filter (fun u => negb (mem u deps)) universe).

Definition measure (st : state) : nat :=
  List.length (to_process st) + remaining (dependencies st).

Record bounded (st : state) : Prop := mkBounded {
  bnd_deps : incl (dependencies st) universe;
  bnd_todo : incl (to_process st) (focus_path :: universe)
}.

End WalkerNotions.


(* ================================================================== *)
(** ** A file system with finitely many entries *)

Module Finite.

(** The components [".."] of a path. *)
Definition dotdots (comps : list string) : nat :=
  List.length (filter (String.eqb "..") comps).

Definition has_char (a : ascii) (s : string) : bool :=
  existsb (Ascii.eqb a) (list_ascii_of_string s).

(** A string that can be one component of a path. *)
Definition slash_free (s : string) : bool := negb (has_char "/" s).

(** The name of a directory entry. *)
Definition valid_name (s : string) : bool :=
  slash_free s
  && negb (String.eqb s "") && negb (String.eqb s ".") && negb (String.eqb s "..").

Definition well_formed (p : Path) : bool := forallb slash_free (parts p).

(** A root as [resolve] leaves it: entry names only. *)
Definition valid_root (p : Path) : bool :=
  negb (dslash p) && forallb valid_name (parts p).

Definition valid_entries (entries : list (list string * Node)) : bool :=
  forallb (fun e => forallb valid_name (fst e)) entries.

(** The names that occur in the entries. *)
Definition names (entries : list (list string * Node)) : list string :=
  flat_map fst entries.

(** The longest key. *)
Definition depth (entries : list (list string * Node)) : nat :=
  fold_right (fun e m => Nat.max (List.length (fst e)) m) 0 entries.

(** The longest text. *)
Definition longest_text (entries : list (list string * Node)) : nat :=
  fold_right (fun e m =>
                match snd e with
                | File (Some content) => Nat.max (String.length content) m
                | _ => m
                end) 0 entries.

(** What the resolvers return: a path that exists, whose components hold
    no slash, with at most [k] components [".."]. *)
Definition sound (fs : FS) (k : nat) (d : Path) : Prop :=
  exists_ fs d = true /\ well_formed d = true /\ dotdots (parts d) <= k.

(** The lists over [alphabet] of length at most [n]. *)
Fixpoint lists_upto (alphabet : list string) (n : nat) : list (list string) :=
  match n with
  | 0 => [[]]
  | S n' =>
      [] :: flat_map (fun l => map (fun a => a :: l) alphabet)
                     (lists_upto alphabet n')
  end.

(** How many components [".."] a dependency can have: those of the root
    and those an include directive can spell. *)
Definition bound (entries : list (list string * Node)) (root : Path) : nat :=
  dotdots (parts root) + S (longest_text entries).

(** Every well-formed path that can exist in the file system with at
    most [bound entries root] components [".."]. *)
Definition universe_of (entries : list (list string * Node)) (root : Path)
  : list Path :=
  filter (fun p => well_formed p
                   && Nat.leb (dotdots (parts p)) (bound entries root))
         (flat_map (fun l => [mkPath false l; mkPath true l])
                   (lists_upto (".." :: names entries)
                               (depth entries + 2 * bound entries root))).

End Finite.

(* ================================================================== *)
(** ** The depends-on relation *)

Section DependsOn.

Variable fs : FS.
Variable repo_root : Path.

(** [d] is a direct dependency of a file that the chain from [f]
    reaches, or of [f] itself. *)
Inductive reaches (f : Path) : Path -> Prop :=
| reaches_direct (d : Path) :
    In d (_get_direct_dependencies fs repo_root f) -> reaches f d
| reaches_next (g d : Path) :
    reaches f g -> In d (_get_direct_dependencies fs repo_root g) ->
    reaches f d.

(** What the loop knows about the files it has seen, [focus_path] being
    the file it started from. *)
Record explored (focus_path : Path) (st : state) : Prop := mkExplored {
  exp_focus : In focus_path (visited st) \/ In focus_path (to_process st);
  exp_closed :
    forall v d, In v (visited st) ->
                In d (_get_direct_dependencies fs repo_root v) ->
                d = focus_path \/ In d (dependencies st);
  exp_pending :
    forall d, In d (dependencies st) ->
              In d (visited st) \/ In d (to_process st);
  exp_todo :
    forall v, In v (to_process st) ->
              v = focus_path \/ In v (dependencies st);
  exp_sound :
    forall d, In d (dependencies st) ->
              d <> focus_path /\ reaches focus_path d
}.

End DependsOn.

(* ================================================================== *)
(** ** Dotted names and the paths they stand for *)

Module Names.

(** A segment of a dotted name: word characters, at least one. *)
Definition identifier (s : string) : bool :=
  Text.nonempty s && Text.all Re.word s.

(** The segments of a dotted name: at least one, all identifiers. *)
Definition identifiers (l : list string) : bool :=
  match l with
  | [] => false
  | _ => forallb identifier l
  end.

(** [k] times the character [c]. *)
Fixpoint times (k : nat) (c : ascii) : string :=
  match k with
  | 0 => EmptyString
  | S k' => String c (times k' c)
  end.

(** The path with the components [comps] below [p]. *)
Definition below (p : Path) (comps : list string) : Path :=
  mkPath (dslash p) (parts p ++ comps).

(** [comps] with [ext] added to the last component. *)
Definition with_extension (comps : list string) (ext : string) : list string :=
  removelast comps ++ [(last comps "" ++ ext)%string].

End Names.

(** The first of the [candidates] that exists. *)
Definition first_existing (fs : FS) (candidates : list Path) : option Path :=
  find (exists_ fs) candidates.

(** The name of a header as written in an include directive: not empty,
    none of the two closing delimiters, no number sign. *)
Definition header_name (s : string) : bool :=
  Text.nonempty s
  && Text.all (fun c => Re.except Re.dquote c && Re.except ">" c
                        && Re.except "#" c) s.

(** What a parser makes of one reference. *)
Definition resolved (r : option Path) : list Path :=
  match r with
  | Some d => [d]
  | None => []
  end.

(** A repository with a Python package that shadows a module of the same
    name, a Java class and a C header. *)
Module Layout.

Definition at_ (comps : list string) : Path := mkPath false comps.
Definition empty_file : Node := File (Some ""%string).

Definition root : Path := at_ ["repo"].

Definition fs : FS := mkfs [
  (["repo"], Dir);
  (["repo"; "app"], Dir);
  (["repo"; "app"; "main.py"], empty_file);
  (["repo"; "app"; "rel.py"], File (Some "from .stray import x"%string));
  (["repo"; "app"; "core"], Dir);
  (["repo"; "app"; "core"; "__init__.py"], empty_file);
  (["repo"; "app"; "core.py"], empty_file);
  (["repo"; "lib"], Dir);
  (["repo"; "lib"; "tools.py"], empty_file);
  (["repo"; "com"], Dir);
  (["repo"; "com"; "acme"], Dir);
  (["repo"; "com"; "acme"; "Util.java"], empty_file);
  (["repo"; "include"], Dir);
  (["repo"; "include"; "util.h"], empty_file);
  (["repo"; "src"], Dir);
  (["repo"; "src"; "main.c"], empty_file);
  (["stray.py"], empty_file)
].

End Layout.

(* ================================================================== *)
(** ** What the listing of [main] looks like *)

(** The line printed for a dependency below [root]. *)
Definition listing_line (root dep : Path) : string :=
  ("  " ++ relative_string (skipn (List.length (parts root)) (parts dep)))%string.

(** Each path is smaller than the next one. *)
Fixpoint ascending (l : list Path) : bool :=
  match l with
  | [] => true
  | a :: t =>
      match t with
      | [] => true
      | b :: _ => path_ltb a b && ascending t
      end
  end.

(* ================================================================== *)
(** ** [str] methods of the other scripts, on ASCII text *)

Module Pystr.

(** [s.lower()]. *)
Definition lower_char (c : ascii) : ascii :=
  if Re.between 65 90 c then ascii_of_nat (nat_of_ascii c + 32) else c.

Fixpoint lower (s : string) : string :=
  match s with
  | EmptyString => EmptyString
  | String c s' => String (lower_char c) (lower s')
  end.

(** [x in s]. *)
Fixpoint contains (x s : string) : bool :=
  String.prefix x s
  || match s with
     | EmptyString => false
     | String _ s' => contains x s'
     end.

(** [s.endswith(x)]. *)
Fixpoint endswith (x s : string) : bool :=
  String.eqb x s
  || match s with
     | EmptyString => false
     | String _ s' => endswith x s'
     end.

(** [s.lstrip()]: white space is what [isspace] says. *)
Fixpoint lstrip (s : string) : string :=
  match s with
  | EmptyString => EmptyString
  | String c s' => if Re.space c then lstrip s' else s
  end.

(** [s.rstrip()]. *)
Fixpoint rstrip (s : string) : string :=
  match s with
  | EmptyString => EmptyString
  | String c s' =>
      match rstrip s' with
      | EmptyString => if Re.space c then EmptyString else String c EmptyString
      | String d t => String c (String d t)
      end
  end.

(** [s.strip()]. *)
Definition strip (s : string) : string := rstrip (lstrip s).

End Pystr.

(* ================================================================== *)
(** ** [analyze_git_changes.py]: the groups of changed files *)

Module GitChanges.
Import Pystr.

(** An entry of the list of changed files. *)
Record file_info : Type := mkFileInfo {
  status : string;
  path : string
}.

(** The dictionary [categories], its keys in the order of the source. *)
Record categories : Type := mkCategories {
  features : list file_info;
  tests : list file_info;
  docs : list file_info;
  config : list file_info;
  other : list file_info
}.

(** The conditions of the chain of [if] and [elif], on the path in lower
    case. *)
Definition is_test (f : file_info) : bool :=
  let path := lower (path f) in
  contains "test" path || endswith ".test.py" path || endswith ".spec.js" path.

Definition is_doc (f : file_info) : bool :=
  let path := lower (path f) in
  endswith ".md" path || contains "doc" path || Str.startswith "docs/" path.

Definition is_config (f : file_info) : bool :=
  let path := lower (path f) in
  existsb (fun x => contains x path)
          ["config"; "setup"; ".json"; ".yaml"; ".toml"; "requirements";
           "package.json"].

Definition added_or_modified (f : file_info) : bool :=
  existsb (String.eqb (status f)) ["A"; "M"].

(** One turn of the loop. *)
Definition categorize (cats : categories) (f : file_info) : categories :=
  if is_test f then
    mkCategories (features cats) (tests cats ++ [f]) (docs cats) (config cats)
                 (other cats)
  else if is_doc f then
    mkCategories (features cats) (tests cats) (docs cats ++ [f]) (config cats)
                 (other cats)
  else if is_config f then
    mkCategories (features cats) (tests cats) (docs cats) (config cats ++ [f])
                 (other cats)
  else if added_or_modified f then
    mkCategories (features cats ++ [f]) (tests cats) (docs cats) (config cats)
                 (other cats)
  else
    mkCategories (features cats) (tests cats) (docs cats) (config cats)
                 (other cats ++ [f]).

Definition categorize_changes (files : list file_info) : categories :=
  fold_left categorize files (mkCategories [] [] [] [] []).

(** [s.split(sep, 1)]: cut at the first [sep] only. *)
Fixpoint split_once (sep : ascii) (s : string) : list string :=
  match s with
  | EmptyString => [EmptyString]
  | String c s' =>
      if Ascii.eqb c sep then [EmptyString; s']
      else match split_once sep s' with
           | [] => [String c EmptyString]
           | h :: t => String c h :: t
           end
  end.

Definition tab : ascii := "009".

(** [run_git_command]: [git] stands for the standard output of a run
    of git that succeeds, [None] for one that fails. *)
Definition run_git_command (git : list string -> option string)
           (repo_path : string) (args : list string) : option string :=
  match git ("git" :: "-C" :: repo_path :: args) with
  | Some stdout => Some (strip stdout)
  | None => None
  end.

(** The entry a line of the listing stands for, if it stands for one. *)
Definition changed_file (line : string) : list file_info :=
  if Text.nonempty (strip line) then
    match split_once tab line with
    | [status; filepath] => [mkFileInfo status filepath]
    | _ => []
    end
  else [].

Definition get_changed_files (git : list string -> option string)
           (repo_path : string) (old_commit : option string)
           (new_commit : string) : list file_info :=
  match old_commit with
  | None => []
  | Some EmptyString => []
  | Some old =>
      match run_git_command git repo_path
              ["diff"; "--name-status"; (old ++ ".." ++ new_commit)%string] with
      | None => []
      | Some EmptyString => []
      | Some output => flat_map changed_file (Str.split Re.newline output)
      end
  end.

(** An entry as git lists it: a status without white space, a path
    without a line break that does not end in white space. *)
Definition listed (f : file_info) : bool :=
  Text.nonempty (status f)
  && Text.all (fun c => negb (Re.space c)) (status f)
  && Text.nonempty (path f)
  && Text.all Re.dot (path f)
  && negb (Re.space (last (Text.chars (path f)) " "%char)).

(** The listing of [git diff --name-status] for [files]. *)
Definition name_status (files : list file_info) : string :=
  String.concat ""
    (map (fun f => (status f ++ String tab (path f) ++ Text.nl)%string) files).

End GitChanges.

(* ================================================================== *)
(** ** [analyze_code.py]: counts, nesting and repeated blocks *)

Module CodeAnalyzer.
Import Pystr.

(** [d.get(k, default)] for a dictionary written as a list. *)
Definition get {A : Type} (d : list (string * A)) (k : string) (default : A) : A :=
  match find (fun kv => String.eqb (fst kv) k) d with
  | Some kv => snd kv
  | None => default
  end.

(** Start of line, white space, number sign. *)
Definition hash_comment : Re.pattern :=
  [Re.Bol; Re.Rep 0 true Re.space; Re.Chr (Re.only "#")].

(** Start of line, white space, two slashes. *)
Definition slash_comment : Re.pattern :=
  Re.Bol :: Re.Rep 0 true Re.space :: Re.lit "//".

(** The comment pattern of each language, as the list of its
    alternatives. *)
Definition comment_patterns : list (string * list Re.pattern) := [
  ("python", [hash_comment]); ("javascript", [slash_comment]);
  ("typescript", [slash_comment]); ("java", [slash_comment]);
  ("cpp", [slash_comment]); ("c", [slash_comment]);
  ("csharp", [slash_comment]); ("go", [slash_comment]);
  ("ruby", [hash_comment]); ("php", [slash_comment]);
  ("rust", [slash_comment])
].

(** Whether [re.match] finds one of the alternatives at the start of
    [line]. *)
Definition re_match (alternatives : list Re.pattern) (line : string) : bool :=
  existsb (fun pat =>
             match Re.m_items pat None (Text.chars line) 0 0 0 with
             | Some _ => true
             | None => false
             end)
          alternatives.

(** [sum(1 for line in lines if test(line))]. *)
Definition count (test : string -> bool) (lines : list string) : Z :=
  Z.of_nat (List.length (filter test lines)).

Record loc : Type := mkLoc {
  total : Z;
  code : Z;
  blank : Z;
  comments : Z
}.

Definition is_blank (line : string) : bool := String.eqb (strip line) "".

Definition count_loc (language : string) (lines : list string) : loc :=
  let total := Z.of_nat (List.length lines) in
  let blank := count is_blank lines in
  let pattern := get comment_patterns language [hash_comment; slash_comment] in
  let comments := count (re_match pattern) lines in
  let code := (total - blank - comments)%Z in
  mkLoc total code blank comments.

(** *** Nesting *)

Record nesting : Type := mkNesting {
  max_depth : nat;
  deep_nesting_lines : list nat
}.

Definition indent_chars : list (string * nat) :=
  [("python", 4); ("javascript", 2); ("typescript", 2)].

(** [len(line) - len(line.lstrip())]. *)
Definition indent_of (line : string) : nat :=
  String.length line - String.length (lstrip line).

(** One turn of the loop over the numbered lines: the state is
    [max_depth] and [deep_lines]. *)
Definition nest (indent_size : nat) (st : nat * list nat) (numbered : nat * string)
  : nat * list nat :=
  let (i, line) := numbered in
  let (max_depth, deep_lines) := st in
  if Text.nonempty (strip line) then
    let depth := indent_of line / indent_size in
    (if Nat.ltb max_depth depth then depth else max_depth,
     if Nat.leb 4 depth then deep_lines ++ [i] else deep_lines)
  else st.

(** [enumerate(lines, 1)]. *)
Definition enumerate (lines : list string) : list (nat * string) :=
  combine (seq 1 (List.length lines)) lines.

Definition analyze_nesting (language : string) (lines : list string) : nesting :=
  let indent_size := get indent_chars language 4 in
  let (max_depth, deep_lines) :=
    fold_left (nest indent_size) (enumerate lines) (0, []) in
  mkNesting max_depth (firstn 10 deep_lines).

(** *** Repeated blocks *)

Record duplicate : Type := mkDuplicate {
  lines : nat;
  occurrences : nat;
  positions : list nat;
  sample : string
}.

(** The lines that are compared: stripped, neither blank nor a comment. *)
Definition normalized (file_lines : list string) : list string :=
  filter (fun stripped =>
            Text.nonempty stripped
            && negb (Str.startswith "#" stripped || Str.startswith "//" stripped))
         (map strip file_lines).

Definition block_eqb (a b : list string) : bool :=
  if list_eq_dec string_dec a b then true else false.

(** [seen_blocks[block].append(i)] on a dictionary kept in the order
    in which its keys were inserted. *)
Fixpoint record_block (block : list string) (i : nat)
         (seen : list (list string * list nat)) : list (list string * list nat) :=
  match seen with
  | [] => [(block, [i])]
  | (b, ps) :: rest =>
      if block_eqb b block then (b, ps ++ [i]) :: rest
      else (b, ps) :: record_block block i rest
  end.

(** [normalized[i:i + min_lines]]. *)
Definition window (l : list string) (min_lines i : nat) : list string :=
  firstn min_lines (skipn i l).

Definition seen_blocks (l : list string) (min_lines : nat)
  : list (list string * list nat) :=
  fold_left (fun seen i => record_block (window l min_lines i) i seen)
            (seq 0 (List.length l - min_lines)) [].

(** [sorted(duplicates, key, reverse=True)]: equal keys keep their order. *)
Fixpoint insert_by (key : duplicate -> nat) (d : duplicate) (l : list duplicate)
  : list duplicate :=
  match l with
  | [] => [d]
  | e :: l' =>
      if Nat.ltb (key d) (key e) then e :: insert_by key d l' else d :: l
  end.

Definition sorted_reverse (key : duplicate -> nat) (l : list duplicate)
  : list duplicate :=
  fold_right (insert_by key) [] l.

Definition find_duplicate_blocks (file_lines : list string) (min_lines : nat)
  : list duplicate :=
  let duplicates :=
    flat_map (fun entry : list string * list nat =>
                let (block, positions) := entry in
                if Nat.ltb 1 (List.length positions)
                then [mkDuplicate min_lines (List.length positions) positions
                                  (Str.join Text.nl (firstn 3 block))]
                else [])
             (seen_blocks (normalized file_lines) min_lines) in
  sorted_reverse (fun x => occurrences x * lines x) duplicates.

(** Each position is smaller than the next. *)
Fixpoint increasing (l : list nat) : bool :=
  match l with
  | [] => true
  | a :: t =>
      match t with
      | [] => true
      | b :: _ => Nat.ltb a b && increasing t
      end
  end.

(** A line that [normalized] keeps as it is. *)
Definition kept_line (x : string) : bool :=
  String.eqb (strip x) x && Text.nonempty x
  && negb (Str.startswith "#" x || Str.startswith "//" x).

(** What the dictionary of blocks holds once the windows that start
    before [k] are recorded. *)
Record recorded (l : list string) (min_lines k : nat)
       (seen : list (list string * list nat)) : Prop := mkRecorded {
  rec_keys : NoDup (map fst seen);
  rec_sound : forall b ps,
      In (b, ps) seen ->
      ps <> [] /\ increasing ps = true
      /\ forall p, In p ps -> p < k /\ window l min_lines p = b;
  rec_complete : forall p,
      p < k -> exists ps, In (window l min_lines p, ps) seen /\ In p ps
}.

End CodeAnalyzer.

(* ================================================================== *)
(** ** Repositories used as examples *)

Module Examples.

Definition P (comps : list string) : Path := mkPath false comps.
Definition nl : string := Text.nl.

Definition text (lines : list string) : Node :=
  File (Some (String.concat nl lines)).

Definition repo : Path := P ["repo"].

(** [a.py] and [b.py] import each other; [b.py] also imports [c.py]. *)
Definition cycle_entries : list (list string * Node) := [
  (["repo"], Dir);
  (["repo"; "a.py"], text ["import b"; ""]);
  (["repo"; "b.py"], text ["import a"; "import c"; ""]);
  (["repo"; "c.py"], text [""])
].

Definition fs_cycle : FS := mkfs cycle_entries.

Definition universe_cycle : list Path :=
  [P ["repo"; "a.py"]; P ["repo"; "b.py"]; P ["repo"; "c.py"]].

(** A header outside the repository, included through [..]. *)
Definition fs_escape : FS := mkfs [
  (["repo"], Dir);
  (["repo"; "a.c"], text [("#include " ++ Text.quoted "../secret.h")%string; ""]);
  (["secret.h"], text ["int secret;"; ""])
].

(** A package with a relative import of a sibling module. *)
Definition fs_sibling : FS := mkfs [
  (["repo"], Dir);
  (["repo"; "pkg"], Dir);
  (["repo"; "pkg"; "a.py"], text ["from . import sibling"; ""]);
  (["repo"; "pkg"; "sibling.py"], text ["x = 1"; ""])
].

(** [util.ts] next to a directory [util] that has an [index.js]. *)
Definition fs_util : FS := mkfs [
  (["repo"], Dir);
  (["repo"; "a.js"], text ["import x from './util';"; ""]);
  (["repo"; "util.ts"], text [""]);
  (["repo"; "util"], Dir);
  (["repo"; "util"; "index.js"], text [""])
].

(** A Go program: [main.go] imports the package directory [pkg], whose
    file imports the directory [other]; [lib] lies outside the root. *)
Definition fs_go : FS := mkfs [
  (["repo"], Dir);
  (["repo"; "main.go"],
     text [("import " ++ Text.quoted "./pkg")%string;
           ("import " ++ Text.quoted "fmt")%string; ""]);
  (["repo"; "pkg"], Dir);
  (["repo"; "pkg"; "x.go"], text [("import " ++ Text.quoted "../other")%string; ""]);
  (["repo"; "other"], Dir);
  (["repo"; "other"; "y.go"], text [""]);
  (["lib"], Dir)
].

(** [main.py] imports a module that cannot be read. *)
Definition fs_unreadable : FS := mkfs [
  (["repo"], Dir);
  (["repo"; "main.py"], text ["import locked"; "import ok"; ""]);
  (["repo"; "locked.py"], File None);
  (["repo"; "ok.py"], text [""])
].

(** Several modules imported on one line. *)
Definition fs_commas : FS := mkfs [
  (["repo"], Dir);
  (["repo"; "main.py"], text ["import a, b, c"; ""]);
  (["repo"; "a.py"], text [""]);
  (["repo"; "b.py"], text [""]);
  (["repo"; "c.py"], text [""])
].

(** Two headers that include each other; [b.h] names [a.h] by a path
    from the root that goes through [..]. *)
Definition fs_alias : FS := mkfs [
  (["repo"], Dir);
  (["repo"; "s"], Dir);
  (["repo"; "s"; "a.h"], text [("#include " ++ Text.quoted "b.h")%string; ""]);
  (["repo"; "s"; "b.h"],
     text [("#include " ++ Text.quoted "s/../s/a.h")%string; ""])
].

(** A Go file with an import block that lists [paths], one a line. *)
Definition block_of (paths : list string) : list string :=
  ["package main"; ""; "import ("]
    ++ map (fun p => ("    " ++ Text.quoted p)%string) paths
    ++ [")"; ""].

(** [main.go] imports two local packages in one block, [tool.go] a local
    package followed by a module path. *)
Definition fs_block : FS := mkfs [
  (["repo"], Dir);
  (["repo"; "main.go"], text (block_of ["./a"; "./b"]));
  (["repo"; "tool.go"], text (block_of ["./a"; "fmt"]));
  (["repo"; "a"], Dir);
  (["repo"; "a"; "a.go"], text ["package a"; ""]);
  (["repo"; "b"], Dir);
  (["repo"; "b"; "b.go"], text ["package b"; ""])
].

End Examples.

(* ================================================================== *)
(** ** Basic facts about paths and sets *)

Lemma parts_eqb_eq (a b : list string) : parts_eqb a b = true <-> a = b.
Proof.
  unfold parts_eqb. destruct (list_eq_dec string_dec a b); split; congruence.
Qed.

Lemma path_eqb_eq (p q : Path) : path_eqb p q = true <-> p = q.
Proof.
  unfold path_eqb. destruct p as [d1 l1], q as [d2 l2]; simpl.
  rewrite andb_true_iff, eqb_true_iff, parts_eqb_eq.
  split; [intros [-> ->]; reflexivity | intros H; inversion H; auto].
Qed.

Lemma path_eqb_refl (p : Path) : path_eqb p p = true.
Proof. apply path_eqb_eq. reflexivity. Qed.

Lemma path_eqb_neq (p q : Path) : path_eqb p q = false <-> p <> q.
Proof.
  split.
  - intros H E. apply path_eqb_eq in E. congruence.
  - intros H. destruct (path_eqb p q) eqn:E; [|reflexivity].
    apply path_eqb_eq in E. contradiction.
Qed.

Lemma mem_In (p : Path) (l : list Path) : mem p l = true <-> In p l.
Proof.
  unfold mem. rewrite existsb_exists. split.
  - intros [x [Hx E]]. apply path_eqb_eq in E. subst. exact Hx.
  - intros H. exists p. split; [exact H | apply path_eqb_refl].
Qed.

Lemma mem_not_In (p : Path) (l : list Path) : mem p l = false <-> ~ In p l.
Proof.
  rewrite <- mem_In. destruct (mem p l); split; congruence.
Qed.

Lemma In_add (p q : Path) (s : list Path) : In q (add p s) <-> q = p \/ In q s.
Proof.
  unfold add. destruct (mem p s) eqn:E.
  - apply mem_In in E. split; [auto | intros [-> | H]; auto].
  - rewrite in_app_iff. simpl. split; [intros [H | [H | []]] | intros [H | H]]; auto.
Qed.

Lemma NoDup_add (p : Path) (s : list Path) : NoDup s -> NoDup (add p s).
Proof.
  intros H. unfold add. destruct (mem p s) eqn:E; [exact H |].
  apply mem_not_In in E.
  apply NoDup_rev in H. rewrite <- (rev_involutive (s ++ [p])).
  apply NoDup_rev. rewrite rev_app_distr. simpl. constructor; [| exact H].
  rewrite <- in_rev. exact E.
Qed.

(* ================================================================== *)
(** ** The loop of [trace_dependencies]: what every iteration keeps *)

Section Walker.

Variable fs : FS.
Variable repo_root : Path.
Variable focus_path : Path.

Abbreviation visit := (visit_dep focus_path).
Abbreviation iterate := (iteration fs repo_root focus_path).
Abbreviation loop := (fun fuel => while_to_process fs repo_root fuel focus_path).

Lemma visit_dep_visited (st : state) (dep : Path) :
  visited (visit st dep) = visited st.
Proof. unfold visit_dep. destruct (_ && _); reflexivity. Qed.

Lemma visit_dep_expanded (st : state) (dep : Path) :
  expanded (visit st dep) = expanded st.
Proof. unfold visit_dep. destruct (_ && _); reflexivity. Qed.

Lemma visit_dep_invariant (st : state) (dep : Path) :
  invariant focus_path st -> invariant focus_path (visit st dep).
Proof.
  intros [Hf Hn Ho He]. unfold visit_dep.
  destruct (negb (mem dep (dependencies st)) && negb (path_eqb dep focus_path))
    eqn:E; [| constructor; assumption].
  apply andb_true_iff in E. destruct E as [_ E].
  apply negb_true_iff, path_eqb_neq in E.
  constructor; simpl; auto.
  - rewrite In_add. intros [H | H]; [congruence | contradiction].
  - apply NoDup_add. exact Hn.
Qed.

Lemma fold_visit_visited (deps : list Path) (st : state) :
  visited (fold_left visit deps st) = visited st.
Proof.
  revert st. induction deps as [| d deps IH]; intros st; simpl; [reflexivity |].
  rewrite IH. apply visit_dep_visited.
Qed.

Lemma fold_visit_expanded (deps : list Path) (st : state) :
  expanded (fold_left visit deps st) = expanded st.
Proof.
  revert st. induction deps as [| d deps IH]; intros st; simpl; [reflexivity |].
  rewrite IH. apply visit_dep_expanded.
Qed.

Lemma fold_visit_invariant (deps : list Path) (st : state) :
  invariant focus_path st -> invariant focus_path (fold_left visit deps st).
Proof.
  revert st. induction deps as [| d deps IH]; intros st H; simpl; [exact H |].
  apply IH, visit_dep_invariant, H.
Qed.

Lemma iteration_visited (st : state) (current_file : Path) (rest : list Path) :
  incl (visited st) (visited (iterate st current_file rest)).
Proof.
  unfold iteration. destruct (mem current_file (visited st)); simpl.
  - apply incl_refl.
  - rewrite fold_visit_visited. simpl. intros x Hx. apply In_add. auto.
Qed.

Lemma iteration_invariant (st : state) (current_file : Path) (rest : list Path) :
  invariant focus_path st -> invariant focus_path (iterate st current_file rest).
Proof.
  intros H. unfold iteration. destruct (mem current_file (visited st)) eqn:E.
  - destruct H. constructor; assumption.
  - apply fold_visit_invariant. destruct H as [Hf Hn Ho He].
    apply mem_not_In in E.
    constructor; simpl; auto.
    + apply NoDup_rev in Ho. rewrite <- (rev_involutive (_ ++ _)).
      apply NoDup_rev. rewrite rev_app_distr. simpl. constructor; [| exact Ho].
      rewrite <- in_rev. intros Hin. apply E, He, Hin.
    + intros x Hx. apply In_add. apply in_app_iff in Hx.
      destruct Hx as [Hx | [Hx | []]]; auto.
Qed.

Lemma loop_invariant (fuel : nat) (st st' : state) :
  invariant focus_path st -> loop fuel st = Some st' ->
  invariant focus_path st' /\ incl (visited st) (visited st') /\ to_process st' = [].
Proof.
  revert st. induction fuel as [| fuel IH]; intros st H; simpl.
  - destruct (to_process st) eqn:E; [| discriminate].
    intros [= <-]. auto using incl_refl.
  - destruct (to_process st) as [| current_file rest] eqn:E.
    + intros [= <-]. auto using incl_refl.
    + intros Hl. apply IH in Hl; [| apply iteration_invariant, H].
      destruct Hl as [Hi [Hv Hp]]. split; [exact Hi | split; [| exact Hp]].
      eapply incl_tran; [apply iteration_visited | exact Hv].
Qed.

Lemma initial_invariant : invariant focus_path (initial_state focus_path).
Proof.
  constructor; simpl; try apply NoDup_nil; [intros [] | intros x []].
Qed.

(** More fuel does not change what the loop returns. *)
Lemma loop_more_fuel (fuel fuel' : nat) (st st' : state) :
  fuel <= fuel' -> loop fuel st = Some st' -> loop fuel' st = Some st'.
Proof.
  revert fuel' st. induction fuel as [| fuel IH]; intros fuel' st Hle; simpl.
  - destruct (to_process st) eqn:E; [| discriminate].
    intros [= <-]. destruct fuel'; simpl; rewrite E; reflexivity.
  - destruct fuel' as [| fuel']; [lia |]. simpl.
    destruct (to_process st); [auto |]. apply IH. lia.
Qed.

End Walker.

(* ================================================================== *)
(** ** Termination of the loop inside a finite universe *)

Section Termination.

Variable fs : FS.
Variable repo_root : Path.
Variable focus_path : Path.
Variable universe : list Path.

Abbreviation visit' := (visit_dep focus_path).
Abbreviation left := (remaining universe).
Abbreviation size := (measure universe).
Abbreviation inside := (bounded focus_path universe).

Lemma mem_add (u d : Path) (deps : list Path) :
  mem u (add d deps) = path_eqb u d || mem u deps.
Proof.
  destruct (mem u (add d deps)) eqn:E.
  - apply mem_In, In_add in E. symmetry. apply orb_true_iff.
    destruct E as [-> | E]; [left; apply path_eqb_refl | right; apply mem_In, E].
  - symmetry. apply orb_false_iff. apply mem_not_In in E.
    rewrite In_add in E. split.
    + apply path_eqb_neq. intros ->. apply E. auto.
    + apply mem_not_In. intros H. apply E. auto.
Qed.

Lemma remaining_add_le (d : Path) (deps : list Path) :
  left (add d deps) <= left deps.
Proof.
  unfold remaining. induction universe as [| u U IH]; simpl; [lia |].
  rewrite mem_add. destruct (path_eqb u d), (mem u deps); simpl; lia.
Qed.

Lemma remaining_add_lt (d : Path) (deps : list Path) :
  In d universe -> ~ In d deps -> left (add d deps) < left deps.
Proof.
  intros Hu Hd. apply mem_not_In in Hd.
  pose proof (remaining_add_le d deps) as Hle. revert Hle.
  unfold remaining. induction universe as [| u U IH]; simpl; [destruct Hu |].
  rewrite mem_add. destruct Hu as [-> | Hu].
  - rewrite path_eqb_refl, Hd. simpl. intros _.
    clear IH. induction U as [| v V IHV]; simpl; [lia |].
    rewrite mem_add. destruct (path_eqb v d), (mem v deps); simpl; lia.
  - intros _.
    assert (Hle : List.length (filter (fun v => negb (mem v (add d deps))) U)
                  <= List.length (filter (fun v => negb (mem v deps)) U)).
    { clear. induction U as [| v V IHV]; simpl; [lia |].
      rewrite mem_add. destruct (path_eqb v d), (mem v deps); simpl; lia. }
    specialize (IH Hu Hle).
    destruct (path_eqb u d), (mem u deps); simpl; lia.
Qed.

Hypothesis universe_closed : closed fs repo_root focus_path universe = true.

Lemma visit_dep_measure (st : state) (dep : Path) :
  In dep universe -> inside st ->
  size (visit' st dep) <= size st /\ inside (visit' st dep).
Proof.
  intros Hu [Hd Ht]. unfold visit_dep.
  destruct (negb (mem dep (dependencies st)) && negb (path_eqb dep focus_path))
    eqn:E; [| split; [lia | constructor; assumption]].
  apply andb_true_iff in E. destruct E as [E _].
  apply negb_true_iff, mem_not_In in E.
  pose proof (remaining_add_lt dep (dependencies st) Hu E) as Hlt.
  unfold measure. simpl. split.
  - destruct (negb (mem dep (visited st))); simpl; lia.
  - constructor; simpl.
    + intros x Hx. apply In_add in Hx. destruct Hx as [-> | Hx]; auto.
    + destruct (negb (mem dep (visited st))); [| exact Ht].
      intros x [<- | Hx]; [right; exact Hu | apply Ht, Hx].
Qed.

Lemma fold_visit_measure (deps : list Path) (st : state) :
  (forall dep, In dep deps -> In dep universe) -> inside st ->
  size (fold_left visit' deps st) <= size st /\
  inside (fold_left visit' deps st).
Proof.
  revert st. induction deps as [| d deps IH]; intros st Hu Hb; simpl.
  - split; [lia | exact Hb].
  - destruct (visit_dep_measure st d) as [Hm Hb']; [apply Hu; left; reflexivity | exact Hb |].
    destruct (IH (visit' st d)) as [Hm' Hb'']; [intros x Hx; apply Hu; right; exact Hx | exact Hb' |].
    split; [lia | exact Hb''].
Qed.

Lemma closed_dependencies (f dep : Path) :
  In f (focus_path :: universe) ->
  In dep (_get_direct_dependencies fs repo_root f) -> In dep universe.
Proof.
  intros Hf Hd. unfold closed in universe_closed.
  rewrite forallb_forall in universe_closed.
  specialize (universe_closed f Hf). rewrite forallb_forall in universe_closed.
  apply mem_In, universe_closed, Hd.
Qed.

Lemma iteration_measure (st : state) (current_file : Path) (rest : list Path) :
  to_process st = current_file :: rest -> inside st ->
  size (iteration fs repo_root focus_path st current_file rest) < size st /\
  inside (iteration fs repo_root focus_path st current_file rest).
Proof.
  intros E [Hd Ht]. rewrite E in Ht.
  assert (Hrest : incl rest (focus_path :: universe)).
  { intros x Hx. apply Ht. right. exact Hx. }
  unfold iteration. destruct (mem current_file (visited st)).
  - unfold measure. rewrite E. simpl. split; [lia | constructor; assumption].
  - match goal with |- context [fold_left _ ?deps ?st0] =>
      destruct (fold_visit_measure deps st0) as [Hm Hb] end.
    + intros dep Hdep. apply (closed_dependencies current_file); [| exact Hdep].
      apply Ht. left. reflexivity.
    + constructor; assumption.
    + split; [| exact Hb].
      unfold measure in *. rewrite E. simpl in *. lia.
Qed.

Lemma loop_terminates (fuel : nat) (st : state) :
  inside st -> size st <= fuel ->
  exists st', while_to_process fs repo_root fuel focus_path st = Some st'.
Proof.
  revert st. induction fuel as [| fuel IH]; intros st Hb Hm; simpl.
  - destruct (to_process st) eqn:E; [eauto |].
    unfold measure in Hm. rewrite E in Hm. simpl in Hm. lia.
  - destruct (to_process st) as [| current_file rest] eqn:E; [eauto |].
    destruct (iteration_measure st current_file rest E Hb) as [Hlt Hb'].
    apply IH; [exact Hb' | lia].
Qed.

Lemma initial_bounded : inside (initial_state focus_path).
Proof.
  constructor; simpl.
  - intros x [].
  - intros x [<- | []]. left. reflexivity.
Qed.

Lemma initial_measure : size (initial_state focus_path) <= S (List.length universe).
Proof.
  unfold measure, remaining. simpl.
  match goal with
  | |- context [List.length (filter ?f universe)] =>
      pose proof (filter_length_le f universe)
  end.
  lia.
Qed.

End Termination.

(* ================================================================== *)
(** ** Properties of the traversal *)

Lemma trace_Return (fs : FS) (root : Path) (fuel : nat) (focus_file : string)
      (st : state) :
  trace fs root fuel focus_file = Some (Return st) ->
  exists_ fs (focus_path_of root focus_file) = true /\
  while_to_process fs root fuel (focus_path_of root focus_file)
                   (initial_state (focus_path_of root focus_file)) = Some st.
Proof.
  unfold trace. destruct (exists_ fs (focus_path_of root focus_file)); simpl.
  - destruct (while_to_process _ _ _ _ _); [| discriminate].
    intros [= ->]. auto.
  - discriminate.
Qed.

Lemma trace_dependencies_Return (fs : FS) (root : Path) (fuel : nat)
      (focus_file : string) (deps : list Path) :
  trace_dependencies fs root fuel focus_file = Some (Return deps) ->
  exists st, trace fs root fuel focus_file = Some (Return st) /\
             deps = dependencies st.
Proof.
  unfold trace_dependencies.
  destruct (trace fs root fuel focus_file) as [[e | st] |]; try discriminate.
  intros [= <-]. eauto.
Qed.

(** What the comparison of the loop achieves: the set that
    [trace_dependencies] returns does not hold the resolved focus path,
    the value each dependency is compared with, however many files
    refer back to it.  Another spelling of the same file is another
    value, and the comparison lets it pass. *)
Theorem trace_dependencies_excludes_focus
        (fs : FS) (root : Path) (fuel : nat) (focus_file : string)
        (deps : list Path) :
  trace_dependencies fs root fuel focus_file = Some (Return deps) ->
  ~ In (focus_path_of root focus_file) deps.
Proof.
  intros H. apply trace_dependencies_Return in H. destruct H as [st [H ->]].
  apply trace_Return in H. destruct H as [_ H].
  apply loop_invariant in H; [| apply initial_invariant].
  destruct H as [[Hf _ _ _] _]. exact Hf.
Qed.

Lemma trace_dependencies_excludes_focus_cycle :
  trace_dependencies Examples.fs_cycle Examples.repo 4 "a.py"
  = Some (Return [Examples.P ["repo"; "b.py"]; Examples.P ["repo"; "c.py"]])
  /\ ~ In (focus_path_of Examples.repo "a.py")
          [Examples.P ["repo"; "b.py"]; Examples.P ["repo"; "c.py"]].
Proof.
  split; [vm_compute; reflexivity |].
  apply (trace_dependencies_excludes_focus Examples.fs_cycle Examples.repo 4 "a.py").
  vm_compute. reflexivity.
Defined.

(** C5: the result can hold the focus file itself.  The headers [s/a.h]
    and [s/b.h] include each other, and [b.h] names [a.h] by the path
    [s/../s/a.h] from the root.  The probe next to [b.h] finds nothing,
    and the probe at the root returns the path as it is written.  As a
    value it differs from the resolved focus path, so the loop adds it,
    although it names the focus file: it resolves to the focus path and
    the same file is found there.  [main] lists it as a dependency. *)
Theorem focus_file_reported_under_alias :
  focus_path_of Examples.repo "s/a.h" = Examples.P ["repo"; "s"; "a.h"]
  /\ _resolve_c_include Examples.fs_alias Examples.repo "s/../s/a.h"
                        (Examples.P ["repo"; "s"; "b.h"])
     = Some (Examples.P ["repo"; "s"; ".."; "s"; "a.h"])
  /\ trace_dependencies Examples.fs_alias Examples.repo 4 "s/a.h"
     = Some (Return [Examples.P ["repo"; "s"; "b.h"];
                     Examples.P ["repo"; "s"; ".."; "s"; "a.h"]])
  /\ resolve (Examples.P ["repo"; "s"; ".."; "s"; "a.h"])
     = focus_path_of Examples.repo "s/a.h"
  /\ stat Examples.fs_alias (Examples.P ["repo"; "s"; ".."; "s"; "a.h"])
     = stat Examples.fs_alias (focus_path_of Examples.repo "s/a.h")
  /\ main Examples.fs_alias (Examples.P []) 4
          ["trace_dependencies.py"; "/repo"; "s/a.h"]
     = Some (mkOutput ["Dependencies for s/a.h:"; rule; "  s/../s/a.h";
                       "  s/b.h"; rule; "Total: 2 files"]
                      [] 0).
Proof.
  split; [vm_compute; reflexivity |].
  split; [vm_compute; reflexivity |].
  split; [vm_compute; reflexivity |].
  split; [vm_compute; reflexivity |].
  split; vm_compute; reflexivity.
Qed.

(** C6: when the focus path does not exist, [trace_dependencies] raises
    [FileNotFoundError]; [main] then writes one error line to the error
    stream, exits with status 1 and prints nothing to standard output. *)
Theorem missing_focus_file_fails
        (fs : FS) (cwd : Path) (fuel : nat)
        (prog repo_root focus_file : string) (more : list string) :
  exists_ fs (focus_path_of (resolve (cwd // repo_root)) focus_file) = false ->
  trace_dependencies fs (resolve (cwd // repo_root)) fuel focus_file
  = Some (Raise (FileNotFoundError
                   ("Focus file not found: " ++ focus_file)%string))
  /\ main fs cwd fuel (prog :: repo_root :: focus_file :: more)
     = Some (mkOutput []
                      [("Error: Focus file not found: " ++ focus_file)%string]
                      1).
Proof.
  intros H.
  assert (T : trace_dependencies fs (resolve (cwd // repo_root)) fuel focus_file
              = Some (Raise (FileNotFoundError
                               ("Focus file not found: " ++ focus_file)%string))).
  { unfold trace_dependencies, trace. rewrite H. reflexivity. }
  split; [exact T |].
  unfold main. rewrite T. reflexivity.
Qed.

Lemma missing_focus_file_fails_cycle :
  exists_ Examples.fs_cycle
          (focus_path_of (resolve (Examples.P [] // "/repo")) "missing.py") = false
  /\ main Examples.fs_cycle (Examples.P []) 4
          ["trace_dependencies.py"; "/repo"; "missing.py"]
     = Some (mkOutput [] ["Error: Focus file not found: missing.py"] 1).
Proof.
  split; [vm_compute; reflexivity |].
  apply (missing_focus_file_fails Examples.fs_cycle (Examples.P []) 4
           "trace_dependencies.py" "/repo" "missing.py" []).
  vm_compute. reflexivity.
Defined.

Lemma iteration_leaf (fs : FS) (root focus_path : Path) (st : state)
      (f : Path) (rest : list Path) :
  _get_direct_dependencies fs root f = [] ->
  mem f (visited st) = false ->
  iteration fs root focus_path st f rest
  = mkState (dependencies st) (add f (visited st)) rest (expanded st ++ [f]).
Proof.
  intros Hd Hv. unfold iteration. rewrite Hv, Hd. reflexivity.
Qed.

(** C7: a file that cannot be opened or read contributes no direct
    dependency; the iteration that expands it only marks it visited and
    goes on with the rest of the work list; and the only exception the
    traversal surfaces is the missing focus file. *)
Theorem unreadable_file_is_absorbed (fs : FS) (root : Path) (f : Path) :
  read_file fs f = None ->
  _get_direct_dependencies fs root f = []
  /\ (forall focus_path st rest,
         mem f (visited st) = false ->
         iteration fs root focus_path st f rest
         = mkState (dependencies st) (add f (visited st)) rest
                   (expanded st ++ [f]))
  /\ (forall fuel focus_file e,
         trace_dependencies fs root fuel focus_file = Some (Raise e) ->
         exists_ fs (focus_path_of root focus_file) = false).
Proof.
  intros H.
  assert (D : _get_direct_dependencies fs root f = []).
  { unfold _get_direct_dependencies. rewrite H. reflexivity. }
  split; [exact D | split].
  - intros focus_path st rest Hv. apply iteration_leaf; assumption.
  - intros fuel focus_file e. unfold trace_dependencies, trace.
    destruct (exists_ fs (focus_path_of root focus_file)); simpl; [| reflexivity].
    destruct (while_to_process _ _ _ _ _); discriminate.
Qed.

Lemma unreadable_file_is_absorbed_locked :
  read_file Examples.fs_unreadable (Examples.P ["repo"; "locked.py"]) = None
  /\ _get_direct_dependencies Examples.fs_unreadable Examples.repo
       (Examples.P ["repo"; "locked.py"]) = []
  /\ trace_dependencies Examples.fs_unreadable Examples.repo 4 "main.py"
     = Some (Return [Examples.P ["repo"; "locked.py"];
                     Examples.P ["repo"; "ok.py"]]).
Proof.
  split; [vm_compute; reflexivity | split].
  - apply (unreadable_file_is_absorbed Examples.fs_unreadable Examples.repo
             (Examples.P ["repo"; "locked.py"])).
    vm_compute. reflexivity.
  - vm_compute. reflexivity.
Defined.

Lemma trace_more_fuel (fs : FS) (root : Path) (fuel fuel' : nat)
      (focus_file : string) (r : result state) :
  fuel <= fuel' ->
  trace fs root fuel focus_file = Some r ->
  trace fs root fuel' focus_file = Some r.
Proof.
  intros Hle. unfold trace.
  destruct (exists_ fs (focus_path_of root focus_file)); simpl; [| auto].
  destruct (while_to_process fs root fuel _ _) as [st |] eqn:E; [| discriminate].
  intros [= <-]. rewrite (loop_more_fuel fs root _ fuel fuel' _ st Hle E).
  reflexivity.
Qed.

(** Inside a finite universe (a list that holds the direct dependencies
    of the focus file and of each of its own members) one iteration per
    member and one more are enough. *)
Lemma terminates_in_universe
        (fs : FS) (root : Path) (focus_file : string) (universe : list Path) :
  closed fs root (focus_path_of root focus_file) universe = true ->
  (exists r,
      trace fs root (S (List.length universe)) focus_file = Some r
      /\ (forall fuel, S (List.length universe) <= fuel ->
                       trace fs root fuel focus_file = Some r)
      /\ (forall st, r = Return st ->
                     to_process st = []
                     /\ NoDup (expanded st)
                     /\ NoDup (dependencies st)
                     /\ incl (dependencies st) universe))
  /\ (forall st current_file rest,
         incl (visited st)
              (visited (iteration fs root (focus_path_of root focus_file)
                                  st current_file rest))).
Proof.
  intros Hc. set (focus_path := focus_path_of root focus_file) in *.
  split; [| intros; apply iteration_visited].
  destruct (exists_ fs focus_path) eqn:Hex.
  - destruct (loop_terminates fs root focus_path universe Hc
                (S (List.length universe)) (initial_state focus_path))
      as [st Hst].
    { apply initial_bounded. }
    { apply initial_measure. }
    assert (Ht : trace fs root (S (List.length universe)) focus_file
                 = Some (Return st)).
    { unfold trace. fold focus_path. rewrite Hex. cbn [negb]. rewrite Hst. reflexivity. }
    exists (Return st). split; [exact Ht | split].
    + intros fuel Hle. eapply trace_more_fuel; eassumption.
    + intros st0 [= <-].
      destruct (loop_invariant fs root focus_path _ _ _
                  (initial_invariant focus_path) Hst) as [[_ Hn Ho _] [_ Hp]].
      repeat (split; [assumption |]).
      clear Ht Hp Hn Ho. revert Hst.
      generalize (initial_bounded focus_path universe).
      generalize (initial_state focus_path).
      generalize (S (List.length universe)).
      intros fuel. induction fuel as [| fuel IH]; intros s Hb; simpl.
      * destruct (to_process s); [| discriminate]. intros [= <-]. apply Hb.
      * destruct (to_process s) as [| c rest] eqn:E.
        -- intros [= <-]. apply Hb.
        -- apply IH.
           apply (iteration_measure fs root focus_path universe Hc s c rest E Hb).
  - exists (Raise (FileNotFoundError ("Focus file not found: " ++ focus_file)%string)).
    assert (Ht : forall fuel, trace fs root fuel focus_file
                 = Some (Raise (FileNotFoundError
                                  ("Focus file not found: " ++ focus_file)%string))).
    { intros fuel. unfold trace. fold focus_path. rewrite Hex. reflexivity. }
    split; [apply Ht | split; [intros; apply Ht | discriminate]].
Qed.

Lemma go_import_is_dir (fs : FS) (root : Path) (import_path : string)
      (current_file d : Path) :
  _resolve_go_import fs root import_path current_file = Some d ->
  is_dir fs d = true.
Proof.
  unfold _resolve_go_import.
  destruct (Str.startswith "." import_path); [| discriminate].
  destruct (is_dir fs _ && is_relative_to _ root) eqn:E; [| discriminate].
  intros [= <-]. apply andb_true_iff in E. apply E.
Qed.

Lemma read_file_dir (fs : FS) (d : Path) : is_dir fs d = true -> read_file fs d = None.
Proof.
  unfold is_dir, read_file. destruct (stat fs d) as [[c |] |]; try discriminate.
  reflexivity.
Qed.

(** C9: a dependency that is a directory, as the Go resolver returns, is
    a leaf of the traversal: opening it fails, so it has no direct
    dependency, and the iteration that expands it adds nothing to the
    dependencies or to the work list; the files inside it are not read
    on its account. *)
Theorem directory_dependency_is_leaf (fs : FS) (root : Path) :
  (forall import_path current_file d,
      _resolve_go_import fs root import_path current_file = Some d ->
      is_dir fs d = true)
  /\ (forall d,
         is_dir fs d = true ->
         read_file fs d = None
         /\ _get_direct_dependencies fs root d = []
         /\ forall focus_path st rest,
             mem d (visited st) = false ->
             iteration fs root focus_path st d rest
             = mkState (dependencies st) (add d (visited st)) rest
                       (expanded st ++ [d])).
Proof.
  split.
  - intros import_path current_file d. apply go_import_is_dir.
  - intros d Hd. pose proof (read_file_dir fs d Hd) as Hr.
    assert (D : _get_direct_dependencies fs root d = []).
    { unfold _get_direct_dependencies. rewrite Hr. reflexivity. }
    split; [exact Hr | split; [exact D |]].
    intros focus_path st rest Hv. apply iteration_leaf; assumption.
Qed.

Lemma directory_dependency_is_leaf_go :
  _resolve_go_import Examples.fs_go Examples.repo "./pkg"
                     (Examples.P ["repo"; "main.go"])
  = Some (Examples.P ["repo"; "pkg"])
  /\ is_dir Examples.fs_go (Examples.P ["repo"; "pkg"]) = true
  /\ _get_direct_dependencies Examples.fs_go Examples.repo
                              (Examples.P ["repo"; "pkg"]) = []
  /\ trace Examples.fs_go Examples.repo 4 "main.go"
     = Some (Return (mkState [Examples.P ["repo"; "pkg"]]
                             [Examples.P ["repo"; "main.go"];
                              Examples.P ["repo"; "pkg"]]
                             []
                             [Examples.P ["repo"; "main.go"];
                              Examples.P ["repo"; "pkg"]])).
Proof.
  destruct (directory_dependency_is_leaf Examples.fs_go Examples.repo)
    as [H1 H2].
  assert (R : _resolve_go_import Examples.fs_go Examples.repo "./pkg"
                (Examples.P ["repo"; "main.go"])
              = Some (Examples.P ["repo"; "pkg"])) by (vm_compute; reflexivity).
  pose proof (H1 _ _ _ R) as Hd.
  destruct (H2 _ Hd) as [_ [D _]].
  split; [exact R | split; [exact Hd | split; [exact D |]]].
  vm_compute. reflexivity.
Defined.

(* ================================================================== *)
(** ** The resolvers *)

(** The probe of [_resolve_c_include] below the repository root returns
    whatever exists there; nothing compares the result with the root. *)
Lemma c_include_root_probe (fs : FS) (root : Path) (include_path : string)
      (current_file : Path) :
  exists_ fs (resolve (parent current_file // include_path))
  && is_relative_to (resolve (parent current_file // include_path)) root = false ->
  exists_ fs (root // include_path) = true ->
  _resolve_c_include fs root include_path current_file
  = Some (root // include_path).
Proof.
  intros H1 H2. unfold _resolve_c_include. rewrite H1, H2. reflexivity.
Qed.

(** C1: evaluation of the C resolver on an include that leaves the
    repository.  [a.c], at the root of the repository, includes
    [../secret.h], a file that exists next to the repository.  The probe
    relative to the including file rejects it; the probe relative to the
    root returns [/repo/../secret.h], which names [/secret.h], and the
    traversal reports it. *)
Theorem c_include_leaves_repository :
  let a_c := Examples.P ["repo"; "a.c"] in
  let found := Examples.P ["repo"; ".."; "secret.h"] in
  all_matches Patterns.c ("#include " ++ Text.quoted "../secret.h")%string
  = ["../secret.h"]
  /\ is_relative_to (resolve (parent a_c // "../secret.h")) Examples.repo = false
  /\ _resolve_c_include Examples.fs_escape Examples.repo "../secret.h" a_c
     = Some found
  /\ resolve found = Examples.P ["secret.h"]
  /\ is_relative_to (resolve found) Examples.repo = false
  /\ trace_dependencies Examples.fs_escape Examples.repo 4 "a.c"
     = Some (Return [found])
  /\ main Examples.fs_escape (Examples.P []) 4
          ["trace_dependencies.py"; "/repo"; "a.c"]
     = Some (mkOutput ["Dependencies for a.c:"; rule; "  ../secret.h"; rule;
                       "Total: 1 files"] [] 0).
Proof. vm_compute. repeat split. Qed.

(** What [_resolve_python_module] does with the reference [.]: the split
    at the dots yields two empty strings, so the level is 2 and the
    target is the parent of the directory of the referencing file. *)
Lemma python_single_dot (fs : FS) (root current_file : Path) :
  _resolve_python_module fs root "." current_file
  = let target := parent (parent current_file) in
    if exists_ fs (target // "__init__.py")
    then Some (target // "__init__.py")
    else if exists_ fs (parent target // (name target ++ ".py")%string)
    then Some (parent target // (name target ++ ".py")%string)
    else if exists_ fs (Examples.P ["__init__.py"])
    then Some (Examples.P ["__init__.py"])
    else if exists_ fs (Examples.P [".py"])
    then Some (Examples.P [".py"])
    else None.
Proof.
  unfold _resolve_python_module. cbn -[exists_ parent name joinpath append].
  destruct (exists_ fs (parent (parent current_file) // "__init__.py"));
    [reflexivity |].
  destruct (exists_ fs _); reflexivity.
Qed.

(** C2: evaluation of the Python parser on [from . import sibling].
    The pattern captures the dots only, the name [sibling] is not part
    of the reference; the resolver then looks one directory above the
    package.  With [sibling.py] present next to the importing file the
    reference resolves to nothing. *)
Theorem python_from_dot_import_sibling :
  let a_py := Examples.P ["repo"; "pkg"; "a.py"] in
  all_matches Patterns.python "from . import sibling" = ["."]
  /\ exists_ Examples.fs_sibling (Examples.P ["repo"; "pkg"; "sibling.py"]) = true
  /\ _resolve_python_module Examples.fs_sibling Examples.repo "." a_py = None
  /\ _get_direct_dependencies Examples.fs_sibling Examples.repo a_py = []
  /\ trace_dependencies Examples.fs_sibling Examples.repo 4 "pkg/a.py"
     = Some (Return []).
Proof. vm_compute. repeat split. Qed.

(** C4: evaluation of the JS resolver on [./util] with [util.ts] and
    [util/index.js] both present.  The first candidate, the target with
    no suffix, is the directory [util]; it exists, so it is returned and
    [util.ts] is not reached. *)
Theorem js_import_prefers_directory :
  let a_js := Examples.P ["repo"; "a.js"] in
  all_matches Patterns.js "import x from './util';" = ["./util"]
  /\ exists_ Examples.fs_util (Examples.P ["repo"; "util.ts"]) = true
  /\ exists_ Examples.fs_util (Examples.P ["repo"; "util"; "index.js"]) = true
  /\ is_dir Examples.fs_util (Examples.P ["repo"; "util"]) = true
  /\ _resolve_js_import Examples.fs_util Examples.repo "./util" a_js
     = Some (Examples.P ["repo"; "util"])
  /\ trace_dependencies Examples.fs_util Examples.repo 4 "a.js"
     = Some (Return [Examples.P ["repo"; "util"]]).
Proof. vm_compute. repeat split. Qed.

(* ================================================================== *)
(** ** How the matcher runs through a repetition *)

Section Repetition.
Import Re.

Variable k : continuation.
Variable min : nat.
Variable p : ascii -> bool.

(** A greedy repetition that can take the whole run, and after which the
    rest matches, takes it. *)
Lemma rep_run (run s : list ascii) (prev : option ascii) (n cnt : nat)
      (r : found) :
  forallb p run = true -> stops p s -> min <= cnt + List.length run ->
  k (last_char prev run) s (n + List.length run) = Some r ->
  rep k min true p (run ++ s) prev n cnt = Some r.
Proof.
  revert prev n cnt. induction run as [| c run IH]; intros prev n cnt Hp Hs Hm Hk.
  - simpl in *. rewrite Nat.add_0_r in *.
    apply Nat.leb_le in Hm.
    destruct s as [| c s]; simpl; [rewrite Hm; exact Hk |].
    simpl in Hs. rewrite Hs, Hm. exact Hk.
  - simpl in Hp. apply andb_true_iff in Hp. destruct Hp as [Hc Hp].
    simpl. rewrite Hc. rewrite (IH (Some c) (S n) (S cnt)); auto.
    + simpl in Hm. lia.
    + simpl in Hk. rewrite <- Nat.add_succ_comm in Hk. exact Hk.
Qed.

(** A repetition followed by something that needs a character of [q]
    fails where no reachable position offers one. *)
Lemma rep_blocked (q : ascii -> bool) (greedy : bool) (s : list ascii)
      (prev : option ascii) (n cnt : nat) :
  starts_with q k -> blocked p q s ->
  rep k min greedy p s prev n cnt = None.
Proof.
  intros [K0 K1]. revert prev n cnt.
  induction s as [| c s IH]; intros prev n cnt Hb; simpl.
  - destruct (Nat.leb min cnt); auto.
  - destruct Hb as [Hq Hb].
    assert (Hstop : (if Nat.leb min cnt then k prev (c :: s) n else None) = None).
    { destruct (Nat.leb min cnt); auto. }
    rewrite Hstop. destruct (p c); [| reflexivity].
    rewrite IH by auto. destruct greedy; reflexivity.
Qed.

(** A greedy repetition gives back the end of its run when nothing
    matches from there, and stops where the rest matches. *)
Lemma rep_retreat (taken back : list ascii) (prev : option ascii)
      (n cnt : nat) (r : found) :
  forallb p taken = true -> min <= cnt + List.length taken ->
  match back with
  | [] => True
  | c :: t =>
      p c = false \/
      rep k min true p t (Some c) (S (n + List.length taken))
          (S (cnt + List.length taken)) = None
  end ->
  k (last_char prev taken) back (n + List.length taken) = Some r ->
  rep k min true p (taken ++ back) prev n cnt = Some r.
Proof.
  revert prev n cnt.
  induction taken as [| c taken IH]; intros prev n cnt Hp Hm Hb Hk.
  - simpl in *. rewrite !Nat.add_0_r in *. apply Nat.leb_le in Hm.
    destruct back as [| c t]; simpl; [rewrite Hm; exact Hk |].
    destruct Hb as [Hb | Hb].
    + rewrite Hb, Hm. exact Hk.
    + destruct (p c); [rewrite Hb |]; rewrite Hm; exact Hk.
  - simpl in Hp. apply andb_true_iff in Hp. destruct Hp as [Hc Hp].
    simpl. rewrite Hc. rewrite (IH (Some c) (S n) (S cnt)); auto.
    + simpl in Hm. lia.
    + simpl in Hb. rewrite <- !Nat.add_succ_comm in Hb. exact Hb.
    + simpl in Hk. rewrite <- Nat.add_succ_comm in Hk. exact Hk.
Qed.

End Repetition.

Section Scanning.
Import Re.

Lemma scan_bol_none (K : pattern) (s : list ascii) (c : ascii) (skip : nat) :
  dot c = true -> forallb dot s = true -> scan (Bol :: K) (Some c) s skip = [].
Proof.
  revert c skip. induction s as [| x s IH]; intros c skip Hc Hs.
  - unfold dot in Hc. apply negb_true_iff in Hc.
    destruct skip; simpl; [rewrite Hc |]; reflexivity.
  - simpl in Hs. apply andb_true_iff in Hs. destruct Hs as [Hx Hs].
    destruct skip as [| skip]; simpl.
    + unfold dot in Hc. apply negb_true_iff in Hc. rewrite Hc. apply IH; assumption.
    + apply IH; assumption.
Qed.

Lemma scan_skip (pat : pattern) (s : list ascii) (prev : option ascii) :
  (forall pv, m_items pat pv [] 0 0 0 = None) ->
  scan pat prev s (List.length s) = [].
Proof.
  intros H. revert prev. induction s as [| c s IH]; intros prev; simpl.
  - rewrite H. reflexivity.
  - apply IH.
Qed.

End Scanning.

Lemma chars_app (a b : string) :
  Text.chars (a ++ b) = Text.chars a ++ Text.chars b.
Proof.
  unfold Text.chars. induction a as [| c a IH]; simpl; [reflexivity |].
  rewrite IH. reflexivity.
Qed.

Lemma forallb_impl {A : Type} (p q : A -> bool) (l : list A) :
  (forall x, p x = true -> q x = true) -> forallb p l = true -> forallb q l = true.
Proof.
  intros H. induction l as [| x l IH]; simpl; [reflexivity |].
  rewrite !andb_true_iff. intros [Hx Hl]. auto.
Qed.

Ltac by_cases c :=
  destruct c as [[] [] [] [] [] [] [] []]; try reflexivity; try discriminate.

Lemma alpha_not_space (c : ascii) : Re.alpha_ c = true -> Re.space c = false.
Proof. by_cases c. Qed.

Lemma alpha_dot (c : ascii) : Re.alpha_ c = true -> Re.dot c = true.
Proof. by_cases c. Qed.

Lemma word_dot_dot (c : ascii) : Re.word_dot c = true -> Re.dot c = true.
Proof. by_cases c. Qed.

Lemma blank_space (c : ascii) : Text.blank c = true -> Re.space c = true.
Proof. unfold Text.blank. intros H. apply andb_true_iff in H. apply H. Qed.

Lemma blank_dot (c : ascii) : Text.blank c = true -> Re.dot c = true.
Proof. unfold Text.blank. intros H. apply andb_true_iff in H. apply H. Qed.

Lemma space_not_letter (l c : ascii) :
  Re.space l = false -> Re.space c = true -> Re.only l c = false.
Proof.
  intros Hl Hc. unfold Re.only. destruct (Ascii.eqb c l) eqn:E; [| reflexivity].
  apply Ascii.eqb_eq in E. congruence.
Qed.

(** Literal characters of a pattern, compared by computation. *)
Ltac literal :=
  repeat match goal with
         | |- context [Re.only ?a ?b] =>
             let v := eval vm_compute in (Re.only a b) in
             change (Re.only a b) with v
         end;
  cbv iota.

Ltac same_found := apply f_equal; apply f_equal2; [apply f_equal2 |]; lia.

Section PythonImportLine.
Import Re.

Variables indent sep name_tail rest : list ascii.
Variable c0 : ascii.
Hypothesis indent_blank : forallb Text.blank indent = true.
Hypothesis sep_blank : forallb Text.blank sep = true.
Hypothesis sep_nonempty : sep <> [].
Hypothesis c0_alpha : alpha_ c0 = true.
Hypothesis tail_word : forallb word_dot name_tail = true.
Hypothesis rest_stops : stops word_dot rest.
Hypothesis rest_line : forallb dot rest = true.

Abbreviation this_line := (Text.import_line indent sep name_tail rest c0).

Lemma sep_length : 1 <= List.length sep.
Proof. destruct sep; [contradiction | simpl; lia]. Qed.

Lemma py_import_at_start :
  m_items Patterns.py_import None this_line 0 0 0
  = Some (List.length indent + 6 + List.length sep + S (List.length name_tail),
          List.length indent + 6 + List.length sep,
          List.length indent + 6 + List.length sep + S (List.length name_tail)).
Proof.
  unfold Text.import_line, Patterns.py_import. cbn [lit app m_items].
  apply rep_run.
  - eapply forallb_impl; [apply blank_space | exact indent_blank].
  - reflexivity.
  - lia.
  - cbn [Text.chars list_ascii_of_string app m_items]. literal.
    apply rep_run.
    + eapply forallb_impl; [apply blank_space | exact sep_blank].
    + simpl. apply alpha_not_space, c0_alpha.
    + pose proof sep_length. lia.
    + rewrite c0_alpha. apply rep_run.
      * exact tail_word.
      * exact rest_stops.
      * lia.
      * same_found.
Qed.

(** The two patterns that start with [from] fail on the line. *)
Lemma from_blocked : blocked space (only "f") this_line.
Proof.
  unfold Text.import_line. induction indent as [| c l IH]; simpl.
  - split; [reflexivity | discriminate].
  - simpl in indent_blank. apply andb_true_iff in indent_blank.
    destruct indent_blank as [Hc Hl]. split.
    + apply space_not_letter; [reflexivity | apply blank_space, Hc].
    + intros _. apply IH. exact Hl.
Qed.

Lemma line_dot : forallb dot this_line = true.
Proof.
  unfold Text.import_line. rewrite !forallb_app. simpl.
  rewrite (forallb_impl _ _ _ blank_dot indent_blank).
  rewrite (forallb_impl _ _ _ blank_dot sep_blank).
  rewrite (alpha_dot _ c0_alpha).
  rewrite (forallb_impl _ _ _ word_dot_dot tail_word).
  rewrite rest_line. reflexivity.
Qed.

End PythonImportLine.

Lemma scan_hit (pat : Re.pattern) (prev : option ascii) (c : ascii)
      (s : list ascii) (len gs ge : nat) :
  Re.m_items pat prev (c :: s) 0 0 0 = Some (len, gs, ge) ->
  Re.scan pat prev (c :: s) 0
  = Re.group (c :: s) gs ge :: Re.scan pat (Some c) s (len - 1).
Proof. intros H. simpl. rewrite H. reflexivity. Qed.

Lemma scan_miss (pat : Re.pattern) (prev : option ascii) (c : ascii)
      (s : list ascii) :
  Re.m_items pat prev (c :: s) 0 0 0 = None ->
  Re.scan pat prev (c :: s) 0 = Re.scan pat (Some c) s 0.
Proof. intros H. simpl. rewrite H. reflexivity. Qed.

Lemma skipn_length_app {A : Type} (a b : list A) (n : nat) :
  skipn (List.length a + n) (a ++ b) = skipn n b.
Proof. induction a as [| x a IH]; simpl; auto. Qed.

Lemma firstn_length_app {A : Type} (a b : list A) :
  firstn (List.length a) (a ++ b) = a.
Proof. induction a as [| x a IH]; simpl; [reflexivity | rewrite IH; reflexivity]. Qed.

Lemma group_span (before inside after : list ascii) (gs ge : nat) :
  gs = List.length before -> ge = gs + List.length inside ->
  Re.group (before ++ inside ++ after) gs ge = string_of_list_ascii inside.
Proof.
  intros -> ->. unfold Re.group.
  pose proof (skipn_length_app before (inside ++ after) 0) as H.
  rewrite Nat.add_0_r in H. simpl in H. rewrite H.
  replace (List.length before + List.length inside - List.length before)
    with (List.length inside) by lia.
  rewrite firstn_length_app. reflexivity.
Qed.

Section PythonImportScan.
Import Re.

Variables indent sep name_tail rest : list ascii.
Variable c0 : ascii.
Hypothesis indent_blank : forallb Text.blank indent = true.
Hypothesis sep_blank : forallb Text.blank sep = true.
Hypothesis sep_nonempty : sep <> [].
Hypothesis c0_alpha : alpha_ c0 = true.
Hypothesis tail_word : forallb word_dot name_tail = true.
Hypothesis rest_stops : stops word_dot rest.
Hypothesis rest_line : forallb dot rest = true.

Abbreviation line := (Text.import_line indent sep name_tail rest c0).

Lemma line_cons : exists c l, line = c :: l /\ dot c = true /\ forallb dot l = true.
Proof.
  pose proof (line_dot indent sep name_tail rest c0 indent_blank sep_blank
                c0_alpha tail_word rest_line) as H.
  destruct line as [| c l] eqn:E.
  - unfold Text.import_line in E. destruct indent; discriminate.
  - simpl in H. apply andb_true_iff in H. exists c, l. tauto.
Qed.

Lemma scan_py_import :
  scan Patterns.py_import None line 0 = [string_of_list_ascii (c0 :: name_tail)].
Proof.
  pose proof (py_import_at_start indent sep name_tail rest c0 indent_blank
                sep_blank sep_nonempty c0_alpha tail_word rest_stops) as Hm.
  destruct line_cons as [c [l [E [Hc Hl]]]].
  fold line in Hm. rewrite E in *. rewrite (scan_hit _ _ _ _ _ _ _ Hm).
  f_equal.
  - rewrite <- E. unfold Text.import_line.
    rewrite (app_assoc indent), (app_assoc (indent ++ _)).
    apply group_span.
    + rewrite !length_app. simpl. lia.
    + simpl. lia.
  - unfold Patterns.py_import. cbn [app]. apply scan_bol_none; assumption.
Qed.

Lemma scan_from (K : pattern) :
  scan (Bol :: Rep 0 true space :: Chr (only "f") :: K) None line 0 = [].
Proof.
  destruct line_cons as [c [l [E [Hc Hl]]]].
  assert (Hm : m_items (Bol :: Rep 0 true space :: Chr (only "f") :: K)
                       None line 0 0 0 = None).
  { cbn [m_items]. apply rep_blocked with (q := only "f").
    - split; intros; cbn [m_items]; [reflexivity |].
      match goal with H : only _ _ = false |- _ => rewrite H end. reflexivity.
    - apply from_blocked. exact indent_blank. }
  rewrite E in *. rewrite (scan_miss _ _ _ _ Hm).
  apply scan_bol_none; assumption.
Qed.

Lemma all_matches_line :
  flat_map (fun pat => scan pat None line 0) Patterns.python
  = [string_of_list_ascii (c0 :: name_tail)].
Proof.
  unfold Patterns.python. cbn [flat_map].
  rewrite scan_py_import.
  unfold Patterns.py_from, Patterns.py_from_relative. cbn [app lit].
  rewrite !scan_from. reflexivity.
Qed.

End PythonImportScan.

Lemma nonempty_chars (s : string) : Text.nonempty s = true -> Text.chars s <> [].
Proof. destruct s; [discriminate | intros _; discriminate]. Qed.

Lemma all_matches_import_line (indent sep a rest : string) :
  Text.all Text.blank indent = true ->
  Text.all Text.blank sep = true ->
  Text.nonempty sep = true ->
  Text.module_name a = true ->
  Text.all Re.dot rest = true ->
  all_matches Patterns.python (indent ++ "import" ++ sep ++ a ++ "," ++ rest)
  = [a].
Proof.
  intros Hi Hs Hn Ha Hr. destruct a as [| c0 a']; [discriminate |].
  simpl in Ha. apply andb_true_iff in Ha. destruct Ha as [Hc Ht].
  assert (E : Text.chars (indent ++ "import" ++ sep ++ String c0 a' ++ "," ++ rest)
              = Text.import_line (Text.chars indent) (Text.chars sep) (Text.chars a')
                            (","%char :: Text.chars rest) c0).
  { rewrite !chars_app. reflexivity. }
  unfold all_matches, Re.finditer. unfold Text.chars in E at 1. rewrite E.
  rewrite all_matches_line; auto using nonempty_chars.
  - unfold Text.chars. simpl. rewrite string_of_list_ascii_of_string. reflexivity.
  - reflexivity.
Qed.

(* ================================================================== *)
(** ** What the Python patterns read on a line that imports a list *)

Lemma collect_one (resolve_ref : string -> option Path) (r : string) :
  collect resolve_ref [r]
  = match resolve_ref r with Some resolved => [resolved] | None => [] end.
Proof. unfold collect. simpl. destruct (resolve_ref r); reflexivity. Qed.

(* ================================================================== *)
(** ** What the Go patterns read on the two forms of import *)

Lemma rep_hopeless (k : Re.continuation) (min : nat) (greedy : bool)
      (p : ascii -> bool) (s : list ascii) (prev : option ascii) (n cnt : nat) :
  Re.hopeless k p s -> Re.rep k min greedy p s prev n cnt = None.
Proof.
  revert prev n cnt. induction s as [| c s IH]; intros prev n cnt [Hk Hs]; simpl.
  - rewrite Hk. destruct (Nat.leb min cnt); reflexivity.
  - rewrite Hk.
    assert (Hstop : (if Nat.leb min cnt then @None Re.found else None) = None).
    { destruct (Nat.leb min cnt); reflexivity. }
    rewrite Hstop. destruct (p c); [| reflexivity].
    rewrite IH by auto. destruct greedy; reflexivity.
Qed.

Lemma space_not_dquote (c : ascii) : Re.space c = true -> Re.only Re.dquote c = false.
Proof. by_cases c. Qed.

Lemma except_only (a c : ascii) : Re.except a c = true -> Re.only a c = false.
Proof. unfold Re.except, Re.only. apply negb_true_iff. Qed.

Lemma filler_chars (c : ascii) :
  Re.except Re.dquote c && Re.except ")" c = true ->
  Re.except Re.dquote c = true /\ Re.except ")" c = true.
Proof. apply andb_true_iff. Qed.

Ltac lengths := cbn [List.length]; repeat (rewrite length_app; cbn [List.length]).

Section GoSingle.
Import Re.

Variables sep path : list ascii.
Hypothesis sep_space : forallb space sep = true.
Hypothesis sep_nonempty : sep <> [].
Hypothesis path_plain : forallb (except dquote) path = true.
Hypothesis path_nonempty : path <> [].

Abbreviation single := (Text.chars "import" ++ sep ++ dquote :: path ++ [dquote]).

Lemma go_single_at_start :
  m_items Patterns.go_single None single 0 0 0
  = Some (List.length single, 7 + List.length sep,
          7 + List.length sep + List.length path).
Proof.
  unfold Patterns.go_single.
  cbn [Text.chars list_ascii_of_string lit app m_items]. literal.
  apply rep_run; [exact sep_space | reflexivity | |].
  { destruct sep; [contradiction | simpl; lia]. }
  cbn [m_items]. literal.
  apply rep_run; [exact path_plain | reflexivity | |].
  { destruct path; [contradiction | simpl; lia]. }
  cbn [m_items]. literal.
  apply f_equal; apply f_equal2; [apply f_equal2 |]; lengths; lia.
Qed.

Lemma scan_go_single :
  scan Patterns.go_single None single 0 = [string_of_list_ascii path].
Proof.
  pose proof go_single_at_start as Hm.
  cbn [Text.chars list_ascii_of_string app] in *.
  rewrite (scan_hit _ _ _ _ _ _ _ Hm). f_equal.
  - change ("i" :: "m" :: "p" :: "o" :: "r" :: "t" :: sep ++ dquote :: path ++ [dquote])%char
      with (Text.chars "import" ++ sep ++ [dquote] ++ path ++ [dquote]).
    rewrite (app_assoc (Text.chars "import")), (app_assoc (_ ++ sep)).
    apply group_span; rewrite ?length_app; simpl; lia.
  - simpl. apply scan_skip. reflexivity.
Qed.

End GoSingle.

Section GoBlock.
Import Re.

Variables sep before path after : list ascii.
Hypothesis sep_space : forallb space sep = true.
Hypothesis sep_nonempty : sep <> [].
Hypothesis before_plain :
  forallb (fun c => except dquote c && except ")" c) before = true.
Hypothesis after_plain :
  forallb (fun c => except dquote c && except ")" c) after = true.
Hypothesis path_plain : forallb (except dquote) path = true.
Hypothesis path_nonempty : path <> [].

Abbreviation close := (")"%char).
Abbreviation block :=
  (Text.chars "import" ++ sep ++ "("%char :: before ++ dquote :: path
              ++ dquote :: after ++ [close]).

(** What follows the first repetition of the block pattern. *)
Abbreviation quoted_path := (fun gs ge : nat =>
  fun (prev : option ascii) (s : list ascii) (n : nat) =>
    m_items [Chr (only dquote); Open; Rep 1 true (except dquote); Close;
             Chr (only dquote); Rep 0 true (except close); Chr (only close)]
            prev s n gs ge).

Lemma after_blocked : blocked (except dquote) (only dquote) (after ++ [close]).
Proof.
  induction after as [| c l IH]; simpl.
  - split; [reflexivity | intros _; exact I].
  - simpl in after_plain. apply andb_true_iff in after_plain.
    destruct after_plain as [Hc Hl]. apply filler_chars in Hc. split.
    + apply except_only, Hc.
    + intros _. apply IH, Hl.
Qed.

Lemma after_hopeless (gs ge : nat) :
  hopeless (quoted_path gs ge) (except close) (after ++ [close]).
Proof.
  induction after as [| c l IH]; simpl.
  - split; [| discriminate]. intros prev n. reflexivity.
  - simpl in after_plain. apply andb_true_iff in after_plain.
    destruct after_plain as [Hc Hl]. apply filler_chars in Hc. split.
    + intros prev n. rewrite (except_only _ _ (proj1 Hc)). reflexivity.
    + intros _. apply IH, Hl.
Qed.

Lemma closing_hopeless (gs ge : nat) :
  hopeless (quoted_path gs ge) (except close) (dquote :: after ++ [close]).
Proof.
  split.
  - intros prev n. cbn [m_items]. literal.
    apply rep_blocked with (q := only dquote).
    + split; intros; cbn [m_items]; [reflexivity |].
      match goal with H : only _ _ = false |- _ => rewrite H end. reflexivity.
    + apply after_blocked.
  - intros _. apply after_hopeless.
Qed.

Lemma path_hopeless (gs ge : nat) :
  hopeless (quoted_path gs ge) (except close)
           (path ++ dquote :: after ++ [close]).
Proof.
  clear path_nonempty. induction path as [| c l IH].
  - apply closing_hopeless.
  - simpl in path_plain. apply andb_true_iff in path_plain.
    destruct path_plain as [Hc Hl]. split.
    + intros prev n. cbn [app m_items]. rewrite (except_only _ _ Hc). reflexivity.
    + intros _. apply IH, Hl.
Qed.

Lemma go_block_at_start :
  m_items Patterns.go_block None block 0 0 0
  = Some (List.length block, 8 + List.length sep + List.length before,
          8 + List.length sep + List.length before + List.length path).
Proof.
  unfold Patterns.go_block.
  cbn [Text.chars list_ascii_of_string lit app m_items]. literal.
  apply rep_run; [exact sep_space | reflexivity | |].
  { destruct sep; [contradiction | simpl; lia]. }
  cbn [m_items]. literal.
  apply rep_retreat.
  - eapply forallb_impl; [| exact before_plain].
    intros c Hc. apply filler_chars in Hc. apply Hc.
  - lia.
  - right. apply rep_hopeless. apply (path_hopeless 0 0).
  - cbn [m_items]. literal.
    apply rep_run; [exact path_plain | reflexivity | |].
    { destruct path; [contradiction | simpl; lia]. }
    cbn [m_items]. literal.
    apply rep_run.
    + eapply forallb_impl; [| exact after_plain].
      intros c Hc. apply filler_chars in Hc. apply Hc.
    + reflexivity.
    + lia.
    + cbn [m_items]. literal.
      apply f_equal; apply f_equal2; [apply f_equal2 |]; lengths; lia.
Qed.

Lemma scan_go_block :
  scan Patterns.go_block None block 0 = [string_of_list_ascii path].
Proof.
  pose proof go_block_at_start as Hm.
  cbn [Text.chars list_ascii_of_string app] in *.
  rewrite (scan_hit _ _ _ _ _ _ _ Hm). f_equal.
  - change ("i" :: "m" :: "p" :: "o" :: "r" :: "t" :: sep ++ "(" :: before
                ++ dquote :: path ++ dquote :: after ++ [close])%char
      with (Text.chars "import" ++ sep ++ ["("%char] ++ before ++ [dquote]
                       ++ path ++ dquote :: after ++ [close]).
    rewrite (app_assoc (Text.chars "import")), (app_assoc (_ ++ sep)),
      (app_assoc (_ ++ [_])), (app_assoc (_ ++ before)).
    apply group_span; rewrite ?length_app; simpl; lia.
  - simpl. apply scan_skip. reflexivity.
Qed.

End GoBlock.

Lemma chars_quoted (s : string) :
  Text.chars (Text.quoted s) = Re.dquote :: Text.chars s ++ [Re.dquote].
Proof.
  unfold Text.quoted. change (Text.chars (String ?c ?t)) with (c :: Text.chars t).
  rewrite chars_app. reflexivity.
Qed.

Lemma go_path_chars (p : string) :
  Text.go_path p = true ->
  forallb (Re.except Re.dquote) (Text.chars p) = true /\ Text.chars p <> [].
Proof.
  unfold Text.go_path. intros H. apply andb_true_iff in H.
  destruct H as [Hn Hp]. split; [exact Hp | apply nonempty_chars, Hn].
Qed.

Lemma finditer_go_single (sep p : string) :
  Text.all Re.space sep = true -> Text.nonempty sep = true ->
  Text.go_path p = true ->
  Re.finditer Patterns.go_single ("import" ++ sep ++ Text.quoted p) = [p].
Proof.
  intros Hs Hn Hp. apply go_path_chars in Hp. destruct Hp as [Hp Hne].
  unfold Re.finditer.
  change (list_ascii_of_string ?x) with (Text.chars x).
  rewrite !chars_app, chars_quoted.
  rewrite scan_go_single; auto using nonempty_chars.
  unfold Text.chars. rewrite string_of_list_ascii_of_string. reflexivity.
Qed.

Lemma finditer_go_block (sep before p after : string) :
  Text.all Re.space sep = true -> Text.nonempty sep = true ->
  Text.filler before = true -> Text.filler after = true ->
  Text.go_path p = true ->
  Re.finditer Patterns.go_block
              ("import" ++ sep ++ "(" ++ before ++ Text.quoted p ++ after ++ ")")
  = [p].
Proof.
  intros Hs Hn Hb Ha Hp. apply go_path_chars in Hp. destruct Hp as [Hp Hne].
  unfold Re.finditer.
  change (list_ascii_of_string ?x) with (Text.chars x).
  rewrite !chars_app, chars_quoted.
  change (Text.chars "(" ++ ?x) with ("("%char :: x).
  change (Text.chars ")") with [")"%char].
  cbn [app]. rewrite <- app_assoc. cbn [app].
  rewrite scan_go_block; auto using nonempty_chars.
  unfold Text.chars. rewrite string_of_list_ascii_of_string. reflexivity.
Qed.

Lemma In_fold_collect (resolve_ref : string -> option Path) (refs : list string)
      (acc : list Path) (d : Path) :
  In d (fold_left
          (fun deps r => match resolve_ref r with
                         | Some resolved => add resolved deps
                         | None => deps
                         end) refs acc)
  <-> In d acc \/ exists r, In r refs /\ resolve_ref r = Some d.
Proof.
  revert acc. induction refs as [| r refs IH]; intros acc; simpl.
  - split; [auto | intros [H | [r [[] _]]]; exact H].
  - rewrite IH. split.
    + intros [H | [r' [Hr Hd]]].
      * destruct (resolve_ref r) as [x |] eqn:E; [| auto].
        apply In_add in H. destruct H as [-> | H]; [| auto].
        right. exists r. auto.
      * right. exists r'. auto.
    + intros [H | [r' [[<- | Hr] Hd]]].
      * left. destruct (resolve_ref r); [apply In_add |]; auto.
      * left. rewrite Hd. apply In_add. auto.
      * right. exists r'. auto.
Qed.

Lemma In_collect (resolve_ref : string -> option Path) (refs : list string)
      (d : Path) :
  In d (collect resolve_ref refs)
  <-> exists r, In r refs /\ resolve_ref r = Some d.
Proof.
  unfold collect. rewrite In_fold_collect. split; [| auto].
  intros [[] | H]. exact H.
Qed.

Lemma resolve_go_import_spec (fs : FS) (root : Path) (import_path : string)
      (current_file d : Path) :
  Str.startswith "." import_path = true ->
  _resolve_go_import fs root import_path current_file = Some d
  <-> d = resolve (parent current_file // import_path)
      /\ is_dir fs d = true /\ is_relative_to d root = true.
Proof.
  intros Hs. unfold _resolve_go_import. rewrite Hs.
  destruct (is_dir fs _ && is_relative_to _ root) eqn:E.
  - apply andb_true_iff in E. split.
    + intros [= <-]. tauto.
    + intros [-> _]. reflexivity.
  - split; [discriminate |]. intros [-> [H1 H2]].
    rewrite H1, H2 in E. discriminate.
Qed.

(** A block that lists several paths is one match of the block pattern,
    and the group of that match is the last path of the block. *)
Lemma go_block_captures_last :
  all_matches Patterns.go
    ("import (" ++ Examples.nl ++ Text.quoted "./a" ++ Examples.nl
                ++ Text.quoted "./b" ++ Examples.nl ++ ")")
  = ["./b"].
Proof. vm_compute. reflexivity. Qed.

(** On a text that is one import with one path, the single line is
    matched by the first pattern and the block by the second; the
    parser hands every matched path that begins with a dot, and no
    other, to the resolver; the resolver returns the directory the path
    names, and does so exactly when that is a directory within the
    repository root; a module path such as [fmt] never resolves.  A
    block with several paths is another matter: only its last path is
    captured, see [go_block_captures_last]. *)
Theorem go_imports_resolve_to_directories (fs : FS) (root : Path) :
  (forall sep p,
      Text.all Re.space sep = true -> Text.nonempty sep = true ->
      Text.go_path p = true ->
      Re.finditer Patterns.go_single ("import" ++ sep ++ Text.quoted p) = [p])
  /\ (forall sep before p after,
         Text.all Re.space sep = true -> Text.nonempty sep = true ->
         Text.filler before = true -> Text.filler after = true ->
         Text.go_path p = true ->
         Re.finditer Patterns.go_block
           ("import" ++ sep ++ "(" ++ before ++ Text.quoted p ++ after ++ ")")
         = [p])
  /\ (forall content file_path d,
         In d (_parse_go_imports fs root content file_path)
         <-> exists p, In p (all_matches Patterns.go content)
                       /\ Str.startswith "." p = true
                       /\ _resolve_go_import fs root p file_path = Some d)
  /\ (forall p current_file d,
         Str.startswith "." p = true ->
         _resolve_go_import fs root p current_file = Some d
         <-> d = resolve (parent current_file // p)
             /\ is_dir fs d = true /\ is_relative_to d root = true)
  /\ (forall p current_file,
         Str.startswith "." p = false ->
         _resolve_go_import fs root p current_file = None)
  /\ (forall file_path,
         all_matches Patterns.go ("import " ++ Text.quoted "fmt") = ["fmt"]
         /\ _parse_go_imports fs root ("import " ++ Text.quoted "fmt") file_path
            = []).
Proof.
  split; [intros; apply finditer_go_single; assumption |].
  split; [intros; apply finditer_go_block; assumption |].
  split; [| split; [| split]].
  - intros content file_path d. unfold _parse_go_imports. rewrite In_collect.
    split; intros [p [Hp H]]; exists p.
    + destruct (Str.startswith "." p); [auto | discriminate].
    + destruct H as [-> H]. auto.
  - intros p current_file d. apply resolve_go_import_spec.
  - intros p current_file H. unfold _resolve_go_import. rewrite H. reflexivity.
  - intros file_path. split; vm_compute; reflexivity.
Qed.

Lemma go_imports_resolve_to_directories_go :
  Re.finditer Patterns.go_single ("import " ++ Text.quoted "../other")
  = ["../other"]
  /\ Re.finditer Patterns.go_block
       ("import " ++ "(" ++ Examples.nl ++ Text.quoted "../other"
                  ++ Examples.nl ++ ")")
     = ["../other"]
  /\ _resolve_go_import Examples.fs_go Examples.repo "../other"
       (Examples.P ["repo"; "pkg"; "x.go"])
     = Some (Examples.P ["repo"; "other"])
  /\ _resolve_go_import Examples.fs_go Examples.repo "../../lib"
       (Examples.P ["repo"; "pkg"; "x.go"])
     = None
  /\ _resolve_go_import Examples.fs_go Examples.repo "fmt"
       (Examples.P ["repo"; "main.go"])
     = None.
Proof.
  destruct (go_imports_resolve_to_directories Examples.fs_go Examples.repo)
    as [H1 [H2 [_ [H4 [H5 _]]]]].
  split; [apply (H1 " " "../other"); reflexivity |].
  split; [apply (H2 " " Examples.nl "../other" Examples.nl); reflexivity |].
  split; [apply H4; [reflexivity | vm_compute; repeat split] |].
  split; [vm_compute; reflexivity | apply H5; reflexivity].
Defined.

(** C3: of an import block the Go parser keeps one path, the last.  The
    block pattern has one group and matches the block as a whole, so in
    [main.go], whose block lists [./a] and [./b], only [./b] is read:
    the package [a] is not reported, although it is a directory within
    the root that the resolver would return.  In [tool.go], whose block
    lists [./a] and then [fmt], the path that is read is [fmt], and
    nothing is reported at all. *)
Theorem go_block_keeps_last_path_only :
  read_file Examples.fs_block (Examples.P ["repo"; "main.go"])
  = Some (String.concat Examples.nl (Examples.block_of ["./a"; "./b"]))
  /\ all_matches Patterns.go
       (String.concat Examples.nl (Examples.block_of ["./a"; "./b"]))
     = ["./b"]
  /\ _resolve_go_import Examples.fs_block Examples.repo "./a"
                        (Examples.P ["repo"; "main.go"])
     = Some (Examples.P ["repo"; "a"])
  /\ _parse_go_imports Examples.fs_block Examples.repo
       (String.concat Examples.nl (Examples.block_of ["./a"; "./b"]))
       (Examples.P ["repo"; "main.go"])
     = [Examples.P ["repo"; "b"]]
  /\ trace_dependencies Examples.fs_block Examples.repo 3 "main.go"
     = Some (Return [Examples.P ["repo"; "b"]])
  /\ all_matches Patterns.go
       (String.concat Examples.nl (Examples.block_of ["./a"; "fmt"]))
     = ["fmt"]
  /\ trace_dependencies Examples.fs_block Examples.repo 3 "tool.go"
     = Some (Return []).
Proof.
  split; [vm_compute; reflexivity |].
  split; [vm_compute; reflexivity |].
  split; [vm_compute; reflexivity |].
  split; [vm_compute; reflexivity |].
  split; [vm_compute; reflexivity |].
  split; vm_compute; reflexivity.
Qed.

(* ================================================================== *)
(** ** Components of paths: slashes and double dots *)

Section Components.
Import Finite.

Lemma split_chars (sep : ascii) (s x : string) (c : ascii) :
  In x (Str.split sep s) -> In c (list_ascii_of_string x) ->
  In c (list_ascii_of_string s) /\ c <> sep.
Proof.
  revert x. induction s as [| a s IH]; intros x Hx Hc; simpl in Hx.
  - destruct Hx as [<- | []]. destruct Hc.
  - destruct (Ascii.eqb a sep) eqn:E.
    + destruct Hx as [<- | Hx]; [destruct Hc |].
      destruct (IH x Hx Hc) as [H1 H2]. split; [right; exact H1 | exact H2].
    + apply Ascii.eqb_neq in E.
      destruct (Str.split sep s) as [| h t] eqn:Es.
      * destruct Hx as [<- | []]. simpl in Hc.
        destruct Hc as [<- | []]. split; [left; reflexivity | exact E].
      * destruct Hx as [<- | Hx].
        -- simpl in Hc. destruct Hc as [<- | Hc].
           ++ split; [left; reflexivity | exact E].
           ++ destruct (IH h (or_introl eq_refl) Hc) as [H1 H2].
              split; [right; exact H1 | exact H2].
        -- destruct (IH x (or_intror Hx) Hc) as [H1 H2].
           split; [right; exact H1 | exact H2].
Qed.

Lemma split_length (sep : ascii) (s : string) :
  List.length (Str.split sep s) <= S (String.length s).
Proof.
  induction s as [| a s IH]; simpl; [lia |].
  destruct (Ascii.eqb a sep); simpl; [lia |].
  destruct (Str.split sep s); simpl in *; lia.
Qed.

Lemma has_char_In (a : ascii) (s : string) :
  has_char a s = true <-> In a (list_ascii_of_string s).
Proof.
  unfold has_char. rewrite existsb_exists. split.
  - intros [x [Hx E]]. apply Ascii.eqb_eq in E. subst. exact Hx.
  - intros H. exists a. split; [exact H | apply Ascii.eqb_refl].
Qed.

Lemma segments_In (s x : string) :
  In x (segments s) -> In x (Str.split "/" s).
Proof. unfold segments. intros H. apply filter_In in H. apply H. Qed.

Lemma segments_slash_free (s x : string) :
  In x (segments s) -> slash_free x = true.
Proof.
  intros H. apply segments_In in H. unfold slash_free.
  apply negb_true_iff. destruct (has_char "/" x) eqn:E; [| reflexivity].
  apply has_char_In in E. destruct (split_chars _ _ _ _ H E) as [_ Hn].
  contradiction.
Qed.

Lemma dotdots_app (a b : list string) : dotdots (a ++ b) = dotdots a + dotdots b.
Proof. unfold dotdots. rewrite filter_app, length_app. reflexivity. Qed.

Lemma dotdots_zero (l : list string) : dotdots l = 0 <-> ~ In ".." l.
Proof.
  unfold dotdots. induction l as [| x l IH]; [simpl; tauto |].
  cbn [filter In]. destruct (String.eqb ".." x) eqn:E; cbn [List.length].
  - apply String.eqb_eq in E. split; [discriminate | intros H; exfalso; auto].
  - apply String.eqb_neq in E. rewrite IH. split; [intros H [H1 | H1]; auto | auto].
Qed.

Lemma dotdots_le_length (l : list string) : dotdots l <= List.length l.
Proof. apply filter_length_le. Qed.

Lemma dotdots_removelast (l : list string) : dotdots (removelast l) <= dotdots l.
Proof.
  induction l as [| x l IH]; [simpl; lia |].
  destruct l as [| y l]; [apply Nat.le_0_l |].
  change (removelast (x :: y :: l)) with (x :: removelast (y :: l)).
  unfold dotdots in *. cbn [filter].
  destruct (String.eqb ".." x); cbn [List.length]; cbn [filter] in IH; lia.
Qed.

Lemma dotdots_segments (s : string) : dotdots (segments s) <= S (String.length s).
Proof.
  etransitivity; [apply dotdots_le_length |].
  unfold segments. etransitivity; [apply filter_length_le | apply split_length].
Qed.

Lemma dotdots_segments_plain (s : string) :
  has_char "." s = false -> dotdots (segments s) = 0.
Proof.
  intros H. apply dotdots_zero. intros Hin. apply segments_In in Hin.
  assert (Hc : In "."%char (list_ascii_of_string "..")) by (left; reflexivity).
  destruct (split_chars _ _ _ _ Hin Hc) as [Hs _].
  apply has_char_In in Hs. congruence.
Qed.

Lemma removelast_forallb {A : Type} (p : A -> bool) (l : list A) :
  forallb p l = true -> forallb p (removelast l) = true.
Proof.
  induction l as [| x l IH]; [auto |]. destruct l as [| y l]; [auto |].
  change (removelast (x :: y :: l)) with (x :: removelast (y :: l)).
  simpl forallb at 1. intros H. apply andb_true_iff in H. destruct H as [Hx Hl].
  simpl. rewrite Hx. apply IH, Hl.
Qed.

Lemma segments_forallb (s : string) : forallb slash_free (segments s) = true.
Proof. apply forallb_forall. intros x. apply segments_slash_free. Qed.

Lemma well_formed_of_string (s : string) : well_formed (of_string s) = true.
Proof. apply segments_forallb. Qed.

Lemma well_formed_joinpath (p : Path) (s : string) :
  well_formed p = true -> well_formed (p // s) = true.
Proof.
  intros H. unfold joinpath. destruct (Str.startswith "/" s).
  - apply well_formed_of_string.
  - unfold well_formed. simpl. rewrite forallb_app, segments_forallb.
    rewrite andb_true_r. exact H.
Qed.

Lemma dotdots_joinpath (p : Path) (s : string) :
  dotdots (parts (p // s)) <= dotdots (parts p) + dotdots (segments s).
Proof.
  unfold joinpath. destruct (Str.startswith "/" s); simpl; [lia |].
  rewrite dotdots_app. lia.
Qed.

Lemma well_formed_parent (p : Path) : well_formed p = true -> well_formed (parent p) = true.
Proof. apply removelast_forallb. Qed.

Lemma dotdots_parent (p : Path) : dotdots (parts (parent p)) <= dotdots (parts p).
Proof. apply dotdots_removelast. Qed.

Lemma iter_parent (n : nat) (p : Path) :
  well_formed p = true ->
  well_formed (Nat.iter n parent p) = true
  /\ dotdots (parts (Nat.iter n parent p)) <= dotdots (parts p).
Proof.
  intros H. induction n as [| n [IH1 IH2]]; simpl; [split; [exact H | lia] |].
  split; [apply well_formed_parent, IH1 |].
  etransitivity; [apply dotdots_parent | exact IH2].
Qed.

Lemma normalize_from_plain (cur comps : list string) :
  ~ In ".." cur -> ~ In ".." (normalize_from cur comps).
Proof.
  revert cur. induction comps as [| c comps IH]; intros cur H; simpl; [exact H |].
  apply IH. destruct (String.eqb c "..") eqn:E.
  - intros Hin. apply H. clear - Hin.
    induction cur as [| x cur IHc]; [destruct Hin |].
    destruct cur as [| y cur]; [destruct Hin |].
    change (removelast (x :: y :: cur)) with (x :: removelast (y :: cur)) in Hin.
    destruct Hin as [<- | Hin]; [left; reflexivity | right; apply IHc, Hin].
  - apply String.eqb_neq in E. rewrite in_app_iff. intros [Hin | [Hin | []]]; auto.
Qed.

Lemma normalize_from_forallb (p : string -> bool) (cur comps : list string) :
  forallb p cur = true -> forallb p comps = true ->
  forallb p (normalize_from cur comps) = true.
Proof.
  revert cur. induction comps as [| c comps IH]; intros cur Hc Hs; simpl; [exact Hc |].
  simpl in Hs. apply andb_true_iff in Hs. destruct Hs as [Hp Hs].
  apply IH; [| exact Hs]. destruct (String.eqb c "..").
  - apply removelast_forallb, Hc.
  - rewrite forallb_app, Hc. simpl. rewrite Hp. reflexivity.
Qed.

Lemma resolve_plain (p : Path) : dotdots (parts (resolve p)) = 0.
Proof. apply dotdots_zero. simpl. apply normalize_from_plain. intros []. Qed.

Lemma well_formed_resolve (p : Path) :
  well_formed p = true -> well_formed (resolve p) = true.
Proof. intros H. apply normalize_from_forallb; [reflexivity | exact H]. Qed.

End Components.

(* ================================================================== *)
(** ** Paths that exist in a file system with finitely many entries *)

Section Existing.
Import Finite.

Variable entries : list (list string * Node).

Abbreviation the_fs := (mkfs entries).

Lemma mkfs_In (cur : list string) (n : Node) :
  mkfs entries cur = Some n -> In (cur, n) entries.
Proof.
  induction entries as [| [k m] rest IH]; simpl; [discriminate |].
  destruct (parts_eqb k cur) eqn:E.
  - apply parts_eqb_eq in E. intros [= <-]. left. congruence.
  - intros H. right. apply IH, H.
Qed.

Lemma entry_depth (cur : list string) (n : Node) :
  In (cur, n) entries -> List.length cur <= depth entries.
Proof.
  unfold depth. induction entries as [| e rest IH]; simpl; [intros [] |].
  intros [-> | H]; simpl; [lia |]. specialize (IH H). lia.
Qed.

Lemma entry_names (cur : list string) (n : Node) (c : string) :
  In (cur, n) entries -> In c cur -> In c (names entries).
Proof.
  intros H Hc. unfold names. apply in_flat_map. exists (cur, n). auto.
Qed.

Lemma entry_text (cur : list string) (content : string) :
  In (cur, File (Some content)) entries ->
  String.length content <= longest_text entries.
Proof.
  unfold longest_text. induction entries as [| e rest IH]; simpl; [intros [] |].
  intros [-> | H]; simpl; [lia |]. specialize (IH H).
  destruct (snd e) as [[c |] |]; lia.
Qed.

Lemma node_at_entry (cur : list string) :
  node_at the_fs cur <> None ->
  List.length cur <= depth entries /\ forall c, In c cur -> In c (names entries).
Proof.
  destruct cur as [| x cur]; simpl.
  - intros _. split; [lia | intros c []].
  - destruct (mkfs entries (x :: cur)) as [n |] eqn:E; [| congruence].
    intros _. apply mkfs_In in E. split.
    + apply (entry_depth _ _ E).
    + intros c. apply (entry_names _ _ _ E).
Qed.

Lemma walk_start (fs : FS) (cur comps cur' : list string) :
  walk fs cur comps = Some cur' -> node_at fs cur' <> None ->
  node_at fs cur <> None.
Proof.
  destruct comps as [| c comps]; simpl.
  - intros [= ->]. auto.
  - destruct (node_at fs cur) as [[x |] |]; intros; congruence.
Qed.

Lemma walk_bound (cur comps cur' : list string) :
  walk the_fs cur comps = Some cur' -> node_at the_fs cur' <> None ->
  List.length comps + List.length cur <= List.length cur' + 2 * dotdots comps
  /\ forall c, In c comps -> c = ".." \/ In c (names entries).
Proof.
  revert cur. induction comps as [| c comps IH]; intros cur Hw He.
  - simpl in Hw. injection Hw as <-. split; [simpl; lia | intros c []].
  - simpl in Hw. destruct (node_at the_fs cur) as [[x |] |]; try discriminate.
    pose proof (walk_start _ _ _ _ Hw He) as Hs.
    destruct (IH _ Hw He) as [Hl Hn].
    unfold dotdots in *. cbn [filter List.length].
    rewrite (String.eqb_sym ".." c).
    destruct (String.eqb c "..") eqn:E.
    + apply String.eqb_eq in E. cbn [List.length]. split.
      * assert (List.length cur <= S (List.length (removelast cur))).
        { clear. induction cur as [| a l IHl]; [simpl; lia |].
          destruct l; [simpl; lia |].
          change (removelast (a :: s :: l)) with (a :: removelast (s :: l)).
          simpl in *. lia. }
        lia.
      * intros c0 [<- | Hc]; [left; exact E | apply Hn, Hc].
    + split.
      * rewrite length_app in Hl. cbn [List.length] in Hl. lia.
      * intros c0 [<- | Hc]; [| apply Hn, Hc].
        right. apply (proj2 (node_at_entry _ Hs)).
        apply in_app_iff. right. left. reflexivity.
Qed.

Lemma exists_bound (d : Path) :
  exists_ the_fs d = true ->
  List.length (parts d) <= depth entries + 2 * dotdots (parts d)
  /\ forall c, In c (parts d) -> In c (".." :: names entries).
Proof.
  unfold exists_, stat.
  destruct (walk the_fs [] (parts d)) as [cur' |] eqn:Hw; [| discriminate].
  destruct (node_at the_fs cur') as [n |] eqn:Hn; [| discriminate].
  intros _.
  assert (He : node_at the_fs cur' <> None) by congruence.
  destruct (walk_bound _ _ _ Hw He) as [Hl Hc].
  pose proof (proj1 (node_at_entry _ He)) as Hd.
  split; [simpl in Hl; lia |].
  intros c Hin. destruct (Hc c Hin) as [-> | H]; [left; reflexivity | right; exact H].
Qed.

Lemma read_file_bound (f : Path) (content : string) :
  read_file the_fs f = Some content ->
  String.length content <= longest_text entries.
Proof.
  unfold read_file, stat.
  destruct (walk the_fs [] (parts f)) as [cur |]; [| discriminate].
  destruct cur as [| x cur]; simpl; [discriminate |].
  destruct (mkfs entries (x :: cur)) as [[[c |] |] |] eqn:E; try discriminate.
  intros [= <-]. apply mkfs_In in E. apply (entry_text _ _ E).
Qed.

End Existing.

Lemma lists_upto_In (alphabet : list string) (n : nat) (l : list string) :
  (forall c, In c l -> In c alphabet) -> List.length l <= n ->
  In l (Finite.lists_upto alphabet n).
Proof.
  revert l. induction n as [| n IH]; intros l Ha Hl.
  - destruct l; [left; reflexivity | simpl in Hl; lia].
  - destruct l as [| a l]; [left; reflexivity |].
    right. apply in_flat_map. exists l. split.
    + apply IH; [intros c Hc; apply Ha; right; exact Hc | simpl in Hl; lia].
    + apply (in_map (fun x => x :: l)). apply Ha. left. reflexivity.
Qed.

Lemma universe_of_In (entries : list (list string * Node)) (root d : Path) :
  Finite.sound (mkfs entries) (Finite.bound entries root) d ->
  In d (Finite.universe_of entries root).
Proof.
  intros [He [Hw Hd]]. destruct (exists_bound entries d He) as [Hl Hc].
  unfold Finite.universe_of. apply filter_In. split.
  - apply in_flat_map. exists (parts d). split.
    + apply lists_upto_In; [exact Hc | lia].
    + destruct d as [[] l]; simpl; auto.
  - rewrite Hw. apply Nat.leb_le. exact Hd.
Qed.

Lemma universe_of_sound (entries : list (list string * Node)) (root f : Path) :
  In f (Finite.universe_of entries root) ->
  Finite.well_formed f = true
  /\ Finite.dotdots (parts f) <= Finite.bound entries root.
Proof.
  unfold Finite.universe_of. intros H. apply filter_In in H.
  destruct H as [_ H]. apply andb_true_iff in H. destruct H as [Hw Hd].
  apply Nat.leb_le in Hd. auto.
Qed.

(* ================================================================== *)
(** ** Strings cut at a separator *)

Section Cutting.
Import Finite.

Lemma split_nonempty (sep : ascii) (s : string) : Str.split sep s <> [].
Proof.
  destruct s as [| a s]; simpl; [discriminate |].
  destruct (Ascii.eqb a sep); [discriminate |].
  destruct (Str.split sep s); discriminate.
Qed.

Lemma split_app (sep : ascii) (a b : string) :
  Str.split sep (a ++ b)
  = removelast (Str.split sep a)
    ++ (last (Str.split sep a) "" ++ hd "" (Str.split sep b))%string
    :: tl (Str.split sep b).
Proof.
  induction a as [| c a IH].
  - simpl. destruct (Str.split sep b) as [| h t] eqn:E; [| reflexivity].
    exfalso. exact (split_nonempty _ _ E).
  - change (String c a ++ b)%string with (String c (a ++ b)).
    cbn [Str.split]. rewrite IH. clear IH.
    pose proof (split_nonempty sep a) as Hn.
    destruct (Ascii.eqb c sep).
    + destruct (Str.split sep a) as [| x X]; [contradiction |].
      reflexivity.
    + destruct (Str.split sep a) as [| x X]; [contradiction |].
      destruct X as [| y X]; reflexivity.
Qed.

Lemma split_plain (sep : ascii) (s : string) :
  has_char sep s = false -> Str.split sep s = [s].
Proof.
  induction s as [| c s IH]; [reflexivity |].
  unfold has_char. cbn [list_ascii_of_string existsb Str.split].
  rewrite (Ascii.eqb_sym sep c).
  destruct (Ascii.eqb c sep); [discriminate |].
  intros H. simpl in H. unfold has_char in IH. rewrite (IH H). reflexivity.
Qed.

Lemma append_nil_r (s : string) : (s ++ "")%string = s.
Proof. induction s as [| c s IH]; simpl; [| rewrite IH]; reflexivity. Qed.

Lemma append_length (a b : string) :
  String.length (a ++ b) = String.length a + String.length b.
Proof. induction a as [| c a IH]; simpl; [| rewrite IH]; reflexivity. Qed.

Lemma has_char_app (c : ascii) (a b : string) :
  has_char c (a ++ b) = has_char c a || has_char c b.
Proof.
  unfold has_char. induction a as [| x a IH]; simpl; [reflexivity |].
  rewrite IH, orb_assoc. reflexivity.
Qed.

(** Adding an extension to the last piece of a path string makes no
    piece a double dot. *)
Lemma split_extension (s ext : string) :
  (forall x, In x (Str.split "/" s) -> x <> "..") ->
  has_char "/" ext = false -> 3 <= String.length ext ->
  forall x, In x (Str.split "/" (s ++ ext)) -> x <> "..".
Proof.
  intros Hs He Hl x. rewrite split_app, (split_plain _ _ He). simpl hd. simpl tl.
  rewrite in_app_iff. intros [H | [<- | []]].
  - apply Hs. clear - H. induction (Str.split "/" s) as [| a l IH]; [destruct H |].
    destruct l as [| b l]; [destruct H |].
    change (removelast (a :: b :: l)) with (a :: removelast (b :: l)) in H.
    destruct H as [<- | H]; [left; reflexivity | right; apply IH, H].
  - intros E. apply (f_equal String.length) in E. rewrite append_length in E.
    simpl in E. lia.
Qed.

Lemma replace_plain (a b : ascii) (s : string) :
  a <> b -> has_char a (Str.replace a b s) = false.
Proof.
  intros Hab. unfold has_char. induction s as [| c s IH]; [reflexivity |].
  simpl. rewrite IH, orb_false_r. destruct (Ascii.eqb c a) eqn:E.
  - apply Ascii.eqb_neq. exact Hab.
  - rewrite Ascii.eqb_sym. exact E.
Qed.

Lemma plain_pieces (s x : string) :
  has_char "." s = false -> In x (Str.split "/" s) -> x <> "..".
Proof.
  intros H Hin ->.
  assert (Hc : In "."%char (list_ascii_of_string "..")) by (left; reflexivity).
  destruct (split_chars _ _ _ _ Hin Hc) as [Hs _].
  apply has_char_In in Hs. congruence.
Qed.

Lemma dotdots_segments_pieces (s : string) :
  (forall x, In x (Str.split "/" s) -> x <> "..") -> dotdots (segments s) = 0.
Proof.
  intros H. apply dotdots_zero. intros Hin. apply segments_In in Hin.
  exact (H _ Hin eq_refl).
Qed.

(** A name with no dot in it, followed by an extension. *)
Lemma dotdots_with_extension (s ext : string) :
  has_char "." s = false ->
  has_char "/" ext = false -> 3 <= String.length ext ->
  dotdots (segments (s ++ ext)) = 0.
Proof.
  intros Hs He Hl. apply dotdots_segments_pieces.
  apply split_extension; [| exact He | exact Hl].
  intros x. apply plain_pieces, Hs.
Qed.

Lemma join_plain (c : ascii) (l : list string) :
  c <> "/"%char -> (forall x, In x l -> has_char c x = false) ->
  has_char c (Str.join "/" l) = false.
Proof.
  intros Hc. unfold Str.join. induction l as [| x l IH]; intros H; [reflexivity |].
  destruct l as [| y l]; [apply H; left; reflexivity |].
  change (String.concat "/" (x :: y :: l))
    with (x ++ "/" ++ String.concat "/" (y :: l))%string.
  rewrite !has_char_app, (H x (or_introl eq_refl)).
  rewrite IH by (intros z Hz; apply H; right; exact Hz).
  rewrite orb_false_r. unfold has_char. simpl.
  rewrite orb_false_r. apply Ascii.eqb_neq. exact Hc.
Qed.

Lemma split_piece_plain (sep : ascii) (s x : string) :
  In x (Str.split sep s) -> has_char sep x = false.
Proof.
  intros H. destruct (has_char sep x) eqn:E; [| reflexivity].
  apply has_char_In in E. destruct (split_chars _ _ _ _ H E) as [_ Hn].
  contradiction.
Qed.

End Cutting.

(* ================================================================== *)
(** ** What the resolvers return *)

Section Resolved.
Import Finite.

Lemma split_append (s e : string) :
  (forall x, In x (Str.split "/" s) -> x <> "..") ->
  (forall y, In y (tl (Str.split "/" e)) -> y <> "..") ->
  hd "" (Str.split "/" e) = "" \/ 3 <= String.length (hd "" (Str.split "/" e)) ->
  forall x, In x (Str.split "/" (s ++ e)) -> x <> "..".
Proof.
  intros Hs Ht Hh x. rewrite split_app, in_app_iff. intros [H | [<- | H]].
  - apply Hs. clear - H. induction (Str.split "/" s) as [| a l IH]; [destruct H |].
    destruct l as [| b l]; [destruct H |].
    change (removelast (a :: b :: l)) with (a :: removelast (b :: l)) in H.
    destruct H as [<- | H]; [left; reflexivity | right; apply IH, H].
  - destruct Hh as [-> | Hl].
    + rewrite append_nil_r. apply Hs.
      pose proof (split_nonempty "/" s) as Hn. clear - Hn.
      induction (Str.split "/" s) as [| a l IH]; [contradiction |].
      destruct l as [| b l]; [left; reflexivity |].
      right. apply IH. discriminate.
    + intros E. apply (f_equal String.length) in E. rewrite append_length in E.
      simpl in E. lia.
  - apply Ht, H.
Qed.

Lemma join_pieces (l : list string) :
  forallb slash_free l = true -> ~ In ".." l ->
  forall x, In x (Str.split "/" (Str.join "/" l)) -> x <> "..".
Proof.
  unfold Str.join. induction l as [| a l IH]; intros Hw Hn x.
  - simpl. intros [<- | []]. discriminate.
  - simpl in Hw. apply andb_true_iff in Hw. destruct Hw as [Ha Hw].
    unfold slash_free in Ha. apply negb_true_iff in Ha.
    destruct l as [| b l].
    + cbn [String.concat]. rewrite (split_plain _ _ Ha).
      intros [<- | []] E. apply Hn. left. exact E.
    + change (String.concat "/" (a :: b :: l))
        with (a ++ String "/" (String.concat "/" (b :: l)))%string.
      rewrite split_app, (split_plain _ _ Ha). cbn [removelast last app hd tl Str.split].
      change (Ascii.eqb "/" "/") with true. cbv iota. cbn [hd tl].
      rewrite append_nil_r. intros [<- | H].
      * intros E. apply Hn. left. exact E.
      * apply (IH Hw); [intros Hin; apply Hn; right; exact Hin | exact H].
Qed.

Lemma to_string_pieces (t : Path) :
  dslash t = false -> well_formed t = true -> dotdots (parts t) = 0 ->
  forall x, In x (Str.split "/" (to_string t)) -> x <> "..".
Proof.
  intros Hd Hw Hn x. unfold to_string. rewrite Hd.
  change ("/" ++ Str.join "/" (parts t))%string
    with (String "/" (Str.join "/" (parts t))).
  cbn [Str.split]. change (Ascii.eqb "/" "/") with true. cbv iota.
  intros [<- | H]; [discriminate |].
  apply (join_pieces (parts t)); [exact Hw | apply dotdots_zero, Hn | exact H].
Qed.

Lemma js_candidate_plain (t : Path) (ext : string) :
  dslash t = false -> well_formed t = true -> dotdots (parts t) = 0 ->
  In ext js_suffixes ->
  dotdots (parts (of_string (to_string t ++ ext))) = 0.
Proof.
  intros Hd Hw Hn He. apply dotdots_segments_pieces.
  apply split_append.
  - apply to_string_pieces; assumption.
  - simpl in He.
    repeat (destruct He as [<- | He];
            [intros y Hy; simpl in Hy; intuition (subst; discriminate) |]).
    destruct He.
  - simpl in He.
    repeat (destruct He as [<- | He];
            [simpl; (left; reflexivity) || (right; lia) |]).
    destruct He.
Qed.

Variable fs : FS.
Variable root : Path.
Hypothesis root_well_formed : well_formed root = true.

Abbreviation dd := (fun p : Path => dotdots (parts p)).

Lemma sound_weaken (k k' : nat) (d : Path) : k <= k' -> sound fs k d -> sound fs k' d.
Proof. intros H [H1 [H2 H3]]. repeat split; auto. lia. Qed.

Lemma js_sound (import_path : string) (f d : Path) :
  well_formed f = true ->
  _resolve_js_import fs root import_path f = Some d -> sound fs 0 d.
Proof.
  intros Hf. unfold _resolve_js_import.
  destruct (Str.startswith "." import_path); [| discriminate].
  intros H. apply find_some in H. destruct H as [Hin Hc].
  apply andb_true_iff in Hc. destruct Hc as [He _].
  apply in_map_iff in Hin. destruct Hin as [ext [<- Hext]].
  split; [exact He | split; [apply well_formed_of_string |]].
  rewrite js_candidate_plain; auto.
  - apply well_formed_resolve, well_formed_joinpath, well_formed_parent, Hf.
  - apply resolve_plain.
Qed.

Lemma is_dir_exists (d : Path) : is_dir fs d = true -> exists_ fs d = true.
Proof. unfold is_dir, exists_. destruct (stat fs d) as [[c |] |]; auto. Qed.

Lemma go_sound (import_path : string) (f d : Path) :
  well_formed f = true ->
  _resolve_go_import fs root import_path f = Some d -> sound fs 0 d.
Proof.
  intros Hf. unfold _resolve_go_import.
  destruct (Str.startswith "." import_path); [| discriminate].
  destruct (is_dir fs _ && _) eqn:E; [| discriminate].
  intros [= <-]. apply andb_true_iff in E. destruct E as [E _].
  split; [apply is_dir_exists, E | split].
  - apply well_formed_resolve, well_formed_joinpath, well_formed_parent, Hf.
  - rewrite resolve_plain. lia.
Qed.

Lemma c_sound (include_path : string) (f d : Path) :
  well_formed f = true ->
  _resolve_c_include fs root include_path f = Some d ->
  sound fs (dd root + S (String.length include_path)) d.
Proof.
  intros Hf. unfold _resolve_c_include.
  destruct (exists_ fs (resolve _) && _) eqn:E.
  - intros [= <-]. apply andb_true_iff in E. destruct E as [E _].
    split; [exact E | split].
    + apply well_formed_resolve, well_formed_joinpath, well_formed_parent, Hf.
    + rewrite resolve_plain. lia.
  - destruct (exists_ fs (root // include_path)) eqn:E2; [| discriminate].
    intros [= <-]. split; [exact E2 | split].
    + apply well_formed_joinpath, root_well_formed.
    + etransitivity; [apply dotdots_joinpath |].
      pose proof (dotdots_segments include_path). lia.
Qed.

Lemma root_module_path (s ext : string) :
  has_char "." s = false -> has_char "/" ext = false -> 3 <= String.length ext ->
  dd (root // (s ++ ext)%string) <= dd root.
Proof.
  intros Hs He Hl. etransitivity; [apply dotdots_joinpath |].
  rewrite dotdots_with_extension by auto. lia.
Qed.

Lemma java_sound (import_path : string) (d : Path) :
  _resolve_java_import fs root import_path = Some d -> sound fs (dd root) d.
Proof.
  unfold _resolve_java_import.
  destruct (exists_ fs _) eqn:E; [| discriminate].
  intros [= <-]. split; [exact E | split].
  - apply well_formed_joinpath, root_well_formed.
  - apply root_module_path; [| reflexivity | simpl; lia].
    apply replace_plain. discriminate.
Qed.

End Resolved.

Section ResolvedPython.
Import Finite.

Variable fs : FS.
Variable root : Path.
Hypothesis root_well_formed : well_formed root = true.

Abbreviation dd' := (fun p : Path => dotdots (parts p)).

Lemma last_forallb {A : Type} (p : A -> bool) (l : list A) (d : A) :
  forallb p l = true -> p d = true -> p (last l d) = true.
Proof.
  intros Hl Hd. induction l as [| x l IH]; [exact Hd |].
  simpl in Hl. apply andb_true_iff in Hl. destruct Hl as [Hx Hl].
  destruct l as [| y l]; [exact Hx | apply IH, Hl].
Qed.

Lemma name_slash_free (p : Path) : well_formed p = true -> slash_free (name p) = true.
Proof. intros H. apply last_forallb; [exact H | reflexivity]. Qed.

Lemma dotdots_module_file (p : Path) :
  well_formed p = true ->
  dd' (parent p // (name p ++ ".py")%string) <= dd' p.
Proof.
  intros Hp. etransitivity; [apply dotdots_joinpath |].
  pose proof (dotdots_parent p).
  assert (Hs : has_char "/" (name p ++ ".py") = false).
  { rewrite has_char_app. apply name_slash_free in Hp.
    unfold slash_free in Hp. apply negb_true_iff in Hp. rewrite Hp. reflexivity. }
  assert (Hz : dotdots (segments (name p ++ ".py")) = 0).
  { apply dotdots_segments_pieces. rewrite (split_plain _ _ Hs).
    intros x [<- | []] E. apply (f_equal String.length) in E.
    rewrite append_length in E. simpl in E. lia. }
  lia.
Qed.

Lemma dotdots_init (p : Path) : dd' (p // "__init__.py") <= dd' p.
Proof.
  etransitivity; [apply dotdots_joinpath |].
  change (dotdots (segments "__init__.py")) with 0. lia.
Qed.

Lemma module_parts_plain (module : string) :
  has_char "." (Str.join "/" (filter (fun p => negb (String.eqb p ""))
                                     (Str.split "." module))) = false.
Proof.
  apply join_plain; [discriminate |].
  intros x Hx. apply filter_In in Hx. apply (split_piece_plain _ module), Hx.
Qed.

Lemma python_sound (module : string) (f d : Path) :
  well_formed f = true ->
  _resolve_python_module fs root module f = Some d ->
  sound fs (Nat.max (dd' f) (dd' root)) d.
Proof.
  intros Hf. unfold _resolve_python_module.
  set (module_parts := filter (fun p => negb (String.eqb p "")) (Str.split "." module)).
  set (level := List.length (filter (fun p => String.eqb p "") (Str.split "." module))).
  set (parent_ := Nat.iter (level - 1) parent (parent f)).
  set (target := match module_parts with
                 | [] => parent_
                 | _ :: _ => parent_ // Str.join "/" module_parts
                 end).
  destruct (iter_parent (level - 1) (parent f) (well_formed_parent f Hf))
    as [Hpw Hpd]. fold parent_ in Hpw, Hpd.
  pose proof (dotdots_parent f) as Hfd.
  assert (Htw : well_formed target = true).
  { unfold target. destruct module_parts; [exact Hpw |].
    apply well_formed_joinpath, Hpw. }
  assert (Htd : dd' target <= dd' f).
  { unfold target. destruct module_parts as [| m ms] eqn:Em; [simpl; lia |].
    etransitivity; [apply dotdots_joinpath |].
    rewrite dotdots_segments_plain; [simpl; lia |].
    rewrite <- Em. apply module_parts_plain. }
  set (module_path := Str.replace "." "/" module).
  assert (Hmp : has_char "." module_path = false).
  { apply replace_plain. discriminate. }
  assert (absolute :
    (if exists_ fs (root // module_path // "__init__.py")
     then Some (root // module_path // "__init__.py")
     else if exists_ fs (root // (module_path ++ ".py")%string)
          then Some (root // (module_path ++ ".py")%string) else None) = Some d ->
    sound fs (Nat.max (dd' f) (dd' root)) d).
  { destruct (exists_ fs (root // module_path // "__init__.py")) eqn:E1.
    - intros [= <-]. split; [exact E1 | split].
      + apply well_formed_joinpath, well_formed_joinpath, root_well_formed.
      + pose proof (dotdots_init (root // module_path)).
        pose proof (dotdots_joinpath root module_path).
        rewrite (dotdots_segments_plain _ Hmp) in *. simpl in *. lia.
    - destruct (exists_ fs (root // (module_path ++ ".py")%string)) eqn:E2;
        [| discriminate].
      intros [= <-]. split; [exact E2 | split].
      + apply well_formed_joinpath, root_well_formed.
      + pose proof (root_module_path root module_path ".py" Hmp eq_refl
                      (Nat.le_refl 3)). simpl in *. lia. }
  destruct (Str.startswith "." module); [| exact absolute].
  destruct (exists_ fs (target // "__init__.py")) eqn:E1.
  - intros [= <-]. split; [exact E1 | split].
    + apply well_formed_joinpath, Htw.
    + pose proof (dotdots_init target). simpl in *. lia.
  - destruct (exists_ fs (parent target // (name target ++ ".py")%string)) eqn:E2;
      [| exact absolute].
    intros [= <-]. split; [exact E2 | split].
    + apply well_formed_joinpath, well_formed_parent, Htw.
    + pose proof (dotdots_module_file target Htw). simpl in *. lia.
Qed.

End ResolvedPython.

(* ================================================================== *)
(** ** Every direct dependency exists, and is no longer than the file
       system allows *)

Section DirectDependencies.
Import Finite.

Lemma string_of_list_length (l : list ascii) :
  String.length (string_of_list_ascii l) = List.length l.
Proof. induction l as [| c l IH]; simpl; [| rewrite IH]; reflexivity. Qed.

Lemma list_of_string_length (s : string) :
  List.length (list_ascii_of_string s) = String.length s.
Proof. induction s as [| c s IH]; simpl; [| rewrite IH]; reflexivity. Qed.

Lemma group_length (s : list ascii) (gs ge : nat) :
  String.length (Re.group s gs ge) <= List.length s.
Proof.
  unfold Re.group. rewrite string_of_list_length.
  rewrite length_firstn, length_skipn. lia.
Qed.

Lemma scan_length (pat : Re.pattern) (s : list ascii) (prev : option ascii)
      (skip : nat) (x : string) :
  In x (Re.scan pat prev s skip) -> String.length x <= List.length s.
Proof.
  revert prev skip. induction s as [| c s IH]; intros prev skip; simpl.
  - destruct skip; [| intros []].
    destruct (Re.m_items pat prev [] 0 0 0) as [[[len gs] ge] |]; [| intros []].
    intros [<- | []]. apply (group_length []).
  - destruct skip as [| k].
    + destruct (Re.m_items pat prev (c :: s) 0 0 0) as [[[len gs] ge] |].
      * intros [<- | H]; [apply (group_length (c :: s)) |].
        apply IH in H. lia.
      * intros H. apply IH in H. lia.
    + intros H. apply IH in H. lia.
Qed.

Lemma all_matches_length (pats : list Re.pattern) (content x : string) :
  In x (all_matches pats content) -> String.length x <= String.length content.
Proof.
  unfold all_matches. intros H. apply in_flat_map in H.
  destruct H as [pat [_ H]]. unfold Re.finditer in H.
  apply scan_length in H. rewrite list_of_string_length in H. exact H.
Qed.

Variable fs : FS.
Variable root : Path.
Hypothesis root_well_formed : well_formed root = true.

Abbreviation dots := (fun p : Path => dotdots (parts p)).

Lemma direct_dependencies_sound (f d : Path) :
  well_formed f = true ->
  In d (_get_direct_dependencies fs root f) ->
  exists content,
    read_file fs f = Some content
    /\ sound fs (Nat.max (dots f) (dots root + S (String.length content))) d.
Proof.
  intros Hf. unfold _get_direct_dependencies.
  destruct (read_file fs f) as [content |]; [| intros []].
  intros H. exists content. split; [reflexivity |].
  destruct (String.eqb (suffix f) ".py").
  { apply In_collect in H. destruct H as [r [_ H]].
    apply (python_sound fs root root_well_formed r f d Hf) in H.
    revert H. apply sound_weaken. lia. }
  destruct (one_of (suffix f) [".js"; ".jsx"; ".ts"; ".tsx"]).
  { apply In_collect in H. destruct H as [r [_ H]].
    apply (js_sound fs root r f d Hf) in H.
    revert H. apply sound_weaken. lia. }
  destruct (String.eqb (suffix f) ".go").
  { apply In_collect in H. destruct H as [r [_ H]].
    destruct (Str.startswith "." r); [| discriminate].
    apply (go_sound fs root r f d Hf) in H.
    revert H. apply sound_weaken. lia. }
  destruct (one_of (suffix f) [".java"]).
  { apply In_collect in H. destruct H as [r [_ H]].
    apply (java_sound fs root root_well_formed r d) in H.
    revert H. apply sound_weaken. lia. }
  destruct (one_of (suffix f) [".c"; ".cpp"; ".h"; ".hpp"]); [| destruct H].
  apply In_collect in H. destruct H as [r [Hr H]].
  apply all_matches_length in Hr.
  apply (c_sound fs root root_well_formed r f d Hf) in H.
  revert H. apply sound_weaken. lia.
Qed.

End DirectDependencies.

Lemma universe_of_closed (entries : list (list string * Node)) (root : Path)
      (focus_file : string) :
  Finite.well_formed root = true ->
  closed (mkfs entries) root (focus_path_of root focus_file)
         (Finite.universe_of entries root) = true.
Proof.
  intros Hr. unfold closed. apply forallb_forall. intros f Hf.
  apply forallb_forall. intros d Hd. apply mem_In.
  assert (Hfs : Finite.well_formed f = true
                /\ Finite.dotdots (parts f) <= Finite.bound entries root).
  { destruct Hf as [<- | Hf]; [| apply universe_of_sound, Hf]. split.
    - apply well_formed_resolve, well_formed_joinpath, Hr.
    - unfold focus_path_of. rewrite resolve_plain. lia. }
  destruct Hfs as [Hw Hb].
  destruct (direct_dependencies_sound (mkfs entries) root Hr f d Hw Hd)
    as [content [Hc Hs]].
  apply read_file_bound in Hc.
  apply universe_of_In. revert Hs. apply sound_weaken.
  unfold Finite.bound in *. cbv beta. lia.
Qed.

(* ================================================================== *)
(** ** Termination of the traversal *)

Lemma trace_Return_invariant (fs : FS) (root : Path) (fuel : nat)
      (focus_file : string) (st : state) :
  trace fs root fuel focus_file = Some (Return st) ->
  to_process st = [] /\ NoDup (expanded st) /\ NoDup (dependencies st).
Proof.
  intros H. apply trace_Return in H. destruct H as [_ H].
  apply loop_invariant in H; [| apply initial_invariant].
  destruct H as [[_ Hn Ho _] [_ Hp]]. auto.
Qed.



(* ================================================================== *)
(** ** An import line followed by further lines *)

Section FurtherLines.
Import Re.

Lemma rep_after_newline (k : continuation) (min : nat) (greedy : bool)
      (p : ascii -> bool) (s : list ascii) (n cnt : nat) :
  (forall t m, k (Some newline) t m = k None t m) ->
  rep k min greedy p s (Some newline) n cnt = rep k min greedy p s None n cnt.
Proof.
  intros Hk. destruct s as [| c s]; simpl; rewrite Hk; reflexivity.
Qed.

(** The start of the text and the start of a line are the same place for
    a pattern. *)
Lemma m_items_after_newline (its : pattern) (s : list ascii) (n gs ge : nat) :
  m_items its (Some newline) s n gs ge = m_items its None s n gs ge.
Proof.
  revert s n gs ge. induction its as [| it its IH]; intros s n gs ge;
    [reflexivity |].
  destruct it as [| p | min greedy p | |]; cbn [m_items].
  - change (Ascii.eqb newline newline) with true. cbv iota. apply IH.
  - reflexivity.
  - apply rep_after_newline. intros t m. apply IH.
  - apply IH.
  - apply IH.
Qed.

Lemma scan_after_newline (pat : pattern) (s : list ascii) :
  scan pat (Some newline) s 0 = scan pat None s 0.
Proof.
  destruct s as [| c s]; simpl; rewrite m_items_after_newline; reflexivity.
Qed.

(** Inside a line a pattern anchored at the line start matches nowhere;
    the scan reaches the next line as if it started there. *)
Lemma scan_bol_line (K : pattern) (l after : list ascii) (c : ascii) (skip : nat) :
  dot c = true -> forallb dot l = true -> skip <= List.length l ->
  scan (Bol :: K) (Some c) (l ++ newline :: after) skip
  = scan (Bol :: K) None after 0.
Proof.
  revert c skip. induction l as [| x l IH]; intros c skip Hc Hl Hs.
  - simpl in Hs. assert (skip = 0) by lia. subst skip.
    unfold dot in Hc. apply negb_true_iff in Hc.
    cbn [app scan m_items]. rewrite Hc. apply scan_after_newline.
  - simpl in Hl. apply andb_true_iff in Hl. destruct Hl as [Hx Hl].
    destruct skip as [| skip]; cbn [app scan m_items].
    + unfold dot in Hc. apply negb_true_iff in Hc. rewrite Hc.
      apply IH; [exact Hx | exact Hl | lia].
    + apply IH; [exact Hx | exact Hl | simpl in Hs; lia].
Qed.

Variables indent sep name_tail rest after : list ascii.
Variable c0 : ascii.
Hypothesis indent_blank : forallb Text.blank indent = true.
Hypothesis sep_blank : forallb Text.blank sep = true.
Hypothesis sep_nonempty : sep <> [].
Hypothesis c0_alpha : alpha_ c0 = true.
Hypothesis tail_word : forallb word_dot name_tail = true.
Hypothesis rest_line : forallb dot rest = true.

Abbreviation first_line :=
  (Text.import_line indent sep name_tail (","%char :: rest) c0).
Abbreviation whole :=
  (Text.import_line indent sep name_tail
                    (","%char :: rest ++ newline :: after) c0).

Lemma whole_split : whole = first_line ++ newline :: after.
Proof.
  unfold Text.import_line. rewrite <- !app_assoc. reflexivity.
Qed.

Lemma first_line_cons :
  exists c l, first_line = c :: l /\ dot c = true /\ forallb dot l = true
              /\ List.length indent + 6 + List.length sep
                 + S (List.length name_tail) <= List.length l.
Proof.
  destruct (line_cons indent sep name_tail (","%char :: rest) c0)
    as [c [l [E [Hc Hl]]]]; auto.
  exists c, l. repeat (split; [assumption |]).
  apply (f_equal (@List.length ascii)) in E. unfold Text.import_line in E.
  repeat first
    [ rewrite length_app in E
    | progress (cbn [List.length Text.chars list_ascii_of_string app] in E) ].
  lia.
Qed.

Lemma scan_py_import_lines :
  scan Patterns.py_import None whole 0
  = string_of_list_ascii (c0 :: name_tail)
    :: scan Patterns.py_import None after 0.
Proof.
  pose proof (py_import_at_start indent sep name_tail
                (","%char :: rest ++ newline :: after) c0 indent_blank
                sep_blank sep_nonempty c0_alpha tail_word eq_refl) as Hm.
  assert (Hg : group whole (List.length indent + 6 + List.length sep)
                     (List.length indent + 6 + List.length sep
                      + S (List.length name_tail))
               = string_of_list_ascii (c0 :: name_tail)).
  { unfold Text.import_line.
    rewrite (app_assoc indent), (app_assoc (indent ++ _)).
    apply group_span; [rewrite !length_app; simpl; lia | simpl; lia]. }
  destruct first_line_cons as [c [l [E [Hc [Hl Hn]]]]].
  rewrite whole_split, E in *. cbn [app] in *.
  rewrite (scan_hit _ _ _ _ _ _ _ Hm), Hg. f_equal.
  unfold Patterns.py_import. cbn [app].
  apply scan_bol_line; [exact Hc | exact Hl | lia].
Qed.

Lemma scan_from_lines (K : pattern) :
  scan (Bol :: Rep 0 true space :: Chr (only "f") :: K) None whole 0
  = scan (Bol :: Rep 0 true space :: Chr (only "f") :: K) None after 0.
Proof.
  assert (Hm : m_items (Bol :: Rep 0 true space :: Chr (only "f") :: K)
                       None whole 0 0 0 = None).
  { cbn [m_items]. apply rep_blocked with (q := only "f").
    - split; intros; cbn [m_items]; [reflexivity |].
      match goal with H : only _ _ = false |- _ => rewrite H end. reflexivity.
    - apply from_blocked. exact indent_blank. }
  destruct first_line_cons as [c [l [E [Hc [Hl Hn]]]]].
  rewrite whole_split, E in *. cbn [app] in *.
  rewrite (scan_miss _ _ _ _ Hm).
  apply scan_bol_line; [exact Hc | exact Hl | lia].
Qed.

Lemma all_matches_lines :
  flat_map (fun pat => scan pat None whole 0) Patterns.python
  = string_of_list_ascii (c0 :: name_tail)
    :: flat_map (fun pat => scan pat None after 0) Patterns.python.
Proof.
  unfold Patterns.python. cbn [flat_map].
  rewrite scan_py_import_lines.
  unfold Patterns.py_from, Patterns.py_from_relative. cbn [app lit].
  rewrite !scan_from_lines. reflexivity.
Qed.

End FurtherLines.

Lemma all_matches_import_lines (indent sep a rest after : string) :
  Text.all Text.blank indent = true ->
  Text.all Text.blank sep = true ->
  Text.nonempty sep = true ->
  Text.module_name a = true ->
  Text.all Re.dot rest = true ->
  all_matches Patterns.python
    (indent ++ "import" ++ sep ++ a ++ "," ++ rest ++ Text.nl ++ after)
  = a :: all_matches Patterns.python after.
Proof.
  intros Hi Hs Hn Ha Hr. destruct a as [| c0 a']; [discriminate |].
  simpl in Ha. apply andb_true_iff in Ha. destruct Ha as [Hc Ht].
  assert (E : Text.chars (indent ++ "import" ++ sep ++ String c0 a' ++ ","
                                 ++ rest ++ Text.nl ++ after)
              = Text.import_line (Text.chars indent) (Text.chars sep)
                  (Text.chars a')
                  (","%char :: Text.chars rest ++ Re.newline :: Text.chars after)
                  c0).
  { rewrite !chars_app. reflexivity. }
  unfold all_matches, Re.finditer. unfold Text.chars in E at 1. rewrite E.
  rewrite all_matches_lines; auto using nonempty_chars.
  unfold Text.chars. simpl. rewrite string_of_list_ascii_of_string. reflexivity.
Qed.

(** C10: on a source line that imports several modules separated by
    commas, [indent import sep a, rest], the three patterns together
    capture the first module name [a] and nothing else, whatever follows
    the first comma: the parser yields what [a] resolves to.  When further
    lines follow, the references are [a] and those of the further lines,
    so no module after the comma contributes a dependency. *)
Theorem python_import_list_keeps_first
        (fs : FS) (root file_path : Path) (indent sep a rest : string) :
  Text.all Text.blank indent = true ->
  Text.all Text.blank sep = true ->
  Text.nonempty sep = true ->
  Text.module_name a = true ->
  Text.all Re.dot rest = true ->
  all_matches Patterns.python (indent ++ "import" ++ sep ++ a ++ "," ++ rest)
  = [a]
  /\ _parse_python_imports fs root
       (indent ++ "import" ++ sep ++ a ++ "," ++ rest) file_path
     = match _resolve_python_module fs root a file_path with
       | Some resolved => [resolved]
       | None => []
       end
  /\ (forall after,
         all_matches Patterns.python
           (indent ++ "import" ++ sep ++ a ++ "," ++ rest ++ Text.nl ++ after)
         = a :: all_matches Patterns.python after)
  /\ (forall after d,
         In d (_parse_python_imports fs root
                 (indent ++ "import" ++ sep ++ a ++ "," ++ rest ++ Text.nl
                         ++ after) file_path)
         <-> _resolve_python_module fs root a file_path = Some d
             \/ In d (_parse_python_imports fs root after file_path)).
Proof.
  intros Hi Hs Hn Ha Hr.
  pose proof (all_matches_import_line indent sep a rest Hi Hs Hn Ha Hr) as H.
  split; [exact H | split; [| split]].
  - unfold _parse_python_imports. rewrite H. apply collect_one.
  - intros after. apply all_matches_import_lines; assumption.
  - intros after d. unfold _parse_python_imports.
    rewrite (all_matches_import_lines indent sep a rest after Hi Hs Hn Ha Hr).
    rewrite !In_collect. split.
    + intros [r [[<- | Hin] Hd]]; [left; exact Hd | right; exists r; auto].
    + intros [Hd | [r [Hin Hd]]]; [exists a | exists r]; simpl; auto.
Qed.

Lemma python_import_list_keeps_first_abc :
  all_matches Patterns.python "import a, b, c" = ["a"]
  /\ _parse_python_imports Examples.fs_commas Examples.repo "import a, b, c"
       (Examples.P ["repo"; "main.py"])
     = [Examples.P ["repo"; "a.py"]]
  /\ exists_ Examples.fs_commas (Examples.P ["repo"; "b.py"]) = true
  /\ exists_ Examples.fs_commas (Examples.P ["repo"; "c.py"]) = true.
Proof.
  destruct (python_import_list_keeps_first
              Examples.fs_commas Examples.repo (Examples.P ["repo"; "main.py"])
              "" " " "a" " b, c") as [H1 [H2 _]]; try reflexivity.
  split; [exact H1 | split; [exact H2 | split; reflexivity]].
Defined.

(* ================================================================== *)
(** ** The result of the traversal is the set of files the focus file
       reaches *)

Section Closure.

Variable fs : FS.
Variable repo_root : Path.
Variable focus_path : Path.

Abbreviation direct := (_get_direct_dependencies fs repo_root).
Abbreviation visit1 := (visit_dep focus_path).

Lemma visit_dep_dependencies (st : state) (dep d : Path) :
  In d (dependencies (visit1 st dep))
  <-> In d (dependencies st)
      \/ (d = dep /\ dep <> focus_path /\ ~ In dep (dependencies st)).
Proof.
  unfold visit_dep.
  destruct (mem dep (dependencies st)) eqn:Em; simpl.
  - apply mem_In in Em. split; [auto | intros [H | [_ [_ H]]]; tauto].
  - apply mem_not_In in Em. destruct (path_eqb dep focus_path) eqn:Ef; simpl.
    + apply path_eqb_eq in Ef. split; [auto | intros [H | [_ [H _]]]; tauto].
    + apply path_eqb_neq in Ef. rewrite In_add. split.
      * intros [-> | H]; auto.
      * intros [H | [-> _]]; auto.
Qed.

Lemma visit_dep_to_process (st : state) (dep x : Path) :
  In x (to_process (visit1 st dep))
  <-> In x (to_process st)
      \/ (x = dep /\ dep <> focus_path /\ ~ In dep (dependencies st)
          /\ ~ In dep (visited st)).
Proof.
  unfold visit_dep.
  destruct (mem dep (dependencies st)) eqn:Em; simpl.
  - apply mem_In in Em. split; [auto | intros [H | [_ [_ [H _]]]]; tauto].
  - apply mem_not_In in Em. destruct (path_eqb dep focus_path) eqn:Ef; simpl.
    + apply path_eqb_eq in Ef. split; [auto | intros [H | [_ [H _]]]; tauto].
    + apply path_eqb_neq in Ef. destruct (mem dep (visited st)) eqn:Ev; simpl.
      * apply mem_In in Ev. split; [auto | intros [H | [_ [_ [_ H]]]]; tauto].
      * apply mem_not_In in Ev. split.
        -- intros [<- | H]; [right | left]; auto.
        -- intros [H | [-> _]]; auto.
Qed.

(** The [for] loop over the direct dependencies [ds] of one file. *)
Lemma fold_visit_explored (ds : list Path) (st : state) :
  let st' := fold_left visit1 ds st in
  (forall d, In d (dependencies st) -> In d (dependencies st'))
  /\ (forall d, In d ds -> d = focus_path \/ In d (dependencies st'))
  /\ (forall d, In d (dependencies st') ->
                In d (dependencies st) \/ (In d ds /\ d <> focus_path))
  /\ (forall x, In x (to_process st) -> In x (to_process st'))
  /\ (forall x, In x (to_process st') ->
                In x (to_process st) \/ In x (dependencies st'))
  /\ (forall d, In d (dependencies st') ->
                In d (dependencies st) \/ In d (visited st)
                \/ In d (to_process st')).
Proof.
  revert st. induction ds as [| dep ds IH]; intros st; cbn [fold_left].
  - cbv zeta. repeat split; auto. intros d [].
  - specialize (IH (visit1 st dep)). cbv zeta in *.
    destruct IH as [I1 [I2 [I3 [I4 [I5 I6]]]]].
    rewrite visit_dep_visited in I6.
    split; [| split; [| split; [| split; [| split]]]].
    + intros d H. apply I1, visit_dep_dependencies. auto.
    + intros d [-> | H]; [| apply I2, H].
      destruct (path_eqb d focus_path) eqn:Ef;
        [left; apply path_eqb_eq, Ef | right].
      apply path_eqb_neq in Ef. apply I1, visit_dep_dependencies.
      destruct (mem d (dependencies st)) eqn:Em.
      * left. apply mem_In, Em.
      * right. apply mem_not_In in Em. auto.
    + intros d H. apply I3 in H. destruct H as [H | [H Hn]].
      * apply visit_dep_dependencies in H.
        destruct H as [H | [-> [Hf _]]]; [auto | right; split; [left |]; auto].
      * right. split; [right |]; auto.
    + intros x H. apply I4, visit_dep_to_process. auto.
    + intros x H. apply I5 in H. destruct H as [H | H]; [| auto].
      apply visit_dep_to_process in H. destruct H as [H | [-> [Hf [Hd _]]]]; [auto |].
      right. apply I1, visit_dep_dependencies. auto.
    + intros d H. apply I6 in H. destruct H as [H | [H | H]]; auto.
      apply visit_dep_dependencies in H.
      destruct H as [H | [-> [Hf Hd]]]; [auto |].
      destruct (mem dep (visited st)) eqn:Ev.
      * right. left. apply mem_In, Ev.
      * right. right. apply I4, visit_dep_to_process.
        apply mem_not_In in Ev. auto.
Qed.

Abbreviation known := (explored fs repo_root focus_path).

Lemma iteration_explored (st : state) (current_file : Path) (rest : list Path) :
  to_process st = current_file :: rest -> known st ->
  known (iteration fs repo_root focus_path st current_file rest).
Proof.
  intros E [Hf Hc Hp Ht Hs]. rewrite E in *. unfold iteration.
  destruct (mem current_file (visited st)) eqn:Ev.
  - apply mem_In in Ev. constructor; simpl; auto.
    + destruct Hf as [H | [<- | H]]; auto.
    + intros d H. destruct (Hp d H) as [H1 | [<- | H1]]; auto.
    + intros v H. apply Ht. right. exact H.
  - apply mem_not_In in Ev.
    pose proof (fold_visit_explored (direct current_file)
                  (mkState (dependencies st) (add current_file (visited st))
                           rest (expanded st ++ [current_file]))) as F.
    cbv zeta in F. simpl in F.
    destruct F as [F1 [F2 [F3 [F4 [F5 F6]]]]].
    assert (Hcur : current_file = focus_path
                   \/ reaches fs repo_root focus_path current_file).
    { destruct (Ht current_file (or_introl eq_refl)) as [H | H]; [auto |].
      right. apply Hs, H. }
    constructor; rewrite ?fold_visit_visited; simpl.
    + destruct Hf as [H | [<- | H]].
      * left. apply In_add. auto.
      * left. apply In_add. auto.
      * right. apply F4, H.
    + intros v d Hv Hd. apply In_add in Hv. destruct Hv as [-> | Hv].
      * apply F2, Hd.
      * destruct (Hc v d Hv Hd) as [H | H]; auto.
    + intros d Hd. apply F6 in Hd. destruct Hd as [Hd | [Hd | Hd]]; auto.
      destruct (Hp d Hd) as [H | [<- | H]].
      * left. apply In_add. auto.
      * left. apply In_add. auto.
      * right. apply F4, H.
    + intros v Hv. apply F5 in Hv. destruct Hv as [Hv | Hv]; [| auto].
      destruct (Ht v (or_intror Hv)) as [H | H]; auto.
    + intros d Hd. apply F3 in Hd. destruct Hd as [Hd | [Hd Hn]]; [auto |].
      split; [exact Hn |].
      destruct Hcur as [-> | Hcur];
        [apply reaches_direct, Hd | eapply reaches_next; eauto].
Qed.

Lemma loop_explored (fuel : nat) (st st' : state) :
  known st ->
  while_to_process fs repo_root fuel focus_path st = Some st' -> known st'.
Proof.
  revert st. induction fuel as [| fuel IH]; intros st H; simpl.
  - destruct (to_process st); [| discriminate]. intros [= <-]. exact H.
  - destruct (to_process st) as [| c rest] eqn:E; [intros [= <-]; exact H |].
    apply IH, iteration_explored; assumption.
Qed.

Lemma initial_explored : known (initial_state focus_path).
Proof.
  constructor; simpl; try tauto.
  intros v [<- | []]. auto.
Qed.

(** Once the work list is empty, the dependencies are what the focus
    file reaches. *)
Lemma explored_reaches (st : state) (d : Path) :
  known st -> to_process st = [] ->
  In d (dependencies st) <-> d <> focus_path /\ reaches fs repo_root focus_path d.
Proof.
  intros [Hf Hc Hp Ht Hs] E. rewrite E in *. split; [apply Hs |].
  intros [Hn Hr].
  assert (Hv : In focus_path (visited st)) by (destruct Hf as [H | []]; exact H).
  assert (G : forall x, reaches fs repo_root focus_path x ->
                        x = focus_path \/ In x (dependencies st)).
  { intros x Hx. induction Hx as [x Hx | g x Hg IH Hx].
    - apply (Hc focus_path x Hv Hx).
    - destruct IH as [-> | IH]; [apply (Hc focus_path x Hv Hx) |].
      destruct (Hp g IH) as [H | []]. apply (Hc g x H Hx). }
  destruct (G d Hr) as [H | H]; [contradiction | exact H].
Qed.

End Closure.

Lemma trace_dependencies_reaches (fs : FS) (root : Path) (fuel : nat)
      (focus_file : string) (deps : list Path) (d : Path) :
  trace_dependencies fs root fuel focus_file = Some (Return deps) ->
  In d deps
  <-> d <> focus_path_of root focus_file
      /\ reaches fs root (focus_path_of root focus_file) d.
Proof.
  intros H. apply trace_dependencies_Return in H. destruct H as [st [H ->]].
  apply trace_Return in H. destruct H as [_ H].
  pose proof (loop_explored fs root _ _ _ _ (initial_explored fs root _) H) as K.
  apply loop_invariant in H; [| apply initial_invariant].
  destruct H as [_ [_ Hp]]. apply explored_reaches; assumption.
Qed.

(* ================================================================== *)
(** ** Every reported dependency exists *)

Section Existence.

Variable fs : FS.
Variable root : Path.

Lemma python_module_exists (module : string) (f d : Path) :
  _resolve_python_module fs root module f = Some d -> exists_ fs d = true.
Proof.
  unfold _resolve_python_module.
  destruct (Str.startswith "." module);
    repeat match goal with
           | |- context [if exists_ fs ?p then _ else _] =>
               let E := fresh "E" in destruct (exists_ fs p) eqn:E
           end;
    intros H; inversion H; subst; assumption.
Qed.

Lemma js_import_exists (import_path : string) (f d : Path) :
  _resolve_js_import fs root import_path f = Some d ->
  exists_ fs d = true /\ is_relative_to d root = true.
Proof.
  unfold _resolve_js_import.
  destruct (Str.startswith "." import_path); [| discriminate].
  intros H. apply find_some in H. destruct H as [_ H].
  apply andb_true_iff in H. exact H.
Qed.

Lemma java_import_exists (import_path : string) (d : Path) :
  _resolve_java_import fs root import_path = Some d -> exists_ fs d = true.
Proof.
  unfold _resolve_java_import.
  destruct (exists_ fs _) eqn:E; [| discriminate]. intros [= <-]. exact E.
Qed.

Lemma c_include_exists (include_path : string) (f d : Path) :
  _resolve_c_include fs root include_path f = Some d -> exists_ fs d = true.
Proof.
  unfold _resolve_c_include.
  destruct (exists_ fs (resolve _) && _) eqn:E.
  - intros [= <-]. apply andb_true_iff in E. apply E.
  - destruct (exists_ fs (root // include_path)) eqn:E2; [| discriminate].
    intros [= <-]. exact E2.
Qed.

Lemma direct_dependency_exists (f d : Path) :
  In d (_get_direct_dependencies fs root f) -> exists_ fs d = true.
Proof.
  unfold _get_direct_dependencies.
  destruct (read_file fs f) as [content |]; [| intros []].
  destruct (String.eqb (suffix f) ".py").
  { intros H. apply In_collect in H. destruct H as [r [_ H]].
    apply python_module_exists in H. exact H. }
  destruct (one_of (suffix f) [".js"; ".jsx"; ".ts"; ".tsx"]).
  { intros H. apply In_collect in H. destruct H as [r [_ H]].
    apply js_import_exists in H. apply H. }
  destruct (String.eqb (suffix f) ".go").
  { intros H. apply In_collect in H. destruct H as [r [_ H]].
    destruct (Str.startswith "." r); [| discriminate].
    apply go_import_is_dir, is_dir_exists in H. exact H. }
  destruct (one_of (suffix f) [".java"]).
  { intros H. apply In_collect in H. destruct H as [r [_ H]].
    apply java_import_exists in H. exact H. }
  destruct (one_of (suffix f) [".c"; ".cpp"; ".h"; ".hpp"]); [| intros []].
  intros H. apply In_collect in H. destruct H as [r [_ H]].
  apply c_include_exists in H. exact H.
Qed.

Lemma direct_dependency_of_readable (f d : Path) :
  In d (_get_direct_dependencies fs root f) ->
  exists content, read_file fs f = Some content.
Proof.
  unfold _get_direct_dependencies.
  destruct (read_file fs f) as [content |]; [eauto | intros []].
Qed.

Lemma reaches_exists (f d : Path) : reaches fs root f d -> exists_ fs d = true.
Proof. intros H. destruct H; eapply direct_dependency_exists; eauto. Qed.

End Existence.

(** X1: when [trace_dependencies] returns, its result is exactly the set
    of files that the focus file reaches through chains of direct
    dependencies, the focus file itself left out; the order in which the
    work list and the sets are walked plays no part in it. *)
Theorem trace_dependencies_is_closure
        (fs : FS) (root : Path) (fuel : nat) (focus_file : string)
        (deps : list Path) :
  trace_dependencies fs root fuel focus_file = Some (Return deps) ->
  forall d,
    In d deps
    <-> d <> focus_path_of root focus_file
        /\ reaches fs root (focus_path_of root focus_file) d.
Proof.
  intros H d. apply trace_dependencies_Return in H. destruct H as [st [H ->]].
  apply trace_Return in H. destruct H as [_ H].
  pose proof (loop_explored fs root _ _ _ _ (initial_explored fs root _) H) as K.
  apply loop_invariant in H; [| apply initial_invariant].
  destruct H as [_ [_ Hp]]. apply explored_reaches; assumption.
Qed.

Lemma trace_dependencies_is_closure_cycle :
  trace_dependencies Examples.fs_cycle Examples.repo 4 "a.py"
  = Some (Return [Examples.P ["repo"; "b.py"]; Examples.P ["repo"; "c.py"]])
  /\ reaches Examples.fs_cycle Examples.repo (focus_path_of Examples.repo "a.py")
             (Examples.P ["repo"; "c.py"])
  /\ ~ In (focus_path_of Examples.repo "a.py")
          [Examples.P ["repo"; "b.py"]; Examples.P ["repo"; "c.py"]].
Proof.
  assert (T : trace_dependencies Examples.fs_cycle Examples.repo 4 "a.py"
              = Some (Return [Examples.P ["repo"; "b.py"];
                              Examples.P ["repo"; "c.py"]]))
    by (vm_compute; reflexivity).
  pose proof (trace_dependencies_is_closure _ _ _ _ _ T) as H.
  split; [exact T | split].
  - apply H. right. left. reflexivity.
  - intros Hin. apply H in Hin. destruct Hin as [Hn _]. apply Hn. reflexivity.
Defined.

(** X2: every path that [trace_dependencies] returns exists in the file
    system, and is a direct dependency of the focus file or of another
    returned path, a file that could be read. *)
Theorem trace_dependencies_reports_existing
        (fs : FS) (root : Path) (fuel : nat) (focus_file : string)
        (deps : list Path) (d : Path) :
  trace_dependencies fs root fuel focus_file = Some (Return deps) ->
  In d deps ->
  exists_ fs d = true
  /\ exists g content,
       (g = focus_path_of root focus_file \/ In g deps)
       /\ read_file fs g = Some content
       /\ In d (_get_direct_dependencies fs root g).
Proof.
  intros T Hd.
  pose proof (trace_dependencies_reaches fs root fuel focus_file deps) as R.
  destruct (proj1 (R d T) Hd) as [_ Hr].
  split; [eapply reaches_exists; eauto |].
  destruct Hr as [d Hr | g d Hg Hr].
  - destruct (direct_dependency_of_readable _ _ _ _ Hr) as [content Hc].
    exists (focus_path_of root focus_file), content. auto.
  - destruct (direct_dependency_of_readable _ _ _ _ Hr) as [content Hc].
    exists g, content. split; [| auto].
    destruct (path_eqb g (focus_path_of root focus_file)) eqn:E.
    + left. apply path_eqb_eq, E.
    + right. apply (R g T). split; [apply path_eqb_neq, E | exact Hg].
Qed.

Lemma trace_dependencies_reports_existing_cycle :
  trace_dependencies Examples.fs_cycle Examples.repo 4 "a.py"
  = Some (Return [Examples.P ["repo"; "b.py"]; Examples.P ["repo"; "c.py"]])
  /\ exists_ Examples.fs_cycle (Examples.P ["repo"; "c.py"]) = true.
Proof.
  assert (T : trace_dependencies Examples.fs_cycle Examples.repo 4 "a.py"
              = Some (Return [Examples.P ["repo"; "b.py"];
                              Examples.P ["repo"; "c.py"]]))
    by (vm_compute; reflexivity).
  split; [exact T |].
  apply (trace_dependencies_reports_existing _ _ _ _ _
           (Examples.P ["repo"; "c.py"]) T).
  right. left. reflexivity.
Defined.

(* ================================================================== *)
(** ** JavaScript and TypeScript: which candidate wins *)

Lemma find_map_first {A B : Type} (test : B -> bool) (g : A -> B) (l : list A)
      (x : B) :
  find test (map g l) = Some x ->
  exists before e after,
    l = before ++ e :: after /\ x = g e /\ test x = true
    /\ forall y, In y before -> test (g y) = false.
Proof.
  induction l as [| a l IH]; simpl; [discriminate |].
  destruct (test (g a)) eqn:E.
  - intros [= <-]. exists [], a, l. repeat split; auto. intros y [].
  - intros H. destruct (IH H) as [before [e [after [-> [-> [Ht Hb]]]]]].
    exists (a :: before), e, after. repeat split; auto.
    intros y [<- | Hy]; auto.
Qed.

Lemma find_map_some {A B : Type} (test : B -> bool) (g : A -> B) (l : list A)
      (a : A) :
  In a l -> test (g a) = true -> exists x, find test (map g l) = Some x.
Proof.
  induction l as [| b l IH]; simpl; [intros [] |].
  intros [-> | H] Ht.
  - rewrite Ht. eauto.
  - destruct (test (g b)); [eauto | apply IH; assumption].
Qed.

(** X3: the JS resolver never resolves a reference that does not start
    with a dot.  When it resolves one, the result exists and lies within
    the repository root, and it is the first of the nine candidates
    (target plus suffix, in the order of the list) that passes both
    tests; it resolves whenever some candidate passes them.  Hence every
    dependency the JS parser reports exists and lies within the root. *)
Theorem js_import_first_candidate (fs : FS) (root : Path) :
  (forall import_path f,
      Str.startswith "." import_path = false ->
      _resolve_js_import fs root import_path f = None)
  /\ (forall import_path f d,
         _resolve_js_import fs root import_path f = Some d ->
         exists_ fs d = true /\ is_relative_to d root = true
         /\ exists before ext after,
              js_suffixes = before ++ ext :: after
              /\ d = of_string
                       (to_string (resolve (parent f // import_path)) ++ ext)
              /\ forall e, In e before ->
                   exists_ fs (of_string
                                 (to_string (resolve (parent f // import_path))
                                            ++ e))
                   && is_relative_to
                        (of_string
                           (to_string (resolve (parent f // import_path)) ++ e))
                        root = false)
  /\ (forall import_path f ext,
         Str.startswith "." import_path = true ->
         In ext js_suffixes ->
         exists_ fs (of_string
                       (to_string (resolve (parent f // import_path)) ++ ext))
         && is_relative_to
              (of_string (to_string (resolve (parent f // import_path)) ++ ext))
              root = true ->
         exists d, _resolve_js_import fs root import_path f = Some d)
  /\ (forall content f d,
         In d (_parse_js_imports fs root content f) ->
         exists_ fs d = true /\ is_relative_to d root = true).
Proof.
  split; [| split; [| split]].
  - intros import_path f H. unfold _resolve_js_import. rewrite H. reflexivity.
  - intros import_path f d H.
    destruct (js_import_exists fs root _ _ _ H) as [He Hr].
    split; [exact He | split; [exact Hr |]].
    unfold _resolve_js_import in H.
    destruct (Str.startswith "." import_path); [| discriminate].
    apply find_map_first in H.
    destruct H as [before [ext [after [E [-> [_ Hb]]]]]].
    exists before, ext, after. auto.
  - intros import_path f ext Hs Hin Hok. unfold _resolve_js_import. rewrite Hs.
    apply (find_map_some
             (fun check_path => exists_ fs check_path
                                && is_relative_to check_path root)
             (fun e => of_string
                         (to_string (resolve (parent f // import_path)) ++ e))
             js_suffixes ext Hin Hok).
  - intros content f d H. unfold _parse_js_imports in H.
    apply In_collect in H. destruct H as [r [_ H]].
    apply (js_import_exists fs root _ _ _ H).
Qed.

Lemma js_import_first_candidate_util :
  _resolve_js_import Examples.fs_util Examples.repo "./util.ts"
                     (Examples.P ["repo"; "a.js"])
  = Some (Examples.P ["repo"; "util.ts"])
  /\ is_relative_to (Examples.P ["repo"; "util.ts"]) Examples.repo = true
  /\ _resolve_js_import Examples.fs_util Examples.repo "util"
                        (Examples.P ["repo"; "a.js"])
     = None.
Proof.
  destruct (js_import_first_candidate Examples.fs_util Examples.repo)
    as [H1 [H2 _]].
  assert (R : _resolve_js_import Examples.fs_util Examples.repo "./util.ts"
                (Examples.P ["repo"; "a.js"])
              = Some (Examples.P ["repo"; "util.ts"])) by (vm_compute; reflexivity).
  split; [exact R | split].
  - apply (H2 _ _ _ R).
  - apply H1. reflexivity.
Defined.

(* ================================================================== *)
(** ** Dotted names: cutting and joining *)

Section DottedNames.
Import Names Finite.

Lemma word_not_dot (c : ascii) : Re.word c = true -> Ascii.eqb "." c = false.
Proof. by_cases c. Qed.

Lemma word_not_slash (c : ascii) : Re.word c = true -> Ascii.eqb "/" c = false.
Proof. by_cases c. Qed.

Lemma all_has_char (p : ascii -> bool) (a : ascii) (s : string) :
  (forall c, p c = true -> Ascii.eqb a c = false) ->
  Text.all p s = true -> has_char a s = false.
Proof.
  intros Hp. unfold Text.all, Text.chars, has_char.
  induction (list_ascii_of_string s) as [| c l IH]; simpl; [reflexivity |].
  intros H. apply andb_true_iff in H. destruct H as [Hc Hl].
  rewrite (Hp c Hc), (IH Hl). reflexivity.
Qed.

Lemma identifier_plain (s : string) :
  identifier s = true ->
  has_char "." s = false /\ has_char "/" s = false /\ s <> "".
Proof.
  unfold identifier. intros H. apply andb_true_iff in H. destruct H as [Hn Hw].
  split; [| split].
  - apply (all_has_char Re.word); [apply word_not_dot | exact Hw].
  - apply (all_has_char Re.word); [apply word_not_slash | exact Hw].
  - intros ->. discriminate.
Qed.

Lemma identifiers_forall (l : list string) :
  identifiers l = true -> l <> [] /\ forall s, In s l -> identifier s = true.
Proof.
  destruct l as [| x l]; [discriminate |]. unfold identifiers.
  intros H. split; [discriminate | apply forallb_forall, H].
Qed.

Lemma split_join (sep : ascii) (l : list string) :
  l <> [] -> (forall s, In s l -> has_char sep s = false) ->
  Str.split sep (String.concat (String sep "") l) = l.
Proof.
  induction l as [| x l IH]; [contradiction |]. intros _ H.
  destruct l as [| y l].
  - simpl. apply split_plain, H. left. reflexivity.
  - change (String.concat (String sep "") (x :: y :: l))
      with (x ++ String sep (String.concat (String sep "") (y :: l)))%string.
    rewrite split_app, (split_plain sep x) by (apply H; left; reflexivity).
    cbn [Str.split removelast last app hd tl]. rewrite Ascii.eqb_refl.
    rewrite IH by (try discriminate; intros s Hs; apply H; right; exact Hs).
    cbn [hd tl]. rewrite append_nil_r. reflexivity.
Qed.

Lemma replace_app (a b : ascii) (x y : string) :
  Str.replace a b (x ++ y) = (Str.replace a b x ++ Str.replace a b y)%string.
Proof. induction x as [| c x IH]; simpl; [| rewrite IH]; reflexivity. Qed.

Lemma replace_id (a b : ascii) (s : string) :
  has_char a s = false -> Str.replace a b s = s.
Proof.
  unfold has_char. induction s as [| c s IH]; simpl; [reflexivity |].
  intros H. apply orb_false_iff in H. destruct H as [Hc Hs].
  rewrite Ascii.eqb_sym, Hc, (IH Hs). reflexivity.
Qed.

Lemma replace_times (a b : ascii) (k : nat) :
  Str.replace a b (times k a) = times k b.
Proof.
  induction k as [| k IH]; simpl; [reflexivity |].
  rewrite Ascii.eqb_refl, IH. reflexivity.
Qed.

Lemma replace_join (a b : ascii) (l : list string) :
  (forall s, In s l -> has_char a s = false) ->
  Str.replace a b (String.concat (String a "") l) = String.concat (String b "") l.
Proof.
  induction l as [| x l IH]; intros H; [reflexivity |].
  destruct l as [| y l].
  - simpl. apply replace_id, H. left. reflexivity.
  - change (String.concat (String a "") (x :: y :: l))
      with (x ++ String a (String.concat (String a "") (y :: l)))%string.
    change (String.concat (String b "") (x :: y :: l))
      with (x ++ String b (String.concat (String b "") (y :: l)))%string.
    rewrite replace_app, (replace_id a b x) by (apply H; left; reflexivity).
    cbn [Str.replace]. rewrite Ascii.eqb_refl.
    rewrite IH by (intros s Hs; apply H; right; exact Hs). reflexivity.
Qed.

Lemma split_times (sep : ascii) (k : nat) (s : string) :
  Str.split sep (times k sep ++ s) = repeat ""%string k ++ Str.split sep s.
Proof.
  induction k as [| k IH]; [reflexivity |].
  change (times (S k) sep ++ s)%string with (String sep (times k sep ++ s)).
  cbn [Str.split]. rewrite Ascii.eqb_refl, IH. reflexivity.
Qed.

Lemma filter_keep {A : Type} (p : A -> bool) (l : list A) :
  (forall x, In x l -> p x = true) -> filter p l = l.
Proof.
  induction l as [| x l IH]; intros H; [reflexivity |].
  simpl. rewrite (H x (or_introl eq_refl)), IH; [reflexivity |].
  intros y Hy. apply H. right. exact Hy.
Qed.

Lemma filter_drop {A : Type} (p : A -> bool) (l : list A) :
  (forall x, In x l -> p x = false) -> filter p l = [].
Proof.
  induction l as [| x l IH]; intros H; [reflexivity |].
  simpl. rewrite (H x (or_introl eq_refl)). apply IH.
  intros y Hy. apply H. right. exact Hy.
Qed.

Lemma identifier_kept (s : string) :
  identifier s = true ->
  negb (String.eqb s "" || String.eqb s ".") = true.
Proof.
  intros H. destruct (identifier_plain s H) as [Hd [_ Hn]].
  apply negb_true_iff, orb_false_iff. split; apply String.eqb_neq; [exact Hn |].
  intros ->. discriminate.
Qed.

(** The segments of [/] ... [/] [l1/l2/.../ln]. *)
Lemma segments_join (k : nat) (l : list string) :
  identifiers l = true ->
  segments (times k "/" ++ String.concat "/" l) = l.
Proof.
  intros H. destruct (identifiers_forall l H) as [Hn Hl].
  unfold segments. rewrite split_times, split_join; [| exact Hn |].
  - rewrite filter_app, filter_drop, filter_keep; [reflexivity | |].
    + intros x Hx. apply identifier_kept, Hl, Hx.
    + intros x Hx. apply repeat_spec in Hx. subst. reflexivity.
  - intros s Hs. apply (identifier_plain s (Hl s Hs)).
Qed.

Lemma extension_kept (s ext : string) :
  s <> "" -> ext <> "" ->
  negb (String.eqb (s ++ ext) "" || String.eqb (s ++ ext) ".") = true.
Proof.
  intros Hs He. apply negb_true_iff, orb_false_iff.
  split; apply String.eqb_neq; intros E;
    apply (f_equal String.length) in E; rewrite append_length in E;
    destruct s, ext; simpl in E; try contradiction; lia.
Qed.

Lemma removelast_In {A : Type} (l : list A) (x : A) : In x (removelast l) -> In x l.
Proof.
  induction l as [| a l IH]; [intros [] |].
  destruct l as [| b l]; [intros [] |].
  change (removelast (a :: b :: l)) with (a :: removelast (b :: l)).
  intros [<- | H]; [left; reflexivity | right; apply IH, H].
Qed.

Lemma last_In {A : Type} (l : list A) (d : A) : l <> [] -> In (last l d) l.
Proof.
  induction l as [| a l IH]; [contradiction |]. intros _.
  destruct l as [| b l]; [left; reflexivity |].
  right. apply IH. discriminate.
Qed.

(** The segments of [/] ... [/] [l1/l2/.../ln] followed by an extension. *)
Lemma segments_join_extension (k : nat) (l : list string) (ext : string) :
  identifiers l = true -> has_char "/" ext = false -> ext <> "" ->
  segments (times k "/" ++ String.concat "/" l ++ ext) = with_extension l ext.
Proof.
  intros H He Hx. destruct (identifiers_forall l H) as [Hn Hl].
  unfold segments, with_extension.
  rewrite split_times, split_app, (split_plain _ _ He), split_join;
    [| exact Hn | intros s Hs; apply (identifier_plain s (Hl s Hs))].
  cbn [hd tl]. rewrite !filter_app.
  rewrite filter_drop
    by (intros x Hx'; apply repeat_spec in Hx'; subst; reflexivity).
  rewrite (filter_keep _ (removelast l))
    by (intros x Hx'; apply identifier_kept, Hl, removelast_In, Hx').
  rewrite filter_keep; [reflexivity |].
  intros x [<- | []]. apply extension_kept; [| exact Hx].
  apply (identifier_plain _ (Hl _ (last_In l "" Hn))).
Qed.

Lemma segments_names (l : list string) :
  identifiers l = true -> segments (String.concat "/" l) = l.
Proof. exact (segments_join 0 l). Qed.

Lemma segments_names_extension (l : list string) (ext : string) :
  identifiers l = true -> has_char "/" ext = false -> ext <> "" ->
  segments (String.concat "/" l ++ ext) = with_extension l ext.
Proof. exact (segments_join_extension 0 l ext). Qed.

Lemma startswith_join (c : ascii) (l : list string) :
  identifiers l = true -> Re.word c = false ->
  Str.startswith (String c "") (String.concat (String c "") l) = false
  /\ forall ext, Str.startswith (String c "")
                   (String.concat (String c "") l ++ ext) = false.
Proof.
  intros H Hc. destruct (identifiers_forall l H) as [Hn Hl].
  destruct l as [| x l]; [contradiction |].
  pose proof (Hl x (or_introl eq_refl)) as Hx.
  unfold identifier in Hx. apply andb_true_iff in Hx. destruct Hx as [Hx1 Hx2].
  destruct x as [| a x]; [discriminate |].
  unfold Text.all, Text.chars in Hx2. simpl in Hx2.
  apply andb_true_iff in Hx2. destruct Hx2 as [Ha _].
  assert (Hac : a <> c) by (intros ->; congruence).
  unfold Str.startswith.
  split; [| intros ext]; destruct l as [| y l]; simpl;
    destruct (ascii_dec c a) as [E | E]; try reflexivity;
    exfalso; apply Hac; auto.
Qed.

End DottedNames.

(* ================================================================== *)
(** ** Python modules: the paths that are probed *)

Section PythonPaths.
Import Names Finite.

Lemma joinpath_relative (p : Path) (s : string) :
  Str.startswith "/" s = false -> p // s = below p (segments s).
Proof. intros H. unfold joinpath. rewrite H. reflexivity. Qed.

Lemma joinpath_absolute (p : Path) (s : string) :
  Str.startswith "/" s = true -> p // s = of_string s.
Proof. intros H. unfold joinpath. rewrite H. reflexivity. Qed.

Lemma below_below (p : Path) (a b : list string) :
  below (below p a) b = below p (a ++ b).
Proof. unfold below. simpl. rewrite app_assoc. reflexivity. Qed.

Lemma joinpath_init (p : Path) : p // "__init__.py" = below p ["__init__.py"].
Proof. reflexivity. Qed.

Lemma is_prefix_app (a b : list string) : is_prefix a (a ++ b) = true.
Proof.
  induction a as [| x a IH]; [reflexivity |].
  simpl. rewrite String.eqb_refl. exact IH.
Qed.

Lemma below_is_relative (p : Path) (comps : list string) :
  is_relative_to (below p comps) p = true.
Proof.
  unfold is_relative_to, below. simpl.
  rewrite Bool.eqb_reflx, is_prefix_app. reflexivity.
Qed.

Lemma append_assoc (a b c : string) : ((a ++ b) ++ c = a ++ b ++ c)%string.
Proof. induction a as [| x a IH]; simpl; [| rewrite IH]; reflexivity. Qed.

Lemma word_dot_false : Re.word "." = false.
Proof. reflexivity. Qed.

Lemma word_slash_false : Re.word "/" = false.
Proof. reflexivity. Qed.

Variable fs : FS.
Variable root : Path.

Lemma python_absolute_module (segs : list string) (f : Path) :
  identifiers segs = true ->
  _resolve_python_module fs root (String.concat "." segs) f
  = first_existing fs [below root (segs ++ ["__init__.py"]);
                       below root (with_extension segs ".py")].
Proof.
  intros H. destruct (identifiers_forall segs H) as [Hn Hl].
  assert (Hd : forall s, In s segs -> has_char "." s = false).
  { intros s Hs. apply (identifier_plain s (Hl s Hs)). }
  destruct (startswith_join "." segs H word_dot_false) as [Hs1 _].
  destruct (startswith_join "/" segs H word_slash_false) as [Hs2 Hs3].
  unfold _resolve_python_module. rewrite Hs1.
  rewrite (replace_join "." "/" segs Hd).
  rewrite (joinpath_relative root _ Hs2), (segments_names segs H).
  rewrite joinpath_init, below_below.
  rewrite (joinpath_relative root _ (Hs3 ".py")).
  rewrite (segments_names_extension segs ".py" H eq_refl) by discriminate.
  reflexivity.
Qed.

Lemma repeat_empty_filter (k : nat) (segs : list string) :
  (forall s, In s segs -> s <> "") ->
  filter (fun p => String.eqb p "") (repeat ""%string k ++ segs)
  = repeat ""%string k
  /\ filter (fun p => negb (String.eqb p "")) (repeat ""%string k ++ segs)
     = segs.
Proof.
  intros H. rewrite !filter_app. split.
  - rewrite filter_keep, filter_drop, app_nil_r; [reflexivity | |].
    + intros s Hs. apply String.eqb_neq, H, Hs.
    + intros s Hs. apply repeat_spec in Hs. subst. reflexivity.
  - rewrite filter_drop, filter_keep; [reflexivity | |].
    + intros s Hs. apply negb_true_iff, String.eqb_neq, H, Hs.
    + intros s Hs. apply repeat_spec in Hs. subst. reflexivity.
Qed.

Lemma removelast_app_nonempty {A : Type} (a b : list A) :
  b <> [] -> removelast (a ++ b) = a ++ removelast b.
Proof. apply removelast_app. Qed.

Lemma last_app_nonempty {A : Type} (a b : list A) (d : A) :
  b <> [] -> last (a ++ b) d = last b d.
Proof.
  intros H. induction a as [| x a IH]; [reflexivity |].
  simpl. destruct (a ++ b) eqn:E; [| exact IH].
  apply app_eq_nil in E. destruct E. contradiction.
Qed.

Lemma prefix_nil (s : string) : String.prefix "" s = true.
Proof. destruct s; reflexivity. Qed.

(** The anchor of a string that starts with [k + 1] slashes. *)
Lemma two_slashes_times (k : nat) (s : string) :
  Str.startswith "/" s = false ->
  two_slashes (times (S k) "/" ++ s) = Nat.eqb k 1.
Proof.
  intros H. unfold two_slashes, Str.startswith in *.
  destruct k as [| [| k]]; simpl; rewrite ?prefix_nil, ?H; reflexivity.
Qed.

Lemma of_string_slashes (k : nat) (segs : list string) :
  identifiers segs = true ->
  of_string (times (S k) "/" ++ String.concat "/" segs)
  = mkPath (Nat.eqb k 1) segs
  /\ of_string (times (S k) "/" ++ String.concat "/" segs ++ ".py")
     = mkPath (Nat.eqb k 1) (with_extension segs ".py").
Proof.
  intros H. destruct (startswith_join "/" segs H word_slash_false) as [Hs2 Hs3].
  unfold of_string. split.
  - rewrite (two_slashes_times k _ Hs2), (segments_join (S k) segs H). reflexivity.
  - rewrite (two_slashes_times k _ (Hs3 ".py")).
    rewrite (segments_join_extension (S k) segs ".py" H eq_refl) by discriminate.
    reflexivity.
Qed.

Lemma python_relative_module (k : nat) (segs : list string) (f : Path) :
  identifiers segs = true ->
  _resolve_python_module fs root (times (S k) "." ++ String.concat "." segs) f
  = first_existing fs
      [below (Nat.iter k parent (parent f)) (segs ++ ["__init__.py"]);
       below (Nat.iter k parent (parent f)) (with_extension segs ".py");
       mkPath (Nat.eqb k 1) (segs ++ ["__init__.py"]);
       mkPath (Nat.eqb k 1) (with_extension segs ".py")].
Proof.
  intros H. destruct (identifiers_forall segs H) as [Hn Hl].
  assert (Hd : forall s, In s segs -> has_char "." s = false).
  { intros s Hs. apply (identifier_plain s (Hl s Hs)). }
  assert (He : forall s, In s segs -> s <> "").
  { intros s Hs. apply (identifier_plain s (Hl s Hs)). }
  destruct (startswith_join "/" segs H word_slash_false) as [Hs2 Hs3].
  destruct (of_string_slashes k segs H) as [O1 O2].
  unfold _resolve_python_module.
  assert (A0 : Str.startswith "." (times (S k) "." ++ String.concat "." segs)
               = true) by (unfold Str.startswith; simpl; apply prefix_nil).
  rewrite A0. rewrite split_times, (split_join "." segs Hn Hd).
  destruct (repeat_empty_filter (S k) segs He) as [-> ->].
  rewrite repeat_length. replace (S k - 1) with k by lia.
  set (parent_ := Nat.iter k parent (parent f)).
  assert (Ht : match segs with
               | [] => parent_
               | _ :: _ => parent_ // Str.join "/" segs
               end = below parent_ segs).
  { destruct segs as [| x l] eqn:E; [contradiction |]. rewrite <- E in *.
    unfold Str.join. rewrite (joinpath_relative _ _ Hs2), (segments_names segs H).
    reflexivity. }
  rewrite Ht. clear Ht.
  rewrite joinpath_init, below_below.
  assert (Hp : parent (below parent_ segs)
               // (name (below parent_ segs) ++ ".py")%string
               = below parent_ (with_extension segs ".py")).
  { unfold parent, name, below. cbn [parts dslash].
    rewrite (removelast_app_nonempty _ _ Hn), (last_app_nonempty _ _ _ Hn).
    pose proof (Hl _ (last_In segs "" Hn)) as Hlast.
    assert (Hi : identifiers [last segs ""] = true).
    { unfold identifiers. simpl. rewrite Hlast. reflexivity. }
    destruct (startswith_join "/" [last segs ""] Hi word_slash_false) as [_ S3].
    pose proof (segments_names_extension [last segs ""] ".py" Hi eq_refl) as S4.
    cbn [String.concat with_extension removelast last app] in S3, S4.
    rewrite (joinpath_relative _ _ (S3 ".py")), S4 by discriminate.
    unfold below, with_extension. cbn [parts dslash].
    rewrite <- app_assoc. reflexivity. }
  rewrite Hp. clear Hp.
  rewrite replace_app, replace_times, (replace_join "." "/" segs Hd).
  assert (A1 : Str.startswith "/" (times (S k) "/" ++ String.concat "/" segs) = true)
    by (unfold Str.startswith; simpl; apply prefix_nil).
  assert (A2 : Str.startswith "/" ((times (S k) "/" ++ String.concat "/" segs)
                                     ++ ".py") = true)
    by (unfold Str.startswith; simpl; apply prefix_nil).
  rewrite (joinpath_absolute root _ A1), (joinpath_absolute root _ A2).
  rewrite append_assoc, O1, O2.
  change (mkPath (Nat.eqb k 1) segs // "__init__.py")
    with (mkPath (Nat.eqb k 1) (segs ++ ["__init__.py"])).
  unfold first_existing. cbn [find].
  destruct (exists_ fs (below parent_ (segs ++ ["__init__.py"]))); [reflexivity |].
  destruct (exists_ fs (below parent_ (with_extension segs ".py")));
    reflexivity.
Qed.

End PythonPaths.

(* ================================================================== *)
(** ** Java imports and C includes: what is extracted *)

Section Extraction.
Import Re.

Lemma scan_other_first_char (a : ascii) (K : pattern) (s : list ascii)
      (prev : option ascii) (skip : nat) :
  forallb (except a) s = true -> scan (Chr (only a) :: K) prev s skip = [].
Proof.
  revert prev skip. induction s as [| c s IH]; intros prev skip H.
  - destruct skip; reflexivity.
  - simpl in H. apply andb_true_iff in H. destruct H as [Hc Hs].
    destruct skip as [| skip]; cbn [scan m_items].
    + rewrite (except_only _ _ Hc). apply IH, Hs.
    + apply IH, Hs.
Qed.

Lemma word_dot_not_space (c : ascii) : word_dot c = true -> space c = false.
Proof. by_cases c. Qed.

Lemma space_not_hash (c : ascii) : space c = true -> except "#" c = true.
Proof. by_cases c. Qed.

Lemma stops_head (p q : ascii -> bool) (c : ascii) (s : list ascii) :
  (forall x, q x = true -> p x = false) -> q c = true -> stops p (c :: s).
Proof. intros H Hc. apply H, Hc. Qed.

Variables sep name : list ascii.
Hypothesis sep_space : forallb space sep = true.
Hypothesis sep_nonempty : sep <> [].
Hypothesis name_nonempty : name <> [].

Lemma sep_min : 1 <= 0 + List.length sep.
Proof. destruct sep; [contradiction | simpl; lia]. Qed.

Lemma name_min : 1 <= 0 + List.length name.
Proof. destruct name; [contradiction | simpl; lia]. Qed.

Lemma name_stops (p : ascii -> bool) (rest : list ascii) :
  (forall x, p x = true -> space x = false) -> forallb p name = true ->
  stops space (name ++ rest).
Proof.
  intros H Hn. destruct name as [| c l]; [contradiction |].
  simpl in Hn. apply andb_true_iff in Hn. apply H, Hn.
Qed.

(** [import sep name ;] *)
Lemma scan_java_import :
  forallb word_dot name = true ->
  scan Patterns.java_import None
       (Text.chars "import" ++ sep ++ name ++ [";"%char]) 0
  = [string_of_list_ascii name].
Proof.
  intros Hn.
  assert (Hm : m_items Patterns.java_import None
                 (Text.chars "import" ++ sep ++ name ++ [";"%char]) 0 0 0
               = Some (List.length (Text.chars "import" ++ sep ++ name
                                               ++ [";"%char]),
                       6 + List.length sep,
                       6 + List.length sep + List.length name)).
  { unfold Patterns.java_import.
    cbn [Text.chars list_ascii_of_string lit app m_items]. literal.
    apply rep_run; [exact sep_space | | apply sep_min |].
    { apply (name_stops word_dot); [apply word_dot_not_space | exact Hn]. }
    cbn [m_items].
    apply rep_run; [exact Hn | reflexivity | apply name_min |].
    cbn [m_items]. literal.
    apply f_equal; apply f_equal2; [apply f_equal2 |]; lengths; lia. }
  cbn [Text.chars list_ascii_of_string app] in *.
  rewrite (scan_hit _ _ _ _ _ _ _ Hm). f_equal.
  - change ("i" :: "m" :: "p" :: "o" :: "r" :: "t" :: sep ++ name ++ [";"])%char
      with (Text.chars "import" ++ sep ++ name ++ [";"%char]).
    rewrite (app_assoc (Text.chars "import")).
    apply group_span; rewrite ?length_app; simpl; lia.
  - simpl. apply scan_skip. reflexivity.
Qed.

Hypothesis name_plain :
  forallb (fun c => except dquote c && except ">" c && except "#" c) name = true.

Lemma name_except_dquote : forallb (except dquote) name = true.
Proof.
  eapply forallb_impl; [| exact name_plain]. intros c H.
  apply andb_true_iff in H. destruct H as [H _].
  apply andb_true_iff in H. apply H.
Qed.

Lemma name_except_close : forallb (except ">") name = true.
Proof.
  eapply forallb_impl; [| exact name_plain]. intros c H.
  apply andb_true_iff in H. destruct H as [H _].
  apply andb_true_iff in H. apply H.
Qed.

Lemma name_except_hash : forallb (except "#") name = true.
Proof.
  eapply forallb_impl; [| exact name_plain]. intros c H.
  apply andb_true_iff in H. apply H.
Qed.

Lemma sep_blocked (q : ascii) (c : ascii) (rest : list ascii) :
  space q = false -> only q c = false -> space c = false ->
  blocked space (only q) (sep ++ c :: rest).
Proof.
  intros Hq Hc Hs. clear sep_nonempty.
  induction sep as [| x l IH]; simpl.
  - split; [exact Hc | intros E; congruence].
  - simpl in sep_space. apply andb_true_iff in sep_space.
    destruct sep_space as [Hx Hl]. split.
    + apply space_not_letter; assumption.
    + intros _. apply IH, Hl.
Qed.

Lemma after_hash_plain (open close : ascii) :
  except "#" open = true -> except "#" close = true ->
  forallb (except "#")
          (Text.chars "include" ++ sep ++ open :: name ++ [close]) = true.
Proof.
  intros Ho Hc. rewrite !forallb_app. cbn [forallb]. rewrite forallb_app.
  rewrite (forallb_impl _ _ _ space_not_hash sep_space).
  cbn [forallb]. rewrite name_except_hash, Ho, Hc. reflexivity.
Qed.

(** [#include sep "name"] *)
Lemma scan_c_quoted :
  scan Patterns.c_include_quoted None
       (Text.chars "#include" ++ sep ++ dquote :: name ++ [dquote]) 0
  = [string_of_list_ascii name]
  /\ scan Patterns.c_include_angle None
          (Text.chars "#include" ++ sep ++ dquote :: name ++ [dquote]) 0
     = [].
Proof.
  split.
  - assert (Hm : m_items Patterns.c_include_quoted None
                   (Text.chars "#include" ++ sep ++ dquote :: name ++ [dquote])
                   0 0 0
                 = Some (List.length (Text.chars "#include" ++ sep
                                                 ++ dquote :: name ++ [dquote]),
                         9 + List.length sep,
                         9 + List.length sep + List.length name)).
    { unfold Patterns.c_include_quoted.
      cbn [Text.chars list_ascii_of_string lit app m_items]. literal.
      apply rep_run; [exact sep_space | reflexivity | apply sep_min |].
      cbn [m_items]. literal.
      apply rep_run; [apply name_except_dquote | reflexivity | apply name_min |].
      cbn [m_items]. literal.
      apply f_equal; apply f_equal2; [apply f_equal2 |]; lengths; lia. }
    cbn [Text.chars list_ascii_of_string app] in *.
    rewrite (scan_hit _ _ _ _ _ _ _ Hm). f_equal.
    + change ("#" :: "i" :: "n" :: "c" :: "l" :: "u" :: "d" :: "e"
                  :: sep ++ dquote :: name ++ [dquote])%char
        with (Text.chars "#include" ++ sep ++ [dquote] ++ name ++ [dquote]).
      rewrite (app_assoc (Text.chars "#include")), (app_assoc (_ ++ sep)).
      apply group_span; rewrite ?length_app; simpl; lia.
    + simpl. apply scan_skip. reflexivity.
  - assert (Hm : m_items Patterns.c_include_angle None
                   (Text.chars "#include" ++ sep ++ dquote :: name ++ [dquote])
                   0 0 0 = None).
    { unfold Patterns.c_include_angle.
      cbn [Text.chars list_ascii_of_string lit app m_items]. literal.
      apply rep_blocked with (q := only "<").
      - split; intros; cbn [m_items]; [reflexivity |].
        match goal with H : only _ _ = false |- _ => rewrite H end. reflexivity.
      - apply sep_blocked; reflexivity. }
    cbn [Text.chars list_ascii_of_string app] in *.
    rewrite (scan_miss _ _ _ _ Hm).
    unfold Patterns.c_include_angle. cbn [lit app].
    apply scan_other_first_char.
    apply (after_hash_plain dquote dquote); reflexivity.
Qed.

(** [#include sep <name>] *)
Lemma scan_c_angle :
  scan Patterns.c_include_angle None
       (Text.chars "#include" ++ sep ++ "<"%char :: name ++ [">"%char]) 0
  = [string_of_list_ascii name]
  /\ scan Patterns.c_include_quoted None
          (Text.chars "#include" ++ sep ++ "<"%char :: name ++ [">"%char]) 0
     = [].
Proof.
  split.
  - assert (Hm : m_items Patterns.c_include_angle None
                   (Text.chars "#include" ++ sep ++ "<"%char :: name
                               ++ [">"%char]) 0 0 0
                 = Some (List.length (Text.chars "#include" ++ sep
                                        ++ "<"%char :: name ++ [">"%char]),
                         9 + List.length sep,
                         9 + List.length sep + List.length name)).
    { unfold Patterns.c_include_angle.
      cbn [Text.chars list_ascii_of_string lit app m_items]. literal.
      apply rep_run; [exact sep_space | reflexivity | apply sep_min |].
      cbn [m_items]. literal.
      apply rep_run; [apply name_except_close | reflexivity | apply name_min |].
      cbn [m_items]. literal.
      apply f_equal; apply f_equal2; [apply f_equal2 |]; lengths; lia. }
    cbn [Text.chars list_ascii_of_string app] in *.
    rewrite (scan_hit _ _ _ _ _ _ _ Hm). f_equal.
    + change ("#" :: "i" :: "n" :: "c" :: "l" :: "u" :: "d" :: "e"
                  :: sep ++ "<" :: name ++ [">"])%char
        with (Text.chars "#include" ++ sep ++ ["<"%char] ++ name ++ [">"%char]).
      rewrite (app_assoc (Text.chars "#include")), (app_assoc (_ ++ sep)).
      apply group_span; rewrite ?length_app; simpl; lia.
    + simpl. apply scan_skip. reflexivity.
  - assert (Hm : m_items Patterns.c_include_quoted None
                   (Text.chars "#include" ++ sep ++ "<"%char :: name
                               ++ [">"%char]) 0 0 0 = None).
    { unfold Patterns.c_include_quoted.
      cbn [Text.chars list_ascii_of_string lit app m_items]. literal.
      apply rep_blocked with (q := only dquote).
      - split; intros; cbn [m_items]; [reflexivity |].
        match goal with H : only _ _ = false |- _ => rewrite H end. reflexivity.
      - apply sep_blocked; reflexivity. }
    cbn [Text.chars list_ascii_of_string app] in *.
    rewrite (scan_miss _ _ _ _ Hm).
    unfold Patterns.c_include_quoted. cbn [lit app].
    apply scan_other_first_char.
    apply (after_hash_plain "<" ">"); reflexivity.
Qed.

End Extraction.

(* ================================================================== *)
(** ** Python, Java and C: from the text of a reference to the path *)

Section References.
Import Names.

Lemma word_word_dot (c : ascii) : Re.word c = true -> Re.word_dot c = true.
Proof. by_cases c. Qed.

Lemma identifiers_chars (segs : list string) :
  identifiers segs = true ->
  forallb Re.word_dot (Text.chars (String.concat "." segs)) = true
  /\ Text.chars (String.concat "." segs) <> [].
Proof.
  intros H. destruct (identifiers_forall segs H) as [Hn Hl]. clear H.
  induction segs as [| x l IH]; [contradiction |].
  pose proof (Hl x (or_introl eq_refl)) as Hx.
  unfold identifier in Hx. apply andb_true_iff in Hx. destruct Hx as [Hx1 Hx2].
  apply (forallb_impl _ _ _ word_word_dot) in Hx2.
  apply nonempty_chars in Hx1.
  destruct l as [| y l].
  - simpl. split; assumption.
  - change (String.concat "." (x :: y :: l))
      with (x ++ String "." (String.concat "." (y :: l)))%string.
    rewrite chars_app. split.
    + rewrite forallb_app, Hx2.
      change (Text.chars (String ?c ?t)) with (c :: Text.chars t).
      cbn [forallb andb].
      change (Re.word_dot ".") with true. cbn [andb].
      apply IH; [discriminate |].
      intros s Hs. apply Hl. right. exact Hs.
    + intros E. apply app_eq_nil in E. destruct E as [E _]. contradiction.
Qed.

Lemma header_name_chars (p : string) :
  header_name p = true ->
  forallb (fun c => Re.except Re.dquote c && Re.except ">" c && Re.except "#" c)
          (Text.chars p) = true
  /\ Text.chars p <> [].
Proof.
  unfold header_name. intros H. apply andb_true_iff in H.
  destruct H as [Hn Hp]. split; [exact Hp | apply nonempty_chars, Hn].
Qed.

Variable fs : FS.
Variable root : Path.

Lemma java_import_path (segs : list string) :
  identifiers segs = true ->
  _resolve_java_import fs root (String.concat "." segs)
  = first_existing fs [below root (with_extension segs ".java")].
Proof.
  intros H. destruct (identifiers_forall segs H) as [Hn Hl].
  assert (Hd : forall s, In s segs -> Finite.has_char "." s = false).
  { intros s Hs. apply (identifier_plain s (Hl s Hs)). }
  destruct (startswith_join "/" segs H word_slash_false) as [_ Hs3].
  unfold _resolve_java_import.
  rewrite (replace_join "." "/" segs Hd).
  rewrite (joinpath_relative root _ (Hs3 ".java")).
  rewrite (segments_names_extension segs ".java" H eq_refl) by discriminate.
  unfold first_existing. cbn [find].
  destruct (exists_ fs (below root (with_extension segs ".java"))); reflexivity.
Qed.

Lemma finditer_java_import (sep name : string) :
  Text.all Re.space sep = true -> Text.nonempty sep = true ->
  Text.all Re.word_dot name = true -> Text.nonempty name = true ->
  Re.finditer Patterns.java_import ("import" ++ sep ++ name ++ ";") = [name].
Proof.
  intros Hs Hn Hw Hne. unfold Re.finditer.
  change (list_ascii_of_string ?x) with (Text.chars x).
  rewrite !chars_app. change (Text.chars ";") with [";"%char].
  rewrite scan_java_import; auto using nonempty_chars.
  unfold Text.chars. rewrite string_of_list_ascii_of_string. reflexivity.
Qed.

Lemma finditer_c_quoted (sep p : string) :
  Text.all Re.space sep = true -> Text.nonempty sep = true ->
  header_name p = true ->
  all_matches Patterns.c ("#include" ++ sep ++ Text.quoted p) = [p].
Proof.
  intros Hs Hn Hp. apply header_name_chars in Hp. destruct Hp as [Hp Hne].
  unfold all_matches, Patterns.c. cbn [flat_map]. unfold Re.finditer.
  change (list_ascii_of_string ?x) with (Text.chars x).
  rewrite !chars_app, chars_quoted.
  destruct (scan_c_quoted (Text.chars sep) (Text.chars p) Hs
                          (nonempty_chars _ Hn) Hne Hp) as [-> ->].
  unfold Text.chars. rewrite string_of_list_ascii_of_string. reflexivity.
Qed.

Lemma finditer_c_angle (sep p : string) :
  Text.all Re.space sep = true -> Text.nonempty sep = true ->
  header_name p = true ->
  all_matches Patterns.c ("#include" ++ sep ++ "<" ++ p ++ ">") = [p].
Proof.
  intros Hs Hn Hp. apply header_name_chars in Hp. destruct Hp as [Hp Hne].
  unfold all_matches, Patterns.c. cbn [flat_map]. unfold Re.finditer.
  change (list_ascii_of_string ?x) with (Text.chars x).
  rewrite !chars_app.
  change (Text.chars "<" ++ ?x) with ("<"%char :: x).
  change (Text.chars ">") with [">"%char].
  destruct (scan_c_angle (Text.chars sep) (Text.chars p) Hs
                         (nonempty_chars _ Hn) Hne Hp) as [-> ->].
  unfold Text.chars. rewrite string_of_list_ascii_of_string. reflexivity.
Qed.

Lemma first_existing_exists (l : list Path) (d : Path) :
  first_existing fs l = Some d -> In d l /\ exists_ fs d = true.
Proof. unfold first_existing. apply find_some. Qed.

End References.

(** X4: for a dotted name of identifiers that does not start with a dot,
    the Python resolver probes, whatever the importing file, the package
    [root/a/b/__init__.py] and then the module [root/a/b.py], and returns
    the first that exists; so a package shadows a module of the same
    name, and what is returned exists and lies within the root. *)
Theorem python_absolute_import_probes (fs : FS) (root f : Path)
        (segs : list string) :
  Names.identifiers segs = true ->
  _resolve_python_module fs root (String.concat "." segs) f
  = first_existing fs [Names.below root (segs ++ ["__init__.py"]);
                       Names.below root (Names.with_extension segs ".py")]
  /\ (exists_ fs (Names.below root (segs ++ ["__init__.py"])) = true ->
      _resolve_python_module fs root (String.concat "." segs) f
      = Some (Names.below root (segs ++ ["__init__.py"])))
  /\ forall d,
       _resolve_python_module fs root (String.concat "." segs) f = Some d ->
       exists_ fs d = true /\ is_relative_to d root = true.
Proof.
  intros H. rewrite (python_absolute_module fs root segs f H).
  split; [reflexivity | split].
  - intros E. unfold first_existing. cbn [find]. rewrite E. reflexivity.
  - intros d Hd. apply first_existing_exists in Hd. destruct Hd as [Hin He].
    split; [exact He |].
    destruct Hin as [<- | [<- | []]]; apply below_is_relative.
Qed.

Lemma python_absolute_import_probes_layout :
  Names.identifiers ["lib"; "tools"] = true
  /\ _resolve_python_module Layout.fs Layout.root "lib.tools"
                            (Layout.at_ ["repo"; "app"; "main.py"])
     = Some (Layout.at_ ["repo"; "lib"; "tools.py"]).
Proof.
  split; [reflexivity |].
  destruct (python_absolute_import_probes
              Layout.fs Layout.root (Layout.at_ ["repo"; "app"; "main.py"])
              ["lib"; "tools"] eq_refl) as [E _].
  etransitivity; [exact E | vm_compute; reflexivity].
Defined.

(** X5: for [k + 1] dots followed by a dotted name of identifiers, the
    Python resolver probes four paths in this order and returns the first
    that exists: the package and the module below the directory [k]
    levels above the directory of the importing file, and then, because
    the dots of the name become slashes of an absolute path, the package
    and the module directly below the root of the file system (below the
    double-slash root for exactly two dots), not below the repository. *)
Theorem python_relative_import_probes (fs : FS) (root f : Path) (k : nat)
        (segs : list string) :
  Names.identifiers segs = true ->
  _resolve_python_module fs root
    (Names.times (S k) "." ++ String.concat "." segs) f
  = first_existing fs
      [Names.below (Nat.iter k parent (parent f)) (segs ++ ["__init__.py"]);
       Names.below (Nat.iter k parent (parent f))
                   (Names.with_extension segs ".py");
       mkPath (Nat.eqb k 1) (segs ++ ["__init__.py"]);
       mkPath (Nat.eqb k 1) (Names.with_extension segs ".py")]
  /\ forall d,
       _resolve_python_module fs root
         (Names.times (S k) "." ++ String.concat "." segs) f = Some d ->
       exists_ fs d = true.
Proof.
  intros H. rewrite (python_relative_module fs root k segs f H).
  split; [reflexivity |].
  intros d Hd. apply first_existing_exists in Hd. apply Hd.
Qed.

Lemma python_relative_import_probes_layout :
  Names.identifiers ["core"] = true
  /\ _resolve_python_module Layout.fs Layout.root ".core"
                            (Layout.at_ ["repo"; "app"; "main.py"])
     = Some (Layout.at_ ["repo"; "app"; "core"; "__init__.py"])
  /\ Names.identifiers ["stray"] = true
  /\ _resolve_python_module Layout.fs Layout.root ".stray"
                            (Layout.at_ ["repo"; "app"; "main.py"])
     = Some (Layout.at_ ["stray.py"]).
Proof.
  split; [reflexivity |]. split; [| split; [reflexivity |]].
  - destruct (python_relative_import_probes
                Layout.fs Layout.root (Layout.at_ ["repo"; "app"; "main.py"])
                0 ["core"] eq_refl) as [E _].
    etransitivity; [exact E | vm_compute; reflexivity].
  - destruct (python_relative_import_probes
                Layout.fs Layout.root (Layout.at_ ["repo"; "app"; "main.py"])
                0 ["stray"] eq_refl) as [E _].
    etransitivity; [exact E | vm_compute; reflexivity].
Defined.

(** X6: a Java import of a dotted name of identifiers, [import a.b.C;],
    is read by the parser as that name and looked up at exactly one
    path, [root/a/b/C.java]: it is reported if and only if that path
    exists, wherever the importing file lies, and it lies within the
    root. *)
Theorem java_import_statement (fs : FS) (root f : Path) (sep : string)
        (segs : list string) :
  Text.all Re.space sep = true -> Text.nonempty sep = true ->
  Names.identifiers segs = true ->
  _parse_java_imports fs root
    ("import" ++ sep ++ String.concat "." segs ++ ";") f
  = (if exists_ fs (Names.below root (Names.with_extension segs ".java"))
     then [Names.below root (Names.with_extension segs ".java")]
     else [])
  /\ is_relative_to (Names.below root (Names.with_extension segs ".java")) root
     = true.
Proof.
  intros Hs Hn H. split; [| apply below_is_relative].
  destruct (identifiers_chars segs H) as [Hw Hne].
  unfold _parse_java_imports, all_matches. cbn [flat_map].
  rewrite finditer_java_import; auto.
  - rewrite app_nil_r, collect_one, (java_import_path fs root segs H).
    unfold first_existing. cbn [find].
    destruct (exists_ fs _); reflexivity.
  - unfold Text.nonempty. apply negb_true_iff, String.eqb_neq.
    intros E. apply Hne. rewrite E. reflexivity.
Qed.

Lemma java_import_statement_layout :
  Text.all Re.space " " = true /\ Text.nonempty " " = true
  /\ Names.identifiers ["com"; "acme"; "Util"] = true
  /\ _parse_java_imports Layout.fs Layout.root "import com.acme.Util;"
                         (Layout.at_ ["repo"; "src"; "Main.java"])
     = [Layout.at_ ["repo"; "com"; "acme"; "Util.java"]].
Proof.
  split; [reflexivity |]. split; [reflexivity |]. split; [reflexivity |].
  destruct (java_import_statement
              Layout.fs Layout.root (Layout.at_ ["repo"; "src"; "Main.java"])
              " " ["com"; "acme"; "Util"] eq_refl eq_refl eq_refl) as [E _].
  etransitivity; [exact E | vm_compute; reflexivity].
Defined.

(** X7: the C parser reads the name between the delimiters of both
    forms of the directive, quoted and in angle brackets, and hands it
    to the same resolver: a header in angle brackets is looked up like a
    quoted one, first next to the including file and then at the root. *)
Theorem c_include_forms_alike (fs : FS) (root f : Path) (sep p : string) :
  Text.all Re.space sep = true -> Text.nonempty sep = true ->
  header_name p = true ->
  _parse_c_includes fs root ("#include" ++ sep ++ Text.quoted p) f
  = resolved (_resolve_c_include fs root p f)
  /\ _parse_c_includes fs root ("#include" ++ sep ++ "<" ++ p ++ ">") f
     = resolved (_resolve_c_include fs root p f).
Proof.
  intros Hs Hn Hp. unfold _parse_c_includes.
  rewrite finditer_c_quoted, finditer_c_angle by assumption.
  rewrite collect_one. split; reflexivity.
Qed.

Lemma c_include_forms_alike_layout :
  Text.all Re.space " " = true /\ Text.nonempty " " = true
  /\ header_name "include/util.h" = true
  /\ _parse_c_includes Layout.fs Layout.root "#include <include/util.h>"
                       (Layout.at_ ["repo"; "src"; "main.c"])
     = [Layout.at_ ["repo"; "include"; "util.h"]].
Proof.
  split; [reflexivity |]. split; [reflexivity |]. split; [reflexivity |].
  destruct (c_include_forms_alike
              Layout.fs Layout.root (Layout.at_ ["repo"; "src"; "main.c"])
              " " "include/util.h" eq_refl eq_refl eq_refl) as [_ E].
  etransitivity; [exact E | vm_compute; reflexivity].
Defined.

(* ================================================================== *)
(** ** The report of [main] *)

Section Report.

Lemma insert_sorted_In (p d : Path) (l : list Path) :
  In d (insert_sorted p l) <-> d = p \/ In d l.
Proof.
  induction l as [| q l IH]; simpl.
  - intuition.
  - destruct (path_ltb q p); simpl; rewrite ?IH; intuition.
Qed.

Lemma sorted_In (d : Path) (l : list Path) : In d (sorted l) <-> In d l.
Proof.
  induction l as [| p l IH]; simpl; [reflexivity |].
  rewrite insert_sorted_In, IH. intuition.
Qed.

Lemma insert_sorted_NoDup (p : Path) (l : list Path) :
  ~ In p l -> NoDup l -> NoDup (insert_sorted p l).
Proof.
  induction l as [| q l IH]; simpl; intros Hp Hl.
  - constructor; [intros [] | constructor].
  - destruct (path_ltb q p).
    + inversion Hl as [| ? ? Hq Hl']; subst. constructor.
      * rewrite insert_sorted_In. intros [-> | H]; [| contradiction].
        apply Hp. left. reflexivity.
      * apply IH; [| exact Hl']. intros H. apply Hp. right. exact H.
    + constructor; assumption.
Qed.

Lemma sorted_NoDup (l : list Path) : NoDup l -> NoDup (sorted l).
Proof.
  induction l as [| p l IH]; simpl; intros H; [constructor |].
  inversion H as [| ? ? Hp Hl]; subst.
  apply insert_sorted_NoDup; [rewrite sorted_In; exact Hp | apply IH, Hl].
Qed.

Lemma parts_ltb_total (a b : list string) :
  a <> b -> parts_ltb a b = false -> parts_ltb b a = true.
Proof.
  revert b. induction a as [| x a IH]; intros [| y b] Hne; simpl;
    try discriminate; try reflexivity; [contradiction |].
  rewrite (String.compare_antisym y x).
  destruct (String.compare x y) eqn:E; simpl; try discriminate; [| reflexivity].
  apply String.compare_eq_iff in E. subst y.
  apply IH. intros ->. apply Hne. reflexivity.
Qed.

Lemma path_ltb_total (p q : Path) :
  p <> q -> path_ltb q p = false -> path_ltb p q = true.
Proof.
  intros Hne H. unfold path_ltb in *. apply parts_ltb_total; [| exact H].
  intros E. apply Hne. destruct p as [dp lp], q as [dq lq].
  unfold anchor in E. simpl in E. inversion E as [[Ha Hl]].
  destruct dp, dq; try discriminate; reflexivity.
Qed.

Lemma insert_sorted_ascending (p : Path) (l : list Path) :
  ~ In p l -> ascending l = true -> ascending (insert_sorted p l) = true.
Proof.
  induction l as [| q l IH]; intros Hp Hl; [reflexivity |].
  assert (Hq : p <> q) by (intros ->; apply Hp; left; reflexivity).
  assert (Hp' : ~ In p l) by (intros H; apply Hp; right; exact H).
  cbn [insert_sorted]. destruct (path_ltb q p) eqn:E.
  - destruct l as [| r l].
    + cbn [insert_sorted ascending]. rewrite E. reflexivity.
    + cbn [ascending] in Hl. apply andb_true_iff in Hl. destruct Hl as [Hqr Hl].
      specialize (IH Hp' Hl). cbn [insert_sorted] in IH |- *.
      destruct (path_ltb r p).
      * cbn [ascending] in IH |- *. rewrite Hqr. exact IH.
      * cbn [ascending] in IH |- *. rewrite E. exact IH.
  - cbn [ascending]. rewrite (path_ltb_total p q Hq E). exact Hl.
Qed.

Lemma sorted_ascending (l : list Path) : NoDup l -> ascending (sorted l) = true.
Proof.
  induction l as [| p l IH]; simpl; intros H; [reflexivity |].
  inversion H as [| ? ? Hp Hl]; subst.
  apply insert_sorted_ascending; [rewrite sorted_In; exact Hp | apply IH, Hl].
Qed.

Variable root : Path.

Lemma print_all (l : list Path) :
  (forall d, In d l -> is_relative_to d root = true) ->
  print_dependencies root l = (map (listing_line root) l, None).
Proof.
  induction l as [| d l IH]; intros H; [reflexivity |].
  cbn [print_dependencies map]. unfold relative_to.
  rewrite (H d (or_introl eq_refl)), IH; [reflexivity |].
  intros x Hx. apply H. right. exact Hx.
Qed.

Lemma print_stops (l : list Path) (d : Path) :
  In d l -> is_relative_to d root = false ->
  exists printed bad rest msg,
    l = printed ++ bad :: rest
    /\ (forall x, In x printed -> is_relative_to x root = true)
    /\ is_relative_to bad root = false
    /\ print_dependencies root l
       = (map (listing_line root) printed, Some (ValueError msg)).
Proof.
  induction l as [| x l IH]; intros Hd Hr; [destruct Hd |].
  cbn [print_dependencies]. unfold relative_to.
  destruct (is_relative_to x root) eqn:E.
  - destruct Hd as [-> | Hd]; [congruence |].
    destruct (IH Hd Hr) as [printed [bad [rest [msg [-> [Hp [Hb ->]]]]]]].
    exists (x :: printed), bad, rest, msg.
    split; [reflexivity | split; [| split; [exact Hb | reflexivity]]].
    intros y [<- | Hy]; auto.
  - exists [], x, l. eexists.
    split; [reflexivity | split; [intros y [] | split; [exact E | reflexivity]]].
Qed.

End Report.

Lemma forallb_false_In {A : Type} (p : A -> bool) (l : list A) :
  forallb p l = false -> exists x, In x l /\ p x = false.
Proof.
  induction l as [| a l IH]; simpl; [discriminate |].
  destruct (p a) eqn:E; simpl.
  - intros H. destruct (IH H) as [x [Hx Hp]]. exists x. auto.
  - intros _. exists a. auto.
Qed.

Lemma last_two {A : Type} (l : list A) (a b d : A) : last (l ++ [a; b]) d = b.
Proof.
  induction l as [| x l IH]; [reflexivity |].
  simpl. destruct (l ++ [a; b]) eqn:E; [| exact IH].
  apply app_eq_nil in E. destruct E. discriminate.
Qed.

(** The two ways [main] can end after the traversal has returned. *)
Lemma main_report (fs : FS) (cwd : Path) (fuel : nat)
      (prog repo_root focus_file : string) (more : list string)
      (deps : list Path) :
  trace_dependencies fs (resolve (cwd // repo_root)) fuel focus_file
  = Some (Return deps) ->
  ((forall d, In d deps -> is_relative_to d (resolve (cwd // repo_root)) = true)
   /\ exists lines,
        main fs cwd fuel (prog :: repo_root :: focus_file :: more)
        = Some (mkOutput
                  (lines ++ [rule;
                             ("Total: " ++ str_of_nat (List.length deps)
                                        ++ " files")%string])
                  [] 0))
  \/ ((exists d, In d deps
                 /\ is_relative_to d (resolve (cwd // repo_root)) = false)
      /\ exists msg lines,
           main fs cwd fuel (prog :: repo_root :: focus_file :: more)
           = Some (mkOutput lines [("Unexpected error: " ++ msg)%string] 1)).
Proof.
  intros T. unfold main. rewrite T.
  destruct (forallb (fun d => is_relative_to d (resolve (cwd // repo_root))) deps)
    eqn:F.
  - left. rewrite forallb_forall in F. split; [exact F |].
    destruct deps as [| d0 deps'].
    + exists [("Dependencies for " ++ focus_file ++ ":")%string; rule;
              "  No dependencies found"]. reflexivity.
    + rewrite print_all by (intros d Hd; apply F, sorted_In, Hd).
      eexists. rewrite app_assoc. reflexivity.
  - right. apply forallb_false_In in F. destruct F as [d [Hd Hr]].
    split; [exists d; auto |].
    destruct deps as [| d0 deps']; [destruct Hd |].
    destruct (print_stops (resolve (cwd // repo_root)) (sorted (d0 :: deps')) d
                          (proj2 (sorted_In _ _) Hd) Hr)
      as [printed [bad [rest [msg [_ [_ [_ P]]]]]]].
    rewrite P. eauto.
Qed.

(** X8: when the traversal returns, [main] lists every dependency once,
    in ascending order of the paths, each relative to the resolved root,
    between the header and the total, and exits with status 0, provided
    all dependencies lie below the root.  If one does not, [main] prints
    the header and the lines of the dependencies sorted before the first
    such path, then writes one line about an unexpected error to the
    error stream and exits with status 1, without the total. *)
Theorem main_lists_dependencies (fs : FS) (cwd : Path) (fuel : nat)
        (prog repo_root focus_file : string) (more : list string)
        (deps : list Path) :
  trace_dependencies fs (resolve (cwd // repo_root)) fuel focus_file
  = Some (Return deps) ->
  (forall d, In d (sorted deps) <-> In d deps)
  /\ NoDup (sorted deps)
  /\ ascending (sorted deps) = true
  /\ ((forall d, In d deps ->
                 is_relative_to d (resolve (cwd // repo_root)) = true) ->
      main fs cwd fuel (prog :: repo_root :: focus_file :: more)
      = Some (mkOutput
                ([("Dependencies for " ++ focus_file ++ ":")%string; rule]
                   ++ match deps with
                      | [] => ["  No dependencies found"]
                      | _ => map (listing_line (resolve (cwd // repo_root)))
                                 (sorted deps)
                      end
                   ++ [rule;
                       ("Total: " ++ str_of_nat (List.length deps)
                                  ++ " files")%string])
                [] 0))
  /\ (forall d,
         In d deps -> is_relative_to d (resolve (cwd // repo_root)) = false ->
         exists printed bad rest msg,
           sorted deps = printed ++ bad :: rest
           /\ (forall x, In x printed ->
                         is_relative_to x (resolve (cwd // repo_root)) = true)
           /\ is_relative_to bad (resolve (cwd // repo_root)) = false
           /\ main fs cwd fuel (prog :: repo_root :: focus_file :: more)
              = Some (mkOutput
                        ([("Dependencies for " ++ focus_file ++ ":")%string;
                          rule]
                           ++ map (listing_line (resolve (cwd // repo_root)))
                                  printed)
                        [("Unexpected error: " ++ msg)%string] 1)).
Proof.
  intros T.
  assert (N : NoDup deps).
  { destruct (trace_dependencies_Return _ _ _ _ _ T) as [st [Hst ->]].
    apply (trace_Return_invariant _ _ _ _ _ Hst). }
  split; [intros d; apply sorted_In |].
  split; [apply sorted_NoDup, N |].
  split; [apply sorted_ascending, N |].
  split.
  - intros H. unfold main. rewrite T.
    destruct deps as [| d0 deps']; [reflexivity |].
    rewrite print_all; [reflexivity |].
    intros d Hd. apply H, sorted_In, Hd.
  - intros d Hd Hr. unfold main. rewrite T.
    destruct deps as [| d0 deps']; [destruct Hd |].
    destruct (print_stops (resolve (cwd // repo_root)) (sorted (d0 :: deps')) d
                          (proj2 (sorted_In _ _) Hd) Hr)
      as [printed [bad [rest [msg [E [Hp [Hb P]]]]]]].
    exists printed, bad, rest, msg. rewrite P.
    split; [exact E | split; [exact Hp | split; [exact Hb | reflexivity]]].
Qed.

Lemma main_lists_dependencies_cycle :
  trace_dependencies Examples.fs_cycle (resolve (Examples.P [] // "/repo")) 4
                     "a.py"
  = Some (Return [Examples.P ["repo"; "b.py"]; Examples.P ["repo"; "c.py"]])
  /\ main Examples.fs_cycle (Examples.P []) 4
          ["trace_dependencies.py"; "/repo"; "a.py"]
     = Some (mkOutput ["Dependencies for a.py:"; rule; "  b.py"; "  c.py"; rule;
                       "Total: 2 files"]
                      [] 0).
Proof.
  assert (T : trace_dependencies Examples.fs_cycle
                (resolve (Examples.P [] // "/repo")) 4 "a.py"
              = Some (Return [Examples.P ["repo"; "b.py"];
                              Examples.P ["repo"; "c.py"]]))
    by (vm_compute; reflexivity).
  split; [exact T |].
  destruct (main_lists_dependencies
              Examples.fs_cycle (Examples.P []) 4 "trace_dependencies.py"
              "/repo" "a.py" [] _ T) as [_ [_ [_ [H _]]]].
  etransitivity; [apply H | vm_compute; reflexivity].
  intros d [<- | [<- | []]]; reflexivity.
Defined.

(** X9: [main] exits with status 0 or 1.  It exits with 0 exactly when it
    was given a root and a focus file, the traversal returned, and every
    dependency lies below the resolved root; only then does it print the
    total.  The error stream stays empty exactly when the status is 0 or
    the arguments were too few (the usage text goes to standard output). *)
Theorem main_exit_status (fs : FS) (cwd : Path) (fuel : nat)
        (argv : list string) (out : output) :
  main fs cwd fuel argv = Some out ->
  (exit_status out = 0 \/ exit_status out = 1)
  /\ (exit_status out = 0 <->
      exists prog repo_root focus_file more deps,
        argv = prog :: repo_root :: focus_file :: more
        /\ trace_dependencies fs (resolve (cwd // repo_root)) fuel focus_file
           = Some (Return deps)
        /\ (forall d, In d deps ->
                      is_relative_to d (resolve (cwd // repo_root)) = true)
        /\ last (stdout out) ""
           = ("Total: " ++ str_of_nat (List.length deps) ++ " files")%string)
  /\ (stderr out = [] <-> exit_status out = 0 \/ List.length argv < 3).
Proof.
  intros M.
  destruct argv as [| prog [| repo_root [| focus_file more]]];
    try (inversion M; subst; cbn [exit_status stderr List.length];
         split; [right; reflexivity |];
         split; [split; [discriminate | intros [? [? [? [? [? [E _]]]]]];
                                        discriminate E] |];
         split; [intros _; right; lia | reflexivity]).
  destruct (trace_dependencies fs (resolve (cwd // repo_root)) fuel focus_file)
    as [[e | deps] |] eqn:T.
  - unfold main in M. rewrite T in M.
    assert (E : exit_status out = 1 /\ stderr out <> []).
    { destruct e; inversion M; subst; split; try reflexivity; discriminate. }
    destruct E as [E1 E2]. rewrite E1.
    split; [right; reflexivity |].
    split; [split; [discriminate |] |].
    + intros [? [? [? [? [deps [E [T' _]]]]]]]. inversion E; subst.
      rewrite T in T'. discriminate.
    + split; [intros H; contradiction |].
      intros [H | H]; [discriminate | simpl in H; lia].
  - destruct (main_report fs cwd fuel prog repo_root focus_file more deps T)
      as [[Hall [lines M']] | [Hbad [msg [lines M']]]];
      rewrite M' in M; inversion M; subst; cbn [exit_status stderr stdout].
    + split; [left; reflexivity |].
      split; [split; [intros _ | reflexivity] | split; [auto | reflexivity]].
      exists prog, repo_root, focus_file, more, deps.
      split; [reflexivity | split; [exact T | split; [exact Hall |]]].
      apply last_two.
    + split; [right; reflexivity |].
      split; [split; [discriminate |] |].
      * intros [? [? [? [? [deps' [E [T' [Hall _]]]]]]]]. inversion E; subst.
        rewrite T in T'. inversion T'; subst.
        destruct Hbad as [d [Hd Hr]]. rewrite (Hall d Hd) in Hr. discriminate.
      * split; [discriminate |].
        intros [H | H]; [discriminate | simpl in H; lia].
  - unfold main in M. rewrite T in M. discriminate.
Qed.

Lemma main_exit_status_stray :
  exists out,
    main Layout.fs (Layout.at_ []) 3
         ["trace_dependencies.py"; "/repo"; "app/rel.py"] = Some out
    /\ stdout out = ["Dependencies for app/rel.py:"; rule]
    /\ exit_status out = 1
    /\ (exit_status out = 0 \/ exit_status out = 1).
Proof.
  destruct (main Layout.fs (Layout.at_ []) 3
                 ["trace_dependencies.py"; "/repo"; "app/rel.py"])
    as [out |] eqn:M; [| vm_compute in M; discriminate M].
  exists out. split; [reflexivity |].
  destruct (main_exit_status _ _ _ _ _ M) as [H _].
  split; [| split; [| exact H]];
    vm_compute in M; inversion M; reflexivity.
Defined.

(* ================================================================== *)
(** ** The groups of changed files *)

Section Groups.
Import GitChanges.

Lemma categorize_fold (files : list file_info) (cats : categories) :
  fold_left categorize files cats
  = mkCategories
      (features cats
         ++ filter (fun f => negb (is_test f) && negb (is_doc f)
                             && negb (is_config f) && added_or_modified f)
                   files)
      (tests cats ++ filter is_test files)
      (docs cats ++ filter (fun f => negb (is_test f) && is_doc f) files)
      (config cats
         ++ filter (fun f => negb (is_test f) && negb (is_doc f) && is_config f)
                   files)
      (other cats
         ++ filter (fun f => negb (is_test f) && negb (is_doc f)
                             && negb (is_config f)
                             && negb (added_or_modified f))
                   files).
Proof.
  revert cats. induction files as [| f files IH]; intros cats.
  - simpl. rewrite !app_nil_r. destruct cats; reflexivity.
  - cbn [fold_left filter]. rewrite IH. unfold categorize.
    destruct (is_test f), (is_doc f), (is_config f), (added_or_modified f);
      cbn [features tests docs config other negb andb];
      rewrite <- ?app_assoc; reflexivity.
Qed.

Lemma contains_after (x s : string) (c : ascii) :
  Pystr.contains x s = true -> Pystr.contains x (String c s) = true.
Proof.
  intros H. cbn [Pystr.contains]. rewrite H. apply orb_true_r.
Qed.

Lemma contains_app (x a b : string) :
  Pystr.contains x (a ++ x ++ b) = true.
Proof.
  induction a as [| c a IH].
  - simpl. destruct (x ++ b)%string eqn:E.
    + destruct x; [reflexivity | discriminate].
    + cbn [Pystr.contains]. rewrite <- E.
      replace (String.prefix x (x ++ b)) with true; [reflexivity |].
      symmetry. clear E. induction x as [| d x IHx]; simpl.
      * destruct b; reflexivity.
      * rewrite IHx. destruct (ascii_dec d d); [reflexivity | contradiction].
  - apply contains_after, IH.
Qed.

Lemma filter_lengths {A : Type} (p q r s t : A -> bool) (l : list A) :
  (forall x, In x l ->
             List.length (filter p [x]) + List.length (filter q [x])
             + List.length (filter r [x]) + List.length (filter s [x])
             + List.length (filter t [x]) = 1) ->
  List.length (filter p l) + List.length (filter q l)
  + List.length (filter r l) + List.length (filter s l)
  + List.length (filter t l) = List.length l.
Proof.
  induction l as [| x l IH]; intros H; [reflexivity |].
  specialize (H x (or_introl eq_refl)) as Hx.
  assert (Hl : forall y, In y l ->
                 List.length (filter p [y]) + List.length (filter q [y])
                 + List.length (filter r [y]) + List.length (filter s [y])
                 + List.length (filter t [y]) = 1)
    by (intros y Hy; apply H; right; exact Hy).
  specialize (IH Hl). cbn [filter] in *.
  destruct (p x), (q x), (r x), (s x), (t x); simpl in *; lia.
Qed.

End Groups.

(** X10: [categorize_changes] puts every changed file into exactly one of
    the five groups and keeps the order of the input within each group.
    The tests of the chain take precedence in the order test, doc,
    config, status: a path that holds the letters [test] anywhere, in
    any case, is grouped with the tests whatever else it is; and only a
    file with status [A] or [M] can count as a feature. *)
Theorem categorize_changes_partition (files : list GitChanges.file_info) :
  GitChanges.tests (GitChanges.categorize_changes files)
  = filter GitChanges.is_test files
  /\ GitChanges.docs (GitChanges.categorize_changes files)
     = filter (fun f => negb (GitChanges.is_test f) && GitChanges.is_doc f) files
  /\ GitChanges.config (GitChanges.categorize_changes files)
     = filter (fun f => negb (GitChanges.is_test f) && negb (GitChanges.is_doc f)
                        && GitChanges.is_config f) files
  /\ GitChanges.features (GitChanges.categorize_changes files)
     = filter (fun f => negb (GitChanges.is_test f) && negb (GitChanges.is_doc f)
                        && negb (GitChanges.is_config f)
                        && GitChanges.added_or_modified f) files
  /\ GitChanges.other (GitChanges.categorize_changes files)
     = filter (fun f => negb (GitChanges.is_test f) && negb (GitChanges.is_doc f)
                        && negb (GitChanges.is_config f)
                        && negb (GitChanges.added_or_modified f)) files
  /\ List.length (GitChanges.features (GitChanges.categorize_changes files))
     + List.length (GitChanges.tests (GitChanges.categorize_changes files))
     + List.length (GitChanges.docs (GitChanges.categorize_changes files))
     + List.length (GitChanges.config (GitChanges.categorize_changes files))
     + List.length (GitChanges.other (GitChanges.categorize_changes files))
     = List.length files
  /\ (forall f before after,
         In f files ->
         Pystr.lower (GitChanges.path f) = (before ++ "test" ++ after)%string ->
         In f (GitChanges.tests (GitChanges.categorize_changes files)))
  /\ (forall f,
         In f (GitChanges.features (GitChanges.categorize_changes files)) ->
         GitChanges.status f = "A" \/ GitChanges.status f = "M").
Proof.
  unfold GitChanges.categorize_changes. rewrite categorize_fold.
  cbn [GitChanges.features GitChanges.tests GitChanges.docs GitChanges.config
       GitChanges.other app].
  split; [reflexivity |]. split; [reflexivity |]. split; [reflexivity |].
  split; [reflexivity |]. split; [reflexivity |]. split; [| split].
  - apply filter_lengths. intros f _. cbn [filter].
    destruct (GitChanges.is_test f), (GitChanges.is_doc f),
      (GitChanges.is_config f), (GitChanges.added_or_modified f); reflexivity.
  - intros f before after Hf E. apply filter_In. split; [exact Hf |].
    unfold GitChanges.is_test. rewrite E, contains_app. reflexivity.
  - intros f Hf. apply filter_In in Hf. destruct Hf as [_ Hf].
    apply andb_true_iff in Hf. destruct Hf as [_ Hf].
    unfold GitChanges.added_or_modified in Hf. simpl in Hf.
    destruct (String.eqb_spec (GitChanges.status f) "A") as [-> | _];
      [left; reflexivity |].
    destruct (String.eqb_spec (GitChanges.status f) "M") as [-> | _];
      [right; reflexivity | discriminate].
Qed.

Lemma categorize_changes_partition_latest :
  GitChanges.categorize_changes
    [GitChanges.mkFileInfo "M" "src/Latest.py";
     GitChanges.mkFileInfo "D" "src/old.py";
     GitChanges.mkFileInfo "A" "src/new.py";
     GitChanges.mkFileInfo "M" "README.md"]
  = GitChanges.mkCategories
      [GitChanges.mkFileInfo "A" "src/new.py"]
      [GitChanges.mkFileInfo "M" "src/Latest.py"]
      [GitChanges.mkFileInfo "M" "README.md"]
      []
      [GitChanges.mkFileInfo "D" "src/old.py"]
  /\ In (GitChanges.mkFileInfo "M" "src/Latest.py")
        (GitChanges.tests
           (GitChanges.categorize_changes
              [GitChanges.mkFileInfo "M" "src/Latest.py";
               GitChanges.mkFileInfo "D" "src/old.py";
               GitChanges.mkFileInfo "A" "src/new.py";
               GitChanges.mkFileInfo "M" "README.md"])).
Proof.
  split; [vm_compute; reflexivity |].
  destruct (categorize_changes_partition
              [GitChanges.mkFileInfo "M" "src/Latest.py";
               GitChanges.mkFileInfo "D" "src/old.py";
               GitChanges.mkFileInfo "A" "src/new.py";
               GitChanges.mkFileInfo "M" "README.md"])
    as [_ [_ [_ [_ [_ [_ [H _]]]]]]].
  apply (H _ "src/la" ".py"); [left; reflexivity | reflexivity].
Defined.

(* ================================================================== *)
(** ** Blank lines, comment lines and lines of code *)

Section Counting.
Import Pystr CodeAnalyzer.

Lemma lstrip_head (s : string) :
  lstrip s = "" \/ exists c t, lstrip s = String c t /\ Re.space c = false.
Proof.
  induction s as [| c s IH]; [left; reflexivity |].
  simpl. destruct (Re.space c) eqn:E; [exact IH |].
  right. exists c, s. auto.
Qed.

Lemma lstrip_empty (s : string) :
  lstrip s = "" <-> forallb Re.space (Text.chars s) = true.
Proof.
  unfold Text.chars. induction s as [| c s IH]; simpl; [tauto |].
  destruct (Re.space c); simpl; [exact IH |].
  split; discriminate.
Qed.

Lemma rstrip_head (c : ascii) (t : string) :
  Re.space c = false -> rstrip (String c t) <> "".
Proof.
  intros H. cbn [rstrip]. destruct (rstrip t); [rewrite H |]; discriminate.
Qed.

Lemma strip_empty (s : string) :
  strip s = "" <-> forallb Re.space (Text.chars s) = true.
Proof.
  unfold strip. rewrite <- lstrip_empty. split.
  - intros H. destruct (lstrip_head s) as [E | [c [t [E Hc]]]]; [exact E |].
    rewrite E in H. apply rstrip_head in H; [contradiction | exact Hc].
  - intros ->. reflexivity.
Qed.

Lemma space_not_hash_only (c : ascii) :
  Re.space c = true -> Re.only "#" c = false.
Proof. by_cases c. Qed.

Lemma space_not_slash_only (c : ascii) :
  Re.space c = true -> Re.only "/" c = false.
Proof. by_cases c. Qed.

Lemma spaces_blocked (q : ascii -> bool) (s : list ascii) :
  (forall c, Re.space c = true -> q c = false) ->
  forallb Re.space s = true -> Re.blocked Re.space q s.
Proof.
  intros Hq. induction s as [| c s IH]; simpl; [trivial |].
  intros H. apply andb_true_iff in H. destruct H as [Hc Hs]. auto.
Qed.

(** On a line of white space neither comment pattern matches. *)
Lemma blank_no_hash (s : list ascii) :
  forallb Re.space s = true -> Re.m_items hash_comment None s 0 0 0 = None.
Proof.
  intros H. unfold hash_comment. cbn [Re.m_items].
  apply rep_blocked with (q := Re.only "#").
  - split; intros; cbn [Re.m_items]; [reflexivity |].
    match goal with E : Re.only _ _ = false |- _ => rewrite E end. reflexivity.
  - apply spaces_blocked; [apply space_not_hash_only | exact H].
Qed.

Lemma blank_no_slash (s : list ascii) :
  forallb Re.space s = true -> Re.m_items slash_comment None s 0 0 0 = None.
Proof.
  intros H. unfold slash_comment. cbn [Re.m_items Re.lit].
  apply rep_blocked with (q := Re.only "/").
  - split; intros; cbn [Re.m_items]; [reflexivity |].
    match goal with E : Re.only _ _ = false |- _ => rewrite E end. reflexivity.
  - apply spaces_blocked; [apply space_not_slash_only | exact H].
Qed.

Lemma comment_alternatives (language : string) :
  Forall (fun pat => pat = hash_comment \/ pat = slash_comment)
         (get comment_patterns language [hash_comment; slash_comment]).
Proof.
  assert (H1 : Forall (fun pat => pat = hash_comment \/ pat = slash_comment)
                      [hash_comment]) by (repeat constructor; auto).
  assert (H2 : Forall (fun pat => pat = hash_comment \/ pat = slash_comment)
                      [slash_comment]) by (repeat constructor; auto).
  assert (H3 : Forall (fun pat => pat = hash_comment \/ pat = slash_comment)
                      [hash_comment; slash_comment]) by (repeat constructor; auto).
  unfold get, comment_patterns. cbn [find fst snd].
  repeat match goal with
         | |- context [String.eqb ?k language] =>
             destruct (String.eqb k language); [assumption |]
         end.
  exact H3.
Qed.

Lemma blank_not_comment (language line : string) :
  is_blank line = true ->
  re_match (get comment_patterns language [hash_comment; slash_comment]) line
  = false.
Proof.
  unfold is_blank. intros H. apply String.eqb_eq, strip_empty in H.
  unfold re_match.
  induction (comment_alternatives language) as [| pat l [-> | ->] _ IH];
    [reflexivity | |]; cbn [existsb].
  - rewrite (blank_no_hash _ H). exact IH.
  - rewrite (blank_no_slash _ H). exact IH.
Qed.

Lemma filter_three {A : Type} (p q : A -> bool) (l : list A) :
  (forall x, p x = true -> q x = false) ->
  List.length l
  = List.length (filter p l) + List.length (filter q l)
    + List.length (filter (fun x => negb (p x) && negb (q x)) l).
Proof.
  intros H. induction l as [| x l IH]; [reflexivity |].
  cbn [filter]. pose proof (H x) as Hx.
  destruct (p x); [rewrite Hx by reflexivity |]; simpl; [lia |].
  destruct (q x); simpl; lia.
Qed.

End Counting.

(** X11: [count_loc] never counts a line twice: a blank line matches no
    comment pattern of any language, so the number of code lines, which
    the source computes by subtraction, is the number of lines that are
    neither blank nor comments and is never negative; the three counts
    add up to the total for every file and every language. *)
Theorem count_loc_partition (language : string) (file_lines : list string) :
  (forall line,
      CodeAnalyzer.is_blank line = true ->
      CodeAnalyzer.re_match
        (CodeAnalyzer.get CodeAnalyzer.comment_patterns language
           [CodeAnalyzer.hash_comment; CodeAnalyzer.slash_comment]) line
      = false)
  /\ CodeAnalyzer.code (CodeAnalyzer.count_loc language file_lines)
     = CodeAnalyzer.count
         (fun line =>
            negb (CodeAnalyzer.is_blank line)
            && negb (CodeAnalyzer.re_match
                       (CodeAnalyzer.get CodeAnalyzer.comment_patterns language
                          [CodeAnalyzer.hash_comment;
                           CodeAnalyzer.slash_comment]) line))
         file_lines
  /\ (0 <= CodeAnalyzer.code (CodeAnalyzer.count_loc language file_lines))%Z
  /\ (CodeAnalyzer.blank (CodeAnalyzer.count_loc language file_lines)
      + CodeAnalyzer.comments (CodeAnalyzer.count_loc language file_lines)
      <= CodeAnalyzer.total (CodeAnalyzer.count_loc language file_lines))%Z.
Proof.
  split; [intros line; apply blank_not_comment |].
  pose proof (filter_three CodeAnalyzer.is_blank
                (CodeAnalyzer.re_match
                   (CodeAnalyzer.get CodeAnalyzer.comment_patterns language
                      [CodeAnalyzer.hash_comment; CodeAnalyzer.slash_comment]))
                file_lines (blank_not_comment language)) as E.
  unfold CodeAnalyzer.count_loc, CodeAnalyzer.count.
  cbn [CodeAnalyzer.code CodeAnalyzer.blank CodeAnalyzer.comments
       CodeAnalyzer.total].
  split; [| split]; lia.
Qed.

Lemma count_loc_partition_python :
  CodeAnalyzer.count_loc "python"
    [("import os" ++ Text.nl)%string; Text.nl; ("# c" ++ Text.nl)%string;
     ("   " ++ Text.nl)%string; ("x = 1  # t" ++ Text.nl)%string]
  = CodeAnalyzer.mkLoc 5 2 2 1
  /\ (0 <= 2)%Z.
Proof.
  split; [vm_compute; reflexivity |].
  destruct (count_loc_partition "python"
              [("import os" ++ Text.nl)%string; Text.nl;
               ("# c" ++ Text.nl)%string; ("   " ++ Text.nl)%string;
               ("x = 1  # t" ++ Text.nl)%string]) as [_ [_ [H _]]].
  exact H.
Defined.

(* ================================================================== *)
(** ** Nesting depth *)

Section Nesting.
Import Pystr CodeAnalyzer.

Lemma numbered_In (l : list string) (a i : nat) (x : string) :
  In (i, x) (combine (seq a (List.length l)) l) ->
  a <= i /\ nth_error l (i - a) = Some x.
Proof.
  revert a. induction l as [| y l IH]; intros a; [intros [] |].
  cbn [List.length seq combine]. intros [[= <- <-] | H].
  - rewrite Nat.sub_diag. split; [lia | reflexivity].
  - apply IH in H. destruct H as [Ha Hn]. split; [lia |].
    replace (i - a) with (S (i - S a)) by lia. exact Hn.
Qed.

Lemma In_numbered (l : list string) (a : nat) (x : string) :
  In x l -> exists i, In (i, x) (combine (seq a (List.length l)) l).
Proof.
  revert a. induction l as [| y l IH]; intros a; [intros [] |].
  cbn [List.length seq combine]. intros [-> | H].
  - exists a. left. reflexivity.
  - destruct (IH (S a) H) as [i Hi]. exists i. right. exact Hi.
Qed.

Lemma firstn_nonempty {A : Type} (n : nat) (l : list A) :
  firstn (S n) l <> [] <-> l <> [].
Proof. destruct l; simpl; split; congruence. Qed.

Lemma firstn_subset {A : Type} (n : nat) (l : list A) (x : A) :
  In x (firstn n l) -> In x l.
Proof.
  revert l. induction n as [| n IH]; intros [| y l]; simpl; try tauto.
  intros [-> | H]; auto.
Qed.

Variable indent_size : nat.

(** A line that counts, and one that is deep. *)
Let counted (line : string) : bool := Text.nonempty (strip line).
Let depth (line : string) : nat := indent_of line / indent_size.
Let deep (numbered : nat * string) : bool :=
  counted (snd numbered) && Nat.leb 4 (depth (snd numbered)).

Lemma nest_fold (numbered : list (nat * string)) (m : nat) (d : list nat) :
  exists m',
    fold_left (nest indent_size) numbered (m, d)
    = (m', d ++ map fst (filter deep numbered))
    /\ m <= m'
    /\ (forall i line, In (i, line) numbered -> counted line = true ->
                       depth line <= m')
    /\ (m' = m \/ exists i line, In (i, line) numbered /\ counted line = true
                                 /\ depth line = m').
Proof.
  revert m d. induction numbered as [| [i line] numbered IH]; intros m d.
  - exists m. simpl. rewrite app_nil_r.
    split; [reflexivity | split; [lia | split; [intros ? ? [] | left; reflexivity]]].
  - cbn [fold_left nest filter]. unfold deep at 1. cbn [snd].
    fold (counted line). fold (depth line).
    destruct (counted line) eqn:C; cbn [andb].
    + destruct (IH (if Nat.ltb m (depth line) then depth line else m)
                   (if Nat.leb 4 (depth line) then d ++ [i] else d))
        as [m' [E [Hm [Hall Hex]]]].
      exists m'. rewrite E.
      assert (Hmax : m <= m' /\ depth line <= m').
      { destruct (Nat.ltb_spec m (depth line)); lia. }
      split; [| split; [lia | split]].
      * destruct (Nat.leb 4 (depth line)); cbn [map fst];
          rewrite <- ?app_assoc; reflexivity.
      * intros j l [[= <- <-] | H] Hc; [lia | eauto].
      * destruct Hex as [-> | [j [l [Hin [Hc Hd]]]]].
        -- destruct (Nat.ltb_spec m (depth line)); [right | left; reflexivity].
           exists i, line. split; [left; reflexivity | auto].
        -- right. exists j, l. split; [right; exact Hin | auto].
    + destruct (IH m d) as [m' [E [Hm [Hall Hex]]]].
      exists m'. rewrite E.
      split; [reflexivity | split; [exact Hm | split]].
      * intros j l [[= <- <-] | H] Hc; [congruence | eauto].
      * destruct Hex as [-> | [j [l [Hin [Hc Hd]]]]]; [left; reflexivity |].
        right. exists j, l. split; [right; exact Hin | auto].
Qed.

End Nesting.

Lemma indent_size_positive (language : string) :
  0 < CodeAnalyzer.get CodeAnalyzer.indent_chars language 4.
Proof.
  unfold CodeAnalyzer.get, CodeAnalyzer.indent_chars. cbn [find fst snd].
  repeat match goal with
         | |- context [String.eqb ?k language] =>
             destruct (String.eqb k language); [cbn [snd]; lia |]
         end.
  lia.
Qed.

(** X12: the two results of [analyze_nesting] agree: the maximal depth is
    at least 4 exactly when some line is listed as deeply nested.  At
    most ten lines are listed; each listed number is the number of a
    line that is not blank and has at least four times the indent size
    of white space in front; and no line that is not blank is deeper
    than the maximal depth. *)
Theorem analyze_nesting_consistent (language : string)
        (file_lines : list string) :
  (4 <= CodeAnalyzer.max_depth (CodeAnalyzer.analyze_nesting language file_lines)
   <-> CodeAnalyzer.deep_nesting_lines
         (CodeAnalyzer.analyze_nesting language file_lines) <> [])
  /\ List.length (CodeAnalyzer.deep_nesting_lines
                    (CodeAnalyzer.analyze_nesting language file_lines)) <= 10
  /\ (forall i,
         In i (CodeAnalyzer.deep_nesting_lines
                 (CodeAnalyzer.analyze_nesting language file_lines)) ->
         1 <= i
         /\ exists line,
              nth_error file_lines (i - 1) = Some line
              /\ Text.nonempty (Pystr.strip line) = true
              /\ 4 * CodeAnalyzer.get CodeAnalyzer.indent_chars language 4
                 <= CodeAnalyzer.indent_of line)
  /\ (forall line,
         In line file_lines -> Text.nonempty (Pystr.strip line) = true ->
         CodeAnalyzer.indent_of line
           / CodeAnalyzer.get CodeAnalyzer.indent_chars language 4
         <= CodeAnalyzer.max_depth
              (CodeAnalyzer.analyze_nesting language file_lines)).
Proof.
  pose proof (indent_size_positive language) as Hpos.
  unfold CodeAnalyzer.analyze_nesting.
  set (size := CodeAnalyzer.get CodeAnalyzer.indent_chars language 4) in *.
  destruct (nest_fold size (CodeAnalyzer.enumerate file_lines) 0 [])
    as [m [E [_ [Hall Hex]]]].
  rewrite E. cbn [CodeAnalyzer.max_depth CodeAnalyzer.deep_nesting_lines app].
  set (deep := fun numbered : nat * string =>
                 Text.nonempty (Pystr.strip (snd numbered))
                 && Nat.leb 4 (CodeAnalyzer.indent_of (snd numbered) / size)) in *.
  assert (Hdeep : forall i,
             In i (map fst (filter deep (CodeAnalyzer.enumerate file_lines))) ->
             exists line, In (i, line) (CodeAnalyzer.enumerate file_lines)
                          /\ Text.nonempty (Pystr.strip line) = true
                          /\ 4 <= CodeAnalyzer.indent_of line / size).
  { intros i Hi. apply in_map_iff in Hi. destruct Hi as [[j line] [<- Hi]].
    apply filter_In in Hi. destruct Hi as [Hin Hd].
    unfold deep in Hd. cbn [snd fst] in *. apply andb_true_iff in Hd.
    destruct Hd as [Hc Hd]. apply Nat.leb_le in Hd. eauto. }
  split; [| split; [| split]].
  - rewrite firstn_nonempty. split.
    + intros H4. destruct Hex as [-> | [i [line [Hin [Hc Hd]]]]]; [lia |].
      intros Hnil.
      assert (Hi : In i (map fst (filter deep (CodeAnalyzer.enumerate file_lines)))).
      { apply in_map_iff. exists (i, line). split; [reflexivity |].
        apply filter_In. split; [exact Hin |]. unfold deep. cbn [snd].
        rewrite Hc. apply Nat.leb_le. lia. }
      rewrite Hnil in Hi. destruct Hi.
    + intros Hne.
      destruct (map fst (filter deep (CodeAnalyzer.enumerate file_lines)))
        as [| i rest] eqn:El; [contradiction |].
      destruct (Hdeep i (or_introl eq_refl)) as [line [Hin [Hc Hd]]].
      specialize (Hall i line Hin Hc). lia.
  - rewrite length_firstn. lia.
  - intros i Hi. apply firstn_subset in Hi.
    destruct (Hdeep i Hi) as [line [Hin [Hc Hd]]].
    apply numbered_In in Hin. destruct Hin as [Hi1 Hn].
    split; [exact Hi1 |]. exists line. split; [exact Hn | split; [exact Hc |]].
    pose proof (Nat.Div0.mul_div_le (CodeAnalyzer.indent_of line) size) as Hle.
    nia.
  - intros line Hin Hc.
    destruct (In_numbered file_lines 1 line Hin) as [i Hi].
    apply (Hall i line Hi Hc).
Qed.

Lemma analyze_nesting_consistent_python :
  CodeAnalyzer.analyze_nesting "python"
    ["def f():"; "    if a:"; "        if b:"; "            if c:";
     "                return 1"; ""; "x = 2"]
  = CodeAnalyzer.mkNesting 4 [5]
  /\ 4 <= 4.
Proof.
  split; [vm_compute; reflexivity |].
  destruct (analyze_nesting_consistent "python"
              ["def f():"; "    if a:"; "        if b:"; "            if c:";
               "                return 1"; ""; "x = 2"]) as [H _].
  apply H. vm_compute. discriminate.
Defined.

(* ================================================================== *)
(** ** Repeated blocks *)

Section Blocks.
Import Pystr CodeAnalyzer.

Lemma block_eqb_eq (a b : list string) : block_eqb a b = true <-> a = b.
Proof.
  unfold block_eqb. destruct (list_eq_dec string_dec a b); split; congruence.
Qed.

Lemma record_block_new (b : list string) (i : nat)
      (seen : list (list string * list nat)) :
  ~ In b (map fst seen) -> record_block b i seen = seen ++ [(b, [i])].
Proof.
  induction seen as [| [b0 ps0] seen IH]; intros H; [reflexivity |].
  cbn [record_block]. destruct (block_eqb b0 b) eqn:E.
  - apply block_eqb_eq in E. subst. exfalso. apply H. left. reflexivity.
  - rewrite IH; [reflexivity |]. intros Hin. apply H. right. exact Hin.
Qed.

Lemma record_block_keys (b : list string) (i : nat)
      (seen : list (list string * list nat)) :
  In b (map fst seen) -> map fst (record_block b i seen) = map fst seen.
Proof.
  induction seen as [| [b0 ps0] seen IH]; intros H; [destruct H |].
  cbn [record_block]. destruct (block_eqb b0 b) eqn:E; [reflexivity |].
  cbn [map fst]. rewrite IH; [reflexivity |].
  destruct H as [H | H]; [| exact H].
  simpl in H. subst. rewrite (proj2 (block_eqb_eq b b) eq_refl) in E.
  discriminate.
Qed.

Lemma record_block_old (b : list string) (i : nat)
      (seen : list (list string * list nat)) (e : list string * list nat) :
  In b (map fst seen) -> NoDup (map fst seen) ->
  In e (record_block b i seen)
  <-> (In e seen /\ fst e <> b)
      \/ exists ps, In (b, ps) seen /\ e = (b, ps ++ [i]).
Proof.
  induction seen as [| [b0 ps0] seen IH]; intros H N; [destruct H |].
  inversion N as [| ? ? Hb0 N']; subst.
  cbn [record_block]. destruct (block_eqb b0 b) eqn:E.
  - apply block_eqb_eq in E. subst b0.
    assert (Hrest : forall x, In x seen -> fst x <> b).
    { intros x Hx Ex. apply Hb0. rewrite <- Ex. apply in_map, Hx. }
    split.
    + intros [<- | He].
      * right. exists ps0. split; [left; reflexivity | reflexivity].
      * left. split; [right; exact He | apply Hrest, He].
    + intros [[[<- | He] Hne] | [ps [[[= <-] | Hin] ->]]].
      * exfalso. apply Hne. reflexivity.
      * right. exact He.
      * left. reflexivity.
      * exfalso. apply (Hrest _ Hin). reflexivity.
  - assert (Hne : b0 <> b).
    { intros ->. rewrite (proj2 (block_eqb_eq b b) eq_refl) in E. discriminate. }
    assert (Hin : In b (map fst seen)).
    { destruct H as [H | H]; [contradiction | exact H]. }
    specialize (IH Hin N'). cbn [In]. rewrite IH. split.
    + intros [<- | [[He Hf] | [ps [Hp ->]]]].
      * left. split; [left; reflexivity | exact Hne].
      * left. split; [right; exact He | exact Hf].
      * right. exists ps. split; [right; exact Hp | reflexivity].
    + intros [[[<- | He] Hf] | [ps [[[= -> ->] | Hp] ->]]].
      * left. reflexivity.
      * right. left. split; assumption.
      * contradiction Hne. reflexivity.
      * right. right. exists ps. split; [exact Hp | reflexivity].
Qed.

Lemma increasing_snoc (ps : list nat) (k : nat) :
  increasing ps = true -> (forall p, In p ps -> p < k) ->
  increasing (ps ++ [k]) = true.
Proof.
  induction ps as [| a ps IH]; intros Hi Hk; [reflexivity |].
  destruct ps as [| b ps].
  - cbn [app increasing]. rewrite andb_true_r. apply Nat.ltb_lt, Hk.
    left. reflexivity.
  - cbn [increasing] in Hi. apply andb_true_iff in Hi. destruct Hi as [Hab Hi].
    change ((a :: b :: ps) ++ [k]) with (a :: (b :: ps) ++ [k]).
    cbn [increasing]. change (b :: ps ++ [k]) with ((b :: ps) ++ [k]).
    cbn [app]. rewrite Hab. cbn [andb].
    change (b :: ps ++ [k]) with ((b :: ps) ++ [k]).
    apply IH; [exact Hi |]. intros p Hp. apply Hk. right. exact Hp.
Qed.

Lemma keys_In (seen : list (list string * list nat)) (b : list string) :
  In b (map fst seen) <-> exists ps, In (b, ps) seen.
Proof.
  rewrite in_map_iff. split.
  - intros [[b' ps] [<- H]]. exists ps. exact H.
  - intros [ps H]. exists (b, ps). auto.
Qed.

Lemma NoDup_last {A : Type} (xs : list A) (x : A) :
  NoDup xs -> ~ In x xs -> NoDup (xs ++ [x]).
Proof.
  induction xs as [| y xs IH]; intros N H.
  - constructor; [intros [] | constructor].
  - inversion N as [| ? ? Hy N']; subst. cbn [app]. constructor.
    + intros Hin. apply in_app_or in Hin. destruct Hin as [Hin | [<- | []]].
      * contradiction.
      * apply H. left. reflexivity.
    + apply IH; [exact N' |]. intros Hin. apply H. right. exact Hin.
Qed.

Variable l : list string.
Variable min_lines : nat.

Lemma recorded_step (k : nat) (seen : list (list string * list nat)) :
  recorded l min_lines k seen ->
  recorded l min_lines (S k) (record_block (window l min_lines k) k seen).
Proof.
  intros [N S C].
  destruct (in_dec (list_eq_dec string_dec) (window l min_lines k)
                   (map fst seen)) as [Hin | Hnew].
  - pose proof (record_block_old (window l min_lines k) k seen) as R.
    constructor.
    + rewrite record_block_keys by exact Hin. exact N.
    + intros b ps H. apply (R (b, ps) Hin N) in H.
      destruct H as [[H _] | [ps0 [H [= -> ->]]]].
      * destruct (S b ps H) as [H1 [H2 H3]].
        split; [exact H1 | split; [exact H2 |]].
        intros p Hp. destruct (H3 p Hp). split; [lia | assumption].
      * destruct (S _ ps0 H) as [H1 [H2 H3]].
        split; [intros E; apply app_eq_nil in E; destruct E; discriminate |].
        split; [apply increasing_snoc; [exact H2 | intros p Hp; apply H3, Hp] |].
        intros p Hp. apply in_app_or in Hp. destruct Hp as [Hp | [<- | []]].
        -- destruct (H3 p Hp). split; [lia | assumption].
        -- split; [lia | reflexivity].
    + intros p Hp.
      destruct (Nat.eq_dec p k) as [-> | Hne].
      * pose proof Hin as Hkey. apply keys_In in Hkey. destruct Hkey as [ps Hps].
        exists (ps ++ [k]). split.
        -- apply R; [exact Hin | exact N |]. right. exists ps. auto.
        -- apply in_or_app. right. left. reflexivity.
      * destruct (C p) as [ps [Hps Hp']]; [lia |].
        destruct (list_eq_dec string_dec (window l min_lines p)
                              (window l min_lines k)) as [E | E].
        -- exists (ps ++ [k]). split.
           ++ rewrite E in *. apply R; [exact Hin | exact N |].
              right. exists ps. auto.
           ++ apply in_or_app. left. exact Hp'.
        -- exists ps. split; [| exact Hp'].
           apply R; [exact Hin | exact N |]. left. split; [exact Hps | exact E].
  - rewrite (record_block_new _ _ _ Hnew). constructor.
    + rewrite map_app. cbn [map fst].
      apply NoDup_last; assumption.
    + intros b ps H. apply in_app_or in H. destruct H as [H | [[= <- <-] | []]].
      * destruct (S b ps H) as [H1 [H2 H3]].
        split; [exact H1 | split; [exact H2 |]].
        intros p Hp. destruct (H3 p Hp). split; [lia | assumption].
      * split; [discriminate | split; [reflexivity |]].
        intros p [<- | []]. split; [lia | reflexivity].
    + intros p Hp. destruct (Nat.eq_dec p k) as [-> | Hne].
      * exists [k]. split; [apply in_or_app; right; left; reflexivity |].
        left. reflexivity.
      * destruct (C p) as [ps [Hps Hp']]; [lia |].
        exists ps. split; [apply in_or_app; left; exact Hps | exact Hp'].
Qed.

End Blocks.

Section RepeatedBlocks.
Import Pystr CodeAnalyzer.

Lemma recorded_fold (l : list string) (min_lines n a : nat)
      (seen : list (list string * list nat)) :
  recorded l min_lines a seen ->
  recorded l min_lines (a + n)
           (fold_left (fun seen i => record_block (window l min_lines i) i seen)
                      (seq a n) seen).
Proof.
  revert a seen. induction n as [| n IH]; intros a seen H.
  - rewrite Nat.add_0_r. exact H.
  - cbn [seq fold_left]. rewrite <- Nat.add_succ_comm.
    apply IH, recorded_step, H.
Qed.

Lemma seen_blocks_recorded (l : list string) (min_lines : nat) :
  recorded l min_lines (List.length l - min_lines) (seen_blocks l min_lines).
Proof.
  unfold seen_blocks.
  apply (recorded_fold l min_lines (List.length l - min_lines) 0 []).
  constructor; [constructor | intros ? ? [] | intros p Hp; lia].
Qed.

Lemma insert_by_In (key : duplicate -> nat) (d x : duplicate)
      (ds : list duplicate) :
  In x (insert_by key d ds) <-> x = d \/ In x ds.
Proof.
  induction ds as [| e ds IH]; simpl.
  - intuition.
  - destruct (Nat.ltb (key d) (key e)); simpl; rewrite ?IH; intuition.
Qed.

Lemma sorted_reverse_In (key : duplicate -> nat) (x : duplicate)
      (ds : list duplicate) :
  In x (sorted_reverse key ds) <-> In x ds.
Proof.
  induction ds as [| d ds IH]; simpl; [reflexivity |].
  rewrite insert_by_In, IH. intuition.
Qed.

Lemma duplicates_In (file_lines : list string) (min_lines : nat)
      (d : duplicate) :
  In d (find_duplicate_blocks file_lines min_lines)
  <-> exists b ps,
        In (b, ps) (seen_blocks (normalized file_lines) min_lines)
        /\ 1 < List.length ps
        /\ d = mkDuplicate min_lines (List.length ps) ps
                           (Str.join Text.nl (firstn 3 b)).
Proof.
  unfold find_duplicate_blocks. rewrite sorted_reverse_In, in_flat_map. split.
  - intros [[b ps] [Hin Hd]]. exists b, ps.
    destruct (Nat.ltb_spec 1 (List.length ps)) as [Hl | Hl]; [| destruct Hd].
    destruct Hd as [<- | []]. auto.
  - intros [b [ps [Hin [Hl ->]]]]. exists (b, ps). split; [exact Hin |].
    apply Nat.ltb_lt in Hl. rewrite Hl. left. reflexivity.
Qed.

Lemma increasing_head (a b : nat) (ps : list nat) :
  increasing (a :: b :: ps) = true -> a < b.
Proof.
  cbn [increasing]. intros H. apply andb_true_iff in H.
  apply Nat.ltb_lt, H.
Qed.

(** What is reported, in terms of the windows of the compared lines. *)
Lemma duplicates_sound (file_lines : list string) (min_lines : nat)
      (d : duplicate) :
  In d (find_duplicate_blocks file_lines min_lines) ->
  lines d = min_lines
  /\ occurrences d = List.length (positions d)
  /\ 2 <= occurrences d
  /\ increasing (positions d) = true
  /\ forall p q,
       In p (positions d) -> In q (positions d) ->
       p + min_lines < List.length (normalized file_lines)
       /\ window (normalized file_lines) min_lines p
          = window (normalized file_lines) min_lines q.
Proof.
  intros H. apply duplicates_In in H. destruct H as [b [ps [Hin [Hl ->]]]].
  cbn [lines occurrences positions].
  destruct (seen_blocks_recorded (normalized file_lines) min_lines) as [_ S _].
  destruct (S b ps Hin) as [_ [Hi Hp]].
  split; [reflexivity | split; [reflexivity | split; [lia | split; [exact Hi |]]]].
  intros p q Hp1 Hq1. destruct (Hp p Hp1) as [Hlt ->].
  destruct (Hp q Hq1) as [_ ->]. split; [lia | reflexivity].
Qed.

Lemma keys_unique (seen : list (list string * list nat)) (b : list string)
      (ps qs : list nat) :
  NoDup (map fst seen) -> In (b, ps) seen -> In (b, qs) seen -> qs = ps.
Proof.
  induction seen as [| [b0 ps0] seen IH]; intros N Hps Hqs; [destruct Hps |].
  inversion N as [| ? ? Hb0 N']; subst.
  destruct Hps as [[= -> ->] | Hps], Hqs as [[= <-] | Hqs].
  - reflexivity.
  - exfalso. apply Hb0. apply in_map_iff. exists (b, qs). auto.
  - exfalso. apply Hb0. apply in_map_iff. exists (b0, ps). auto.
  - apply IH; assumption.
Qed.

Lemma duplicates_complete (file_lines : list string) (min_lines i j : nat) :
  i < j -> j + min_lines < List.length (normalized file_lines) ->
  window (normalized file_lines) min_lines i
  = window (normalized file_lines) min_lines j ->
  exists d,
    In d (find_duplicate_blocks file_lines min_lines)
    /\ In i (positions d) /\ In j (positions d).
Proof.
  intros Hij Hj E.
  destruct (seen_blocks_recorded (normalized file_lines) min_lines) as [N S C].
  destruct (C i) as [ps [Hps Hi]]; [lia |].
  destruct (C j) as [qs [Hqs Hj']]; [lia |].
  rewrite <- E in Hqs.
  assert (Eq : qs = ps) by (apply (keys_unique _ _ _ _ N Hps Hqs)).
  subst qs.
  assert (Hl : 1 < List.length ps).
  { destruct ps as [| a [| b ps]]; simpl; try lia; [destruct Hi |].
    destruct Hi as [<- | []]. destruct Hj' as [<- | []]. lia. }
  exists (mkDuplicate min_lines (List.length ps) ps
            (Str.join Text.nl
               (firstn 3 (window (normalized file_lines) min_lines i)))).
  split; [| split; [exact Hi | exact Hj']].
  apply duplicates_In. eauto.
Qed.

Lemma strip_map_kept (l : list string) :
  forallb kept_line l = true -> normalized l = l.
Proof.
  unfold normalized. induction l as [| x l IH]; intros H; [reflexivity |].
  cbn [forallb] in H. apply andb_true_iff in H. destruct H as [Hx Hl].
  unfold kept_line in Hx. apply andb_true_iff in Hx. destruct Hx as [Hx Hc].
  apply andb_true_iff in Hx. destruct Hx as [Hs Hn].
  apply String.eqb_eq in Hs.
  cbn [map filter]. rewrite Hs, Hn, Hc. cbn [andb]. rewrite (IH Hl).
  reflexivity.
Qed.

Lemma window_head (b rest : list string) (m p : nat) :
  p < List.length b -> 0 < m ->
  hd ""%string (window (b ++ rest) m p) = nth p b ""%string.
Proof.
  intros Hp Hm. unfold window. destruct m as [| m]; [lia |].
  revert p Hp. induction b as [| x b IH]; intros p Hp; [simpl in Hp; lia |].
  destruct p as [| p]; [reflexivity |].
  cbn [app skipn nth]. apply IH. simpl in Hp. lia.
Qed.

Lemma window_whole (b rest : list string) :
  window (b ++ rest) (List.length b) 0 = b.
Proof.
  unfold window. cbn [skipn].
  rewrite firstn_app, Nat.sub_diag, firstn_all. cbn [firstn]. apply app_nil_r.
Qed.

Lemma window_second (b rest : list string) :
  window (b ++ b ++ rest) (List.length b) (List.length b) = b.
Proof.
  unfold window. rewrite skipn_app, skipn_all, Nat.sub_diag. cbn [skipn app].
  apply (window_whole b rest).
Qed.

End RepeatedBlocks.

(** X13: [find_duplicate_blocks] reports exactly the repeated windows it
    examines.  Every entry has at least two positions, in increasing
    order, all with the same window of [min_lines] compared lines; and
    two equal windows are reported in one entry.  A window is examined
    only if at least one compared line follows it: the last window of
    the file is never among the positions. *)
Theorem find_duplicate_blocks_exact (file_lines : list string)
        (min_lines : nat) :
  (forall d,
      In d (CodeAnalyzer.find_duplicate_blocks file_lines min_lines) ->
      CodeAnalyzer.lines d = min_lines
      /\ CodeAnalyzer.occurrences d = List.length (CodeAnalyzer.positions d)
      /\ 2 <= CodeAnalyzer.occurrences d
      /\ CodeAnalyzer.increasing (CodeAnalyzer.positions d) = true
      /\ forall p q,
           In p (CodeAnalyzer.positions d) -> In q (CodeAnalyzer.positions d) ->
           p + min_lines < List.length (CodeAnalyzer.normalized file_lines)
           /\ CodeAnalyzer.window (CodeAnalyzer.normalized file_lines) min_lines p
              = CodeAnalyzer.window (CodeAnalyzer.normalized file_lines)
                                    min_lines q)
  /\ (forall i j,
         i < j ->
         j + min_lines < List.length (CodeAnalyzer.normalized file_lines) ->
         CodeAnalyzer.window (CodeAnalyzer.normalized file_lines) min_lines i
         = CodeAnalyzer.window (CodeAnalyzer.normalized file_lines) min_lines j ->
         exists d,
           In d (CodeAnalyzer.find_duplicate_blocks file_lines min_lines)
           /\ In i (CodeAnalyzer.positions d) /\ In j (CodeAnalyzer.positions d)).
Proof.
  split.
  - intros d. apply duplicates_sound.
  - intros i j. apply duplicates_complete.
Qed.

Lemma find_duplicate_blocks_exact_abab :
  CodeAnalyzer.find_duplicate_blocks ["a"; "b"; "a"; "b"; "c"] 2
  = [CodeAnalyzer.mkDuplicate 2 2 [0; 2] ("a" ++ Text.nl ++ "b")]
  /\ exists d,
       In d (CodeAnalyzer.find_duplicate_blocks ["a"; "b"; "a"; "b"; "c"] 2)
       /\ In 0 (CodeAnalyzer.positions d) /\ In 2 (CodeAnalyzer.positions d).
Proof.
  split; [vm_compute; reflexivity |].
  destruct (find_duplicate_blocks_exact ["a"; "b"; "a"; "b"; "c"] 2) as [_ H].
  apply (H 0 2); [lia | vm_compute; lia | vm_compute; reflexivity].
Defined.

(** X14: a block that is repeated at the very end of a file is missed.
    For a block [b] of distinct lines, none blank or a comment, the file
    that consists of [b] twice has no duplicate of [length b] lines
    reported; with one more line after the second copy the duplicate is
    reported, at the positions 0 and [length b]. *)
Theorem duplicate_at_end_missed (b : list string) :
  NoDup b -> forallb CodeAnalyzer.kept_line b = true -> b <> [] ->
  CodeAnalyzer.find_duplicate_blocks (b ++ b) (List.length b) = []
  /\ forall x,
       CodeAnalyzer.kept_line x = true ->
       exists d,
         In d (CodeAnalyzer.find_duplicate_blocks (b ++ b ++ [x]) (List.length b))
         /\ In 0 (CodeAnalyzer.positions d)
         /\ In (List.length b) (CodeAnalyzer.positions d).
Proof.
  intros N K Hne.
  assert (Hm : 0 < List.length b) by (destruct b; [contradiction | simpl; lia]).
  split.
  - destruct (CodeAnalyzer.find_duplicate_blocks (b ++ b) (List.length b))
      as [| d rest] eqn:E; [reflexivity |].
    exfalso.
    destruct (duplicates_sound (b ++ b) (List.length b) d) as [_ [Ho [H2 [Hi Hw]]]].
    { rewrite E. left. reflexivity. }
    rewrite strip_map_kept in Hw by (rewrite forallb_app, K; reflexivity).
    rewrite Ho in H2.
    destruct (CodeAnalyzer.positions d) as [| p [| q ps]];
      [simpl in H2; lia | simpl in H2; lia |].
    apply increasing_head in Hi.
    destruct (Hw p q (or_introl eq_refl) (or_intror (or_introl eq_refl)))
      as [Hp Ew].
    destruct (Hw q q (or_intror (or_introl eq_refl))
                 (or_intror (or_introl eq_refl))) as [Hq _].
    rewrite length_app in Hp, Hq.
    apply (f_equal (hd ""%string)) in Ew.
    rewrite !window_head in Ew by lia.
    apply (proj1 (NoDup_nth b ""%string) N) in Ew; lia.
  - intros x Kx.
    apply duplicates_complete; [exact Hm | |];
      rewrite strip_map_kept
        by (rewrite !forallb_app, K; cbn [forallb]; rewrite Kx; reflexivity).
    + rewrite !length_app. simpl. lia.
    + rewrite (window_whole b (b ++ [x])), (window_second b [x]). reflexivity.
Qed.

Lemma duplicate_at_end_missed_twice :
  NoDup ["a"; "b"; "c"]%string
  /\ CodeAnalyzer.find_duplicate_blocks ["a"; "b"; "c"; "a"; "b"; "c"] 3 = [].
Proof.
  assert (N : NoDup ["a"; "b"; "c"]%string).
  { repeat constructor; simpl; intuition discriminate. }
  split; [exact N |].
  destruct (duplicate_at_end_missed ["a"; "b"; "c"] N eq_refl) as [H _];
    [discriminate | exact H].
Defined.

(* ================================================================== *)
(** ** Reading the list of changed files *)

Section ChangedFiles.
Import Pystr GitChanges.

Lemma lstrip_id (c : ascii) (s : string) :
  Re.space c = false -> lstrip (String c s) = String c s.
Proof. intros H. simpl. rewrite H. reflexivity. Qed.

Lemma rstrip_spaces (t : string) :
  Text.all Re.space t = true -> rstrip t = "".
Proof.
  unfold Text.all, Text.chars. induction t as [| c t IH]; [reflexivity |].
  simpl. intros H. apply andb_true_iff in H. destruct H as [Hc Ht].
  rewrite (IH Ht), Hc. reflexivity.
Qed.

Lemma rstrip_app_spaces (s t : string) :
  Text.all Re.space t = true -> rstrip (s ++ t) = rstrip s.
Proof.
  intros H. induction s as [| c s IH]; simpl.
  - apply rstrip_spaces, H.
  - rewrite IH. reflexivity.
Qed.

Lemma rstrip_id (s : string) :
  Re.space (last (Text.chars s) " "%char) = false -> rstrip s = s.
Proof.
  unfold Text.chars. induction s as [| c s IH]; [reflexivity |].
  destruct s as [| d s].
  - simpl. intros ->. reflexivity.
  - intros H. change (last (list_ascii_of_string (String c (String d s))) " "%char)
      with (last (list_ascii_of_string (String d s)) " "%char) in H.
    cbn [rstrip]. cbn [rstrip] in IH. rewrite (IH H). reflexivity.
Qed.

Lemma last_chars_app (a b : string) :
  b <> "" ->
  last (Text.chars (a ++ b)) " "%char = last (Text.chars b) " "%char.
Proof.
  intros H. rewrite chars_app. apply last_app_nonempty.
  destruct b; [contradiction | discriminate].
Qed.

Lemma split_once_plain (a b : string) :
  Text.all (fun c => negb (Re.space c)) a = true ->
  split_once tab (a ++ String tab b) = [a; b].
Proof.
  unfold Text.all, Text.chars. induction a as [| c a IH]; intros H.
  - reflexivity.
  - simpl in H. apply andb_true_iff in H. destruct H as [Hc Ha].
    cbn [append split_once]. rewrite (IH Ha).
    destruct (Ascii.eqb_spec c tab) as [-> | _]; [discriminate | reflexivity].
Qed.

(** The line of an entry. *)
Let line_of (f : file_info) : string := (status f ++ String tab (path f))%string.

Lemma listed_parts (f : file_info) :
  listed f = true ->
  exists c s, status f = String c s /\ Re.space c = false
              /\ Text.all (fun c => negb (Re.space c)) (status f) = true
              /\ path f <> "" /\ Text.all Re.dot (path f) = true
              /\ Re.space (last (Text.chars (path f)) " "%char) = false.
Proof.
  unfold listed. intros H.
  repeat (apply andb_true_iff in H; destruct H as [H ?]).
  destruct (status f) as [| c s] eqn:E; [discriminate |].
  exists c, s. split; [reflexivity |].
  match goal with
  | A : Text.all _ (String c s) = true |- _ =>
      pose proof A as A'; unfold Text.all, Text.chars in A'; simpl in A';
      apply andb_true_iff in A'; destruct A' as [Hc _]
  end.
  split; [apply negb_true_iff, Hc |]. split; [assumption |].
  split; [intros Ep; rewrite Ep in *; discriminate |].
  split; [assumption | apply negb_true_iff; assumption].
Qed.

Lemma line_strip (f : file_info) :
  listed f = true -> Text.nonempty (strip (line_of f)) = true.
Proof.
  intros H. destruct (listed_parts f H) as [c [s [E [Hc _]]]].
  unfold line_of, strip. rewrite E. cbn [append]. rewrite (lstrip_id _ _ Hc).
  pose proof (rstrip_head c (s ++ String tab (path f)) Hc) as Hne.
  destruct (rstrip _); [contradiction | reflexivity].
Qed.

Lemma line_changed_file (f : file_info) :
  listed f = true -> changed_file (line_of f) = [f].
Proof.
  intros H. unfold changed_file. rewrite (line_strip f H).
  destruct (listed_parts f H) as [c [s [_ [_ [Ha _]]]]].
  unfold line_of. rewrite (split_once_plain _ _ Ha). destruct f; reflexivity.
Qed.

Lemma not_space_dot (c : ascii) : Re.space c = false -> Re.dot c = true.
Proof. by_cases c. Qed.

Lemma line_no_newline (f : file_info) :
  listed f = true -> Finite.has_char Re.newline (line_of f) = false.
Proof.
  intros H. destruct (listed_parts f H) as [c [s [_ [_ [Ha [_ [Hp _]]]]]]].
  assert (Hd : Text.all Re.dot (line_of f) = true).
  { unfold line_of, Text.all. rewrite chars_app.
    change (Text.chars (String tab ?t)) with (tab :: Text.chars t).
    rewrite forallb_app. cbn [forallb].
    unfold Text.all in Ha, Hp. rewrite Hp.
    rewrite (forallb_impl _ Re.dot _ (fun x Hx => not_space_dot x (proj1 (negb_true_iff _) Hx)) Ha).
    reflexivity. }
  apply (all_has_char Re.dot); [| exact Hd].
  intros x Hx. unfold Re.dot in Hx. apply negb_true_iff in Hx.
  rewrite Ascii.eqb_sym. exact Hx.
Qed.

Lemma name_status_lines (f : file_info) (files : list file_info) :
  name_status (f :: files)
  = (String.concat Text.nl (map line_of (f :: files)) ++ Text.nl)%string.
Proof.
  unfold name_status. revert f. induction files as [| g files IH]; intros f.
  - cbn [map String.concat]. unfold line_of.
    rewrite append_assoc. reflexivity.
  - change (map ?h (f :: g :: files)) with (h f :: map h (g :: files)).
    change (String.concat "" (?x :: map ?h (g :: files)))
      with (x ++ "" ++ String.concat "" (map h (g :: files)))%string.
    rewrite IH.
    set (C := String.concat Text.nl (map line_of (g :: files))).
    change (String.concat Text.nl (line_of f :: map line_of (g :: files)))
      with (line_of f ++ Text.nl ++ C)%string.
    unfold line_of.
    repeat (progress (rewrite ?append_assoc; cbn [append])).
    reflexivity.
Qed.

Lemma last_of_lines (f : file_info) (files : list file_info) :
  forallb listed (f :: files) = true ->
  Re.space (last (Text.chars (String.concat Text.nl (map line_of (f :: files))))
                 " "%char) = false.
Proof.
  revert f. induction files as [| g files IH]; intros f H.
  - cbn [forallb] in H. rewrite andb_true_r in H.
    destruct (listed_parts f H) as [c [s [_ [_ [_ [Hne [_ Hl]]]]]]].
    cbn [map String.concat]. unfold line_of.
    rewrite last_chars_app by discriminate.
    change (Text.chars (String tab ?t)) with (tab :: Text.chars t).
    destruct (path f) as [| d p]; [contradiction |]. exact Hl.
  - cbn [forallb] in H. apply andb_true_iff in H. destruct H as [_ H].
    change (String.concat Text.nl (map line_of (f :: g :: files)))
      with (line_of f ++ Text.nl
                    ++ String.concat Text.nl (map line_of (g :: files)))%string.
    rewrite last_chars_app.
    + change (Text.nl ++ ?t)%string with (String Re.newline t).
      change (Text.chars (String Re.newline ?t)) with (Re.newline :: Text.chars t).
      specialize (IH g H).
      destruct (Text.chars (String.concat Text.nl (map line_of (g :: files))))
        eqn:E; [| exact IH].
      discriminate IH.
    + discriminate.
Qed.

Lemma flat_map_lines (files : list file_info) :
  forallb listed files = true ->
  flat_map changed_file (map line_of files) = files.
Proof.
  induction files as [| f files IH]; intros H; [reflexivity |].
  cbn [forallb] in H. apply andb_true_iff in H. destruct H as [Hf H].
  cbn [map flat_map]. rewrite (line_changed_file f Hf), (IH H). reflexivity.
Qed.

Lemma lines_head (f : file_info) (files : list file_info) :
  listed f = true ->
  exists c rest,
    String.concat Text.nl (map line_of (f :: files)) = String c rest
    /\ Re.space c = false.
Proof.
  intros H. destruct (listed_parts f H) as [c [s [E [Hc _]]]].
  exists c.
  assert (L : line_of f = String c (s ++ String tab (path f)))
    by (unfold line_of; rewrite E; reflexivity).
  cbn [map String.concat]. rewrite L.
  destruct (map line_of files); cbn [append]; eexists;
    (split; [reflexivity | exact Hc]).
Qed.

Lemma strip_name_status (f : file_info) (files : list file_info) :
  forallb listed (f :: files) = true ->
  strip (name_status (f :: files))
  = String.concat Text.nl (map line_of (f :: files)).
Proof.
  intros H. rewrite name_status_lines.
  pose proof (last_of_lines f files H) as Hl.
  cbn [forallb] in H. apply andb_true_iff in H. destruct H as [Hf _].
  destruct (lines_head f files Hf) as [c [rest [E Hc]]].
  unfold strip. rewrite E. cbn [append]. rewrite (lstrip_id _ _ Hc).
  change (String c (rest ++ Text.nl)) with (String c rest ++ Text.nl)%string.
  rewrite rstrip_app_spaces by reflexivity.
  rewrite <- E. apply rstrip_id, Hl.
Qed.

Lemma changed_files_listed (git : list string -> option string)
      (repo_path old new_commit : string) (files : list file_info) :
  old <> "" ->
  forallb listed files = true ->
  git ["git"; "-C"; repo_path; "diff"; "--name-status";
       (old ++ ".." ++ new_commit)%string]
  = Some (name_status files) ->
  get_changed_files git repo_path (Some old) new_commit = files.
Proof.
  intros Hold H G. unfold get_changed_files, run_git_command.
  destruct old as [| o old]; [contradiction |]. rewrite G.
  destruct files as [| f files]; [reflexivity |].
  rewrite (strip_name_status f files H).
  pose proof H as H'. cbn [forallb] in H'. apply andb_true_iff in H'.
  destruct H' as [Hf _].
  destruct (lines_head f files Hf) as [c [rest [E _]]].
  assert (S : Str.split Re.newline
                (String.concat Text.nl (map line_of (f :: files)))
              = map line_of (f :: files)).
  { apply (split_join Re.newline (map line_of (f :: files))); [discriminate |].
    intros s Hs. apply in_map_iff in Hs. destruct Hs as [g [<- Hg]].
    apply line_no_newline. apply (proj1 (forallb_forall _ _) H g Hg). }
  rewrite E in *. cbv iota beta. rewrite S. apply flat_map_lines, H.
Qed.

End ChangedFiles.

(** X15: reading back what git lists.  When git succeeds and prints one
    line per changed file, status, tab, path, then [get_changed_files]
    returns exactly these entries in this order, for statuses without
    white space and paths without a line break that do not end in white
    space; a path may hold tabs and blanks (the line is cut at the first
    tab only).  Without an old commit, or when git fails or prints
    nothing, the list is empty. *)
Theorem get_changed_files_round_trip (git : list string -> option string)
        (repo_path old new_commit : string)
        (files : list GitChanges.file_info) :
  old <> "" ->
  forallb GitChanges.listed files = true ->
  git ["git"; "-C"; repo_path; "diff"; "--name-status";
       (old ++ ".." ++ new_commit)%string]
  = Some (GitChanges.name_status files) ->
  GitChanges.get_changed_files git repo_path (Some old) new_commit = files
  /\ GitChanges.get_changed_files git repo_path None new_commit = []
  /\ GitChanges.get_changed_files git repo_path (Some "") new_commit = []
  /\ GitChanges.get_changed_files (fun _ => None) repo_path (Some old) new_commit
     = []
  /\ GitChanges.get_changed_files (fun _ => Some ""%string) repo_path (Some old)
                                  new_commit
     = [].
Proof.
  intros Hold H G.
  split; [apply changed_files_listed; assumption |].
  split; [reflexivity |]. split; [reflexivity |].
  destruct old as [| o old]; [contradiction |].
  split; reflexivity.
Qed.

Lemma get_changed_files_round_trip_rename :
  GitChanges.get_changed_files
    (fun _ => Some (GitChanges.name_status
                      [GitChanges.mkFileInfo "M" "my notes.py";
                       GitChanges.mkFileInfo "R100"
                         ("old.py" ++ String GitChanges.tab "new.py")]))
    "/repo" (Some "abc1234"%string) "def5678"
  = [GitChanges.mkFileInfo "M" "my notes.py";
     GitChanges.mkFileInfo "R100" ("old.py" ++ String GitChanges.tab "new.py")].
Proof.
  apply (get_changed_files_round_trip
           (fun _ => Some (GitChanges.name_status
                             [GitChanges.mkFileInfo "M" "my notes.py";
                              GitChanges.mkFileInfo "R100"
                                ("old.py" ++ String GitChanges.tab "new.py")]))
           "/repo" "abc1234" "def5678");
    [discriminate | reflexivity | reflexivity].
Defined.
